(** * spendingTracker: budget resolution, aggregation and change notification

    A shallow embedding of the storage module ([app/db.ts]), the change
    notification bus ([app/utils/transactions-events.ts]), the donut
    chart geometry ([app/components/DonutChart.tsx]) and the two
    transaction write paths ([TransactionForm.handleSubmit] and
    [ExpensesScreen.handleEditSave]), followed by the properties of the
    specification that concern them.

    Conventions of the embedding.
    - A JavaScript [number] is [JS.number]: NaN, the two infinities, or a
      finite value carried as a rational.  The sign of zero is abstracted
      away.  Where the program divides, on the budget screen, the rounding
      of doubles is a parameter [round] of which only monotonicity is
      assumed; a sum of amounts is the exact sum, the order in which
      SQLite adds them not being modelled.
    - A [string] is a sequence of bytes; SQLite's default BINARY collation
      and [String.compare] both compare them bytewise, a proper prefix
      first.
    - An [async] function is a computation over the [World]: it either
      fulfils with a value or rejects with an [Error], and threads the
      database file, the pending storage faults and the log of driver
      calls.
    - A [Record<string, T>] is a [gmap string T]: the properties of the
      object itself.  An assignment [o[key] = v] is [JS.Object_set] and a
      test [key in o] is [JS.Object_in], which account for the names that
      the object inherits from [Object.prototype].
    - A listener of the bus and a callback of the form may throw; what
      they do is given by the parameters [callback] and [f_throws]. *)

From Stdlib Require Import ZArith QArith Qminmax Qround Lqa String Ascii List Bool Lia DecimalString.
From Stdlib Require Import Permutation Sorted.
From stdpp Require Import gmap strings.
Import ListNotations.

Open Scope string_scope.

(** ** JavaScript values and built-ins used by the program *)

Module JS.

Inductive number : Type :=
| NaN
| PosInfinity
| NegInfinity
| Fin (q : Q).

Definition Number_isFinite (x : number) : bool :=
  match x with Fin _ => true | _ => false end.

(** [x <= y] and [x < y]; any comparison with NaN is false. *)
Definition le (x y : number) : bool :=
  match x, y with
  | NaN, _ | _, NaN => false
  | NegInfinity, _ => true
  | _, PosInfinity => true
  | PosInfinity, _ => false
  | _, NegInfinity => false
  | Fin a, Fin b => Qle_bool a b
  end.

Definition lt (x y : number) : bool :=
  match x, y with
  | NaN, _ | _, NaN => false
  | PosInfinity, _ => false
  | _, NegInfinity => false
  | NegInfinity, _ => true
  | _, PosInfinity => true
  | Fin a, Fin b => negb (Qle_bool b a)
  end.

(** [Math.min(x, y)] and [Math.max(x, y)]: NaN if either argument is. *)
Definition Math_min (x y : number) : number :=
  match x, y with
  | NaN, _ | _, NaN => NaN
  | _, _ => if le x y then x else y
  end.

Definition Math_max (x y : number) : number :=
  match x, y with
  | NaN, _ | _, NaN => NaN
  | _, _ => if le y x then x else y
  end.

Definition sign_negative (x : number) : bool := lt x (Fin 0).
Definition is_zero (x : number) : bool :=
  match x with Fin q => Qeq_bool q 0 | _ => false end.

(** [x * y] *)
Definition mul (x y : number) : number :=
  match x, y with
  | NaN, _ | _, NaN => NaN
  | Fin a, Fin b => Fin (a * b)
  | _, _ =>
      if is_zero x || is_zero y then NaN
      else if xorb (sign_negative x) (sign_negative y) then NegInfinity
      else PosInfinity
  end.

(** The double closest to pi: 884279719003555 / 2^48. *)
Definition Math_PI : Q := 884279719003555 # 281474976710656.

(** [s.replace(',', '.')] with a string pattern: the first occurrence only. *)
Fixpoint replace_comma_by_dot (s : string) : string :=
  match s with
  | EmptyString => EmptyString
  | String c rest =>
      if Ascii.eqb c "," then String "." rest
      else String c (replace_comma_by_dot rest)
  end.

(** [s.padStart(2, '0')] *)
Definition padStart2 (s : string) : string :=
  match String.length s with
  | O => "00" ++ s
  | S O => "0" ++ s
  | _ => s
  end.

(** [String(n)] for an integer [n]. *)
Definition String_of_int (n : Z) : string := NilZero.string_of_int (Z.to_int n).

(** White space and line terminators removed by [trim].  A string being
    its UTF-8 bytes, a character is one to three bytes: the ASCII ones
    (space, tab, line feed, vertical tab, form feed, carriage return),
    U+00A0 on two bytes, and on three bytes U+1680, U+2000 to U+200A,
    U+2028, U+2029, U+202F, U+205F, U+3000 and U+FEFF. *)
Definition is_space (c : ascii) : bool :=
  existsb (Ascii.eqb c) [" "%char; "009"%char; "010"%char; "011"%char; "012"%char; "013"%char].

Definition is_space2 (c1 c2 : ascii) : bool :=
  Ascii.eqb c1 "194"%char && Ascii.eqb c2 "160"%char.

Definition is_space3 (c1 c2 c3 : ascii) : bool :=
  (Ascii.eqb c1 "225"%char && Ascii.eqb c2 "154"%char && Ascii.eqb c3 "128"%char)
  || (Ascii.eqb c1 "226"%char && Ascii.eqb c2 "128"%char &&
      ((Nat.leb 128 (nat_of_ascii c3) && Nat.leb (nat_of_ascii c3) 138)
       || existsb (Ascii.eqb c3) ["168"%char; "169"%char; "175"%char]))
  || (Ascii.eqb c1 "226"%char && Ascii.eqb c2 "129"%char && Ascii.eqb c3 "159"%char)
  || (Ascii.eqb c1 "227"%char && Ascii.eqb c2 "128"%char && Ascii.eqb c3 "128"%char)
  || (Ascii.eqb c1 "239"%char && Ascii.eqb c2 "187"%char && Ascii.eqb c3 "191"%char).

Fixpoint trimStart (s : string) : string :=
  match s with
  | EmptyString => EmptyString
  | String c1 r1 =>
      if is_space c1 then trimStart r1
      else
        match r1 with
        | String c2 r2 =>
            if is_space2 c1 c2 then trimStart r2
            else
              match r2 with
              | String c3 r3 => if is_space3 c1 c2 c3 then trimStart r3 else s
              | EmptyString => s
              end
        | EmptyString => s
        end
  end.

(** Nothing but white space. *)
Definition blank (s : string) : bool :=
  match trimStart s with EmptyString => true | _ => false end.

Fixpoint trimEnd (s : string) : string :=
  match s with
  | EmptyString => EmptyString
  | String c rest => if blank s then EmptyString else String c (trimEnd rest)
  end.

Definition trim (s : string) : string := trimEnd (trimStart s).

(** A [Date] as the program observes it: invalid (its time value is NaN),
    or a calendar day in local time.  [month] is zero-based, as
    [getMonth()] returns it. *)
Inductive Date : Type :=
| InvalidDate
| LocalDate (fullYear month date : Z).

(** [Number.isNaN(d.getTime())] *)
Definition Date_time_isNaN (d : Date) : bool :=
  match d with InvalidDate => true | LocalDate _ _ _ => false end.

(** [arr.includes(x)] on an array of strings. *)
Definition includes (arr : list string) (x : string) : bool :=
  existsb (String.eqb x) arr.

(** [o[key] = v] on an object made by an object literal, for a value [v]
    that is a number or a boolean.  A map holds the properties of [o]
    itself, and [!!] reads them.  The name [__proto__] is not such a
    property but the accessor that [o] inherits from [Object.prototype],
    and its setter ignores a value that is not an object: nothing is
    stored.  Under any other name, those of inherited methods included,
    [v] becomes a property of [o]. *)
Definition Object_set {A} (key : string) (v : A) (o : gmap string A) : gmap string A :=
  if key =? "__proto__" then o else <[key := v]> o.

(** The names that every object inherits from [Object.prototype]. *)
Definition Object_prototype_names : list string :=
  ["__defineGetter__"; "__defineSetter__"; "__lookupGetter__"; "__lookupSetter__";
   "__proto__"; "constructor"; "hasOwnProperty"; "isPrototypeOf";
   "propertyIsEnumerable"; "toLocaleString"; "toString"; "valueOf"].

(** [key in o] on an object made by an object literal: a property of [o]
    itself, or an inherited name. *)
Definition Object_in {A} (key : string) (o : gmap string A) : bool :=
  bool_decide (is_Some (o !! key)) || includes Object_prototype_names key.

End JS.

(** ** The persisted tables and the statements the program issues *)

Module Sqlite.

(** [transactions (id INTEGER PRIMARY KEY AUTOINCREMENT, amount REAL NOT NULL,
    category TEXT NOT NULL, label TEXT NULL, date TEXT NOT NULL)] *)
Record TransactionRow : Type := {
  id : Z;
  amount : Q;
  category : string;
  label : option string;
  date : string
}.

(** [budgets (id INTEGER PRIMARY KEY AUTOINCREMENT, month TEXT NOT NULL,
    category TEXT NOT NULL, amount REAL NOT NULL)] *)
Record BudgetRow : Type := {
  bg_id : Z;
  bg_month : string;
  bg_category : string;
  bg_amount : Q
}.

(** The database file once [initDb] has created both tables.  The two
    [_seq] fields are the AUTOINCREMENT counters (the largest id ever
    handed out); no statement of the program reads them back. *)
Record Database : Type := {
  transactions : list TransactionRow;
  transactions_seq : Z;
  budgets : list BudgetRow;
  budgets_seq : Z
}.

Definition with_transactions (d : Database) (rows : list TransactionRow) (seq : Z) : Database :=
  {| transactions := rows; transactions_seq := seq;
     budgets := budgets d; budgets_seq := budgets_seq d |}.

Definition with_budgets (d : Database) (rows : list BudgetRow) (seq : Z) : Database :=
  {| transactions := transactions d; transactions_seq := transactions_seq d;
     budgets := rows; budgets_seq := seq |}.

Definition at_key (month category : string) (b : BudgetRow) : bool :=
  (bg_month b =? month) && (bg_category b =? category).

(** The unique index [budgets_month_category_idx ON budgets(month, category)]:
    at most one row for each month and category. *)
Definition budget_key (b : BudgetRow) : string * string := (bg_month b, bg_category b).

Definition budgets_unique (bs : list BudgetRow) : Prop :=
  List.NoDup (List.map budget_key bs).

(** *** Query building blocks *)

(** [ORDER BY]: insertion sort; [before x y] says that [x] may be placed
    ahead of [y].  Rows that compare equal keep their table order. *)
Fixpoint insert_ordered {A} (before : A -> A -> bool) (x : A) (l : list A) : list A :=
  match l with
  | [] => [x]
  | y :: l' => if before x y then x :: l else y :: insert_ordered before x l'
  end.

Definition order_by {A} (before : A -> A -> bool) (l : list A) : list A :=
  fold_right (insert_ordered before) [] l.

(** [LIMIT 1] as read by [getFirstAsync]: the first row, or null. *)
Definition first_row {A} (l : list A) : option A := hd_error l.

(** [SUM(amount)] over the rows of a group, in table order: the exact
    sum, which SQLite returns rounded to a double. *)
Definition SUM (xs : list Q) : Q := fold_left Qplus xs 0%Q.

(** The distinct values of a column, in order of first appearance. *)
Fixpoint distinct (l : list string) : list string :=
  match l with
  | [] => []
  | x :: l' => x :: List.filter (fun y => negb (y =? x)) (distinct l')
  end.

(** *** Statements *)

(** [INSERT INTO transactions (amount, category, label, date) VALUES (?, ?, ?, ?)] *)
Definition insert_transaction (a : Q) (c : string) (l : option string) (d : string)
    (db : Database) : Database :=
  let new_id := (transactions_seq db + 1)%Z in
  with_transactions db
    (transactions db ++ [{| id := new_id; amount := a; category := c; label := l; date := d |}])
    new_id.

(** [SELECT id, amount, category, label, date FROM transactions ORDER BY id DESC] *)
Definition select_transactions (db : Database) : list TransactionRow :=
  order_by (fun x y => (id y <=? id x)%Z) (transactions db).

(** [DELETE FROM transactions WHERE id IN (?, ..., ?)] *)
Definition delete_transactions_in (ids : list Z) (db : Database) : Database :=
  with_transactions db
    (List.filter (fun t => negb (existsb (Z.eqb (id t)) ids)) (transactions db))
    (transactions_seq db).

(** [UPDATE transactions SET amount = ?, category = ?, label = ?, date = ? WHERE id = ?] *)
Definition update_transaction (i : Z) (a : Q) (c : string) (l : option string) (d : string)
    (db : Database) : Database :=
  with_transactions db
    (List.map (fun t => if (id t =? i)%Z
                        then {| id := id t; amount := a; category := c; label := l; date := d |}
                        else t)
              (transactions db))
    (transactions_seq db).

(** The rows selected by [WHERE date >= ? AND date < ?]. *)
Definition in_range (monthStart monthEnd : string) (t : TransactionRow) : bool :=
  String.leb monthStart (date t) && String.ltb (date t) monthEnd.

(** [SELECT category, SUM(amount) as total FROM transactions
     WHERE date >= ? AND date < ? GROUP BY category].
    One result row per category among the selected rows; the order of the
    result rows is not fixed by the statement, first appearance is used. *)
Record TotalRow : Type := { tr_category : string; total : Q }.

Definition select_category_totals (monthStart monthEnd : string) (db : Database)
    : list TotalRow :=
  let selected := List.filter (in_range monthStart monthEnd) (transactions db) in
  List.map
    (fun c => {| tr_category := c;
                 total := SUM (List.map amount
                                 (List.filter (fun t => category t =? c) selected)) |})
    (distinct (List.map category selected)).

Record AmountRow : Type := { ar_amount : Q }.

Definition project_amount (b : BudgetRow) : AmountRow := {| ar_amount := bg_amount b |}.

(** [SELECT amount FROM budgets WHERE category = ? AND month = ? LIMIT 1] *)
Definition select_budget_exact (c month : string) (db : Database) : option AmountRow :=
  first_row
    (List.map project_amount
       (List.filter (fun b => (bg_category b =? c) && (bg_month b =? month)) (budgets db))).

(** [SELECT amount FROM budgets WHERE category = ? AND month <= ?
     ORDER BY month DESC LIMIT 1] *)
Definition select_budget_fallback (c month : string) (db : Database) : option AmountRow :=
  first_row
    (List.map project_amount
       (order_by (fun x y => String.leb (bg_month y) (bg_month x))
          (List.filter (fun b => (bg_category b =? c) && String.leb (bg_month b) month)
             (budgets db)))).

(** [INSERT INTO budgets (month, category, amount) VALUES (?, ?, ?)
     ON CONFLICT(month, category) DO UPDATE SET amount = excluded.amount].
    The attempted insert draws a fresh id from the counter; when a row with
    the same month and category exists, that row's amount is overwritten
    instead and nothing is added. *)
Definition upsert_budget (month c : string) (a : Q) (db : Database) : Database :=
  let new_id := (budgets_seq db + 1)%Z in
  if existsb (at_key month c) (budgets db) then
    with_budgets db
      (List.map (fun b => if at_key month c b
                          then {| bg_id := bg_id b; bg_month := bg_month b;
                                  bg_category := bg_category b; bg_amount := a |}
                          else b)
                (budgets db))
      new_id
  else
    with_budgets db
      (budgets db ++ [{| bg_id := new_id; bg_month := month; bg_category := c; bg_amount := a |}])
      new_id.

(** [DELETE FROM budgets WHERE month = ? AND category = ?] *)
Definition delete_budget (month c : string) (db : Database) : Database :=
  with_budgets db
    (List.filter (fun b => negb ((bg_month b =? month) && (bg_category b =? c))) (budgets db))
    (budgets_seq db).

(** [SELECT id, amount, category, label, date FROM transactions
     WHERE date >= ? AND date < ? ORDER BY date DESC, id DESC] *)
Definition date_desc_id_desc (x y : TransactionRow) : bool :=
  String.ltb (date y) (date x) || ((date y =? date x) && (id y <=? id x)%Z).

Definition select_transactions_for_month (monthStart monthEnd : string) (db : Database)
    : list TransactionRow :=
  order_by date_desc_id_desc (List.filter (in_range monthStart monthEnd) (transactions db)).

Record CategoryAmountRow : Type := { ca_category : string; ca_amount : Q }.

(** [SELECT category, amount FROM budgets WHERE month = ?] *)
Definition select_budgets_of_month (month : string) (db : Database) : list CategoryAmountRow :=
  List.map (fun b => {| ca_category := bg_category b; ca_amount := bg_amount b |})
    (List.filter (fun b => bg_month b =? month) (budgets db)).

End Sqlite.

(** ** Asynchronous computations over the storage driver *)

Module Async.
Import Sqlite.

Inductive Error : Type := mkError (message : string).

Definition message (e : Error) : string := match e with mkError m => m end.

Inductive Settled (A : Type) : Type :=
| Fulfilled (a : A)
| Rejected (e : Error).
Arguments Fulfilled {A} a.
Arguments Rejected {A} e.

(** Everything outside the program that its storage code touches.
    - [platform_web]: [Platform.OS === 'web'];
    - [dbPromise]: the module variable of [db.ts], [None] for [null];
    - [db]: the contents of ['spending.db'];
    - [faults]: what the driver will do to the coming calls, in order:
      [Some e] makes the call reject with [e], [None] lets it through;
      once exhausted, calls go through;
    - [trace]: the driver calls made so far, oldest first. *)
Record World : Type := {
  platform_web : bool;
  dbPromise : option (Settled unit);
  db : Database;
  faults : list (option Error);
  trace : list string
}.

Definition T (A : Type) : Type := World -> Settled A * World.

Definition ret {A} (a : A) : T A := fun w => (Fulfilled a, w).

Definition throw {A} (e : Error) : T A := fun w => (Rejected e, w).

(** [await m] followed by [k]. *)
Definition bind {A B} (m : T A) (k : A -> T B) : T B :=
  fun w =>
    match m w with
    | (Fulfilled a, w') => k a w'
    | (Rejected e, w') => (Rejected e, w')
    end.

(** [try { body } catch { handler }] *)
Definition try_catch {A} (body : T A) (handler : Error -> T A) : T A :=
  fun w =>
    match body w with
    | (Fulfilled a, w') => (Fulfilled a, w')
    | (Rejected e, w') => handler e w'
    end.

(** [for (const x of xs) { s = body(x, s) }] with awaits in the body. *)
Fixpoint for_of {A S} (xs : list A) (body : A -> S -> T S) (s : S) : T S :=
  match xs with
  | [] => ret s
  | x :: xs' => bind (body x s) (for_of xs' body)
  end.

Definition pop_fault (w : World) (tr : list string) : option Error * (Database -> World) :=
  match faults w with
  | [] =>
      (None, fun d => {| platform_web := platform_web w; dbPromise := dbPromise w;
                         db := d; faults := []; trace := tr |})
  | f :: rest =>
      (f, fun d => {| platform_web := platform_web w; dbPromise := dbPromise w;
                      db := d; faults := rest; trace := tr |})
  end.

(** One call into the driver: it is logged, then either rejects (leaving
    the database as it was) or reads a result and applies its effect. *)
Definition call {A} (sql : string) (read : Database -> A) (write : Database -> Database)
    : T A :=
  fun w =>
    match pop_fault w (trace w ++ [sql]) with
    | (Some e, k) => (Rejected e, k (db w))
    | (None, k) => (Fulfilled (read (db w)), k (write (db w)))
    end.

(** The four driver methods the program uses. *)
Definition execAsync (sql : string) : T unit := call sql (fun _ => tt) (fun d => d).
Definition runAsync (sql : string) (effect : Database -> Database) : T unit :=
  call sql (fun _ => tt) effect.
Definition getAllAsync {A} (sql : string) (query : Database -> list A) : T (list A) :=
  call sql query (fun d => d).
Definition getFirstAsync {A} (sql : string) (query : Database -> option A) : T (option A) :=
  call sql query (fun d => d).

(** [openDatabaseAsync('spending.db')]: the promise it returns, settled. *)
Definition openDatabaseAsync (name : string) (w : World) : Settled unit * World :=
  match pop_fault w (trace w ++ ["openDatabaseAsync " ++ name]) with
  | (Some e, k) => (Rejected e, k (db w))
  | (None, k) => (Fulfilled tt, k (db w))
  end.

Definition set_dbPromise (p : Settled unit) (w : World) : World :=
  {| platform_web := platform_web w; dbPromise := Some p;
     db := db w; faults := faults w; trace := trace w |}.

(** A world in which storage works: not the web platform, no failed
    attempt to open the database in the past, no fault to come. *)
Definition healthy (w : World) : Prop :=
  platform_web w = false /\
  (forall e, dbPromise w <> Some (Rejected e)) /\
  Forall (fun f => f = None) (faults w).

(** [m], started in [w], fulfils with [a] and leaves the database as [d]
    in a world that is healthy again. *)
Definition fulfils {A} (m : T A) (w : World) (a : A) (d : Database) : Prop :=
  exists w', m w = (Fulfilled a, w') /\ healthy w' /\ db w' = d.

End Async.

#[global] Instance async_ret : MRet Async.T := @Async.ret.
#[global] Instance async_bind : MBind Async.T := fun A B k m => Async.bind m k.

(** ** [app/db.ts] *)

Module Db.
Import JS Sqlite Async.

Definition getDb : Async.T unit :=
  fun w =>
    if platform_web w then
      throw (mkError "SQLite is not available on web without SharedArrayBuffer support.") w
    else
      let w1 := match dbPromise w with
                | None => let (p, w') := openDatabaseAsync "spending.db" w in set_dbPromise p w'
                | Some _ => w
                end in
      match dbPromise w1 with
      | Some (Rejected e) => (Rejected e, w1)
      | _ => (Fulfilled tt, w1)
      end.

Definition initDb : Async.T unit :=
  _ ← getDb;
  _ ← execAsync "CREATE TABLE IF NOT EXISTS transactions (id INTEGER PRIMARY KEY AUTOINCREMENT, amount REAL NOT NULL, category TEXT NOT NULL, label TEXT NULL, date TEXT NOT NULL)";
  _ ← execAsync "CREATE TABLE IF NOT EXISTS budgets (id INTEGER PRIMARY KEY AUTOINCREMENT, month TEXT NOT NULL, category TEXT NOT NULL, amount REAL NOT NULL)";
  _ ← execAsync "CREATE UNIQUE INDEX IF NOT EXISTS budgets_month_category_idx ON budgets(month, category)";
  mret tt.

Definition insertTransaction (amount : Q) (category : string) (label : option string)
    (date : string) : Async.T unit :=
  _ ← getDb;
  runAsync "INSERT INTO transactions (amount, category, label, date) VALUES (?, ?, ?, ?)"
    (insert_transaction amount category label date).

Definition getTransactions : Async.T (list TransactionRow) :=
  _ ← getDb;
  getAllAsync "SELECT id, amount, category, label, date FROM transactions ORDER BY id DESC"
    select_transactions.

(** [ids.map(() => '?').join(', ')] *)
Definition placeholders (ids : list Z) : string :=
  String.concat ", " (List.map (fun _ => "?") ids).

Definition deleteTransactions (ids : list Z) : Async.T unit :=
  if (List.length ids =? 0)%nat then mret tt
  else
    _ ← getDb;
    runAsync ("DELETE FROM transactions WHERE id IN (" ++ placeholders ids ++ ")")
      (delete_transactions_in ids).

Definition updateTransaction (id : Z) (amount : Q) (category : string)
    (label : option string) (date : string) : Async.T unit :=
  _ ← getDb;
  runAsync "UPDATE transactions SET amount = ?, category = ?, label = ?, date = ? WHERE id = ?"
    (update_transaction id amount category label date).

Definition getMonthlyCategoryTotals (monthStart monthEnd : string) : Async.T (list TotalRow) :=
  _ ← getDb;
  getAllAsync "SELECT category, SUM(amount) as total FROM transactions WHERE date >= ? AND date < ? GROUP BY category"
    (select_category_totals monthStart monthEnd).

(** [!!row] *)
Definition not_null {A} (row : option A) : bool :=
  match row with
  | Some _ => true
  | None => false
  end.

(** [row?.amount ?? 0] *)
Definition amount_or_zero (row : option AmountRow) : Q :=
  match row with
  | Some r => ar_amount r
  | None => 0%Q
  end.

Definition getMonthlyBudgetsWithFallback (month : string) (categories : list string)
    : Async.T (gmap string Q) :=
  _ ← getDb;
  for_of categories
    (fun category results =>
       row ← getFirstAsync "SELECT amount FROM budgets WHERE category = ? AND month <= ? ORDER BY month DESC LIMIT 1"
               (select_budget_fallback category month);
       mret (Object_set category (amount_or_zero row) results))
    ∅.

Record FallbackStatus : Type := {
  amounts : gmap string Q;
  exact : gmap string bool
}.

Definition getMonthlyBudgetsWithFallbackStatus_body (month category : string)
    (acc : FallbackStatus) : Async.T FallbackStatus :=
  exactRow ← getFirstAsync "SELECT amount FROM budgets WHERE category = ? AND month = ? LIMIT 1"
               (select_budget_exact category month);
  let exact' := Object_set category (not_null exactRow) (exact acc) in
  match exactRow with
  | Some r =>
      mret {| amounts := Object_set category (ar_amount r) (amounts acc); exact := exact' |}
  | None =>
      fallbackRow ← getFirstAsync "SELECT amount FROM budgets WHERE category = ? AND month <= ? ORDER BY month DESC LIMIT 1"
                      (select_budget_fallback category month);
      mret {| amounts := Object_set category (amount_or_zero fallbackRow) (amounts acc);
              exact := exact' |}
  end.

Definition getMonthlyBudgetsWithFallbackStatus (month : string) (categories : list string)
    : Async.T FallbackStatus :=
  _ ← getDb;
  for_of categories (getMonthlyBudgetsWithFallbackStatus_body month)
    {| amounts := ∅; exact := ∅ |}.

Definition upsertBudget (month category : string) (amount : Q) : Async.T unit :=
  _ ← getDb;
  runAsync "INSERT INTO budgets (month, category, amount) VALUES (?, ?, ?) ON CONFLICT(month, category) DO UPDATE SET amount = excluded.amount"
    (upsert_budget month category amount).

Definition deleteBudgetForMonth (month category : string) : Async.T unit :=
  _ ← getDb;
  runAsync "DELETE FROM budgets WHERE month = ? AND category = ?"
    (delete_budget month category).

Definition getTransactionsForMonth (monthStart monthEnd : string)
    : Async.T (list TransactionRow) :=
  _ ← getDb;
  getAllAsync "SELECT id, amount, category, label, date FROM transactions WHERE date >= ? AND date < ? ORDER BY date DESC, id DESC"
    (select_transactions_for_month monthStart monthEnd).

Definition getMonthlyBudgets (month : string) : Async.T (list CategoryAmountRow) :=
  _ ← getDb;
  getAllAsync "SELECT category, amount FROM budgets WHERE month = ?"
    (select_budgets_of_month month).

(** *** What the two resolver loops compute, driver calls left out

    The lemmas below show that in a healthy world the loops fulfil with
    exactly these values. *)

Definition resolve_step (month : string) (d : Database) (acc : FallbackStatus)
    (category : string) : FallbackStatus :=
  match select_budget_exact category month d with
  | Some r =>
      {| amounts := Object_set category (ar_amount r) (amounts acc);
         exact := Object_set category true (exact acc) |}
  | None =>
      {| amounts := Object_set category
                      (amount_or_zero (select_budget_fallback category month d)) (amounts acc);
         exact := Object_set category false (exact acc) |}
  end.

Definition fallback_step (month : string) (d : Database) (results : gmap string Q)
    (category : string) : gmap string Q :=
  Object_set category (amount_or_zero (select_budget_fallback category month d)) results.

End Db.

(** ** [app/utils/transactions-events.ts] *)

Module TransactionsEvents.

(** A listener is a function value; the [Set] tells listeners apart by
    reference, here a number. *)
Definition Listener : Type := nat.

(** What a listener may do while it runs: subscribe a listener, call the
    unsubscribe function that an earlier [subscribeTransactionsChanged]
    returned, or throw, which ends it.  (A listener that publishes again
    from inside its callback is outside this model.) *)
Inductive Action : Type :=
| Subscribe (l : Listener)
| Unsubscribe (l : Listener)
| Throw.

(** The module-level [Set<Listener>], as the language defines it: a list
    of entries in insertion order in which a deleted entry leaves an
    empty slot behind.  [calls] records every listener invocation. *)
Record Bus : Type := {
  listeners : list (option Listener);
  calls : list Listener
}.

Definition is_entry (l : Listener) (e : option Listener) : bool :=
  match e with
  | Some l' => Nat.eqb l' l
  | None => false
  end.

(** [listeners.add(l)] *)
Definition Set_add (l : Listener) (entries : list (option Listener)) : list (option Listener) :=
  if existsb (is_entry l) entries then entries else entries ++ [Some l].

(** [listeners.delete(l)] *)
Definition Set_delete (l : Listener) (entries : list (option Listener))
    : list (option Listener) :=
  List.map (fun e => if is_entry l e then None else e) entries.

(** The listeners currently in the set, in insertion order. *)
Fixpoint members (entries : list (option Listener)) : list Listener :=
  match entries with
  | [] => []
  | Some l :: rest => l :: members rest
  | None :: rest => members rest
  end.

Definition subscribeTransactionsChanged (listener : Listener) (b : Bus) : Bus :=
  {| listeners := Set_add listener (listeners b); calls := calls b |}.

(** The function [subscribeTransactionsChanged(listener)] returns. *)
Definition unsubscribe (listener : Listener) (b : Bus) : Bus :=
  {| listeners := Set_delete listener (listeners b); calls := calls b |}.

(** How a call ends: it returns, or an exception leaves it, or, for a
    pass over the listeners, the steps allowed did not suffice.  In each
    case the bus is as the call left it. *)
Inductive Outcome : Type :=
| Returned (b : Bus)
| Thrown (b : Bus)
| Unfinished (b : Bus).

Definition bus_of (o : Outcome) : Bus :=
  match o with
  | Returned b | Thrown b | Unfinished b => b
  end.

(** The body of a listener, statement by statement. *)
Fixpoint run (actions : list Action) (b : Bus) : Outcome :=
  match actions with
  | [] => Returned b
  | Subscribe l :: rest => run rest (subscribeTransactionsChanged l b)
  | Unsubscribe l :: rest => run rest (unsubscribe l b)
  | Throw :: _ => Thrown b
  end.

Section Emit.
(** The body of each listener. *)
Variable callback : Listener -> list Action.

(** [listener()] *)
Definition invoke (l : Listener) (b : Bus) : Outcome :=
  run (callback l) {| listeners := listeners b; calls := calls b ++ [l] |}.

(** [Set.prototype.forEach]: walk the entries by index, skipping empty
    slots, and look at the length of the list again after each call.  An
    exception thrown by a listener ends the walk and leaves [forEach].
    A pass need not end when listeners keep subscribing new ones;
    [Unfinished] means that [fuel] steps did not suffice. *)
Fixpoint forEach (fuel index : nat) (b : Bus) : Outcome :=
  match fuel with
  | O => Unfinished b
  | S fuel' =>
      match nth_error (listeners b) index with
      | None => Returned b
      | Some None => forEach fuel' (S index) b
      | Some (Some l) =>
          match invoke l b with
          | Returned b' => forEach fuel' (S index) b'
          | Thrown b' => Thrown b'
          | Unfinished b' => Unfinished b'
          end
      end
  end.

Definition emitTransactionsChanged (fuel : nat) (b : Bus) : Outcome :=
  forEach fuel 0 b.
End Emit.

End TransactionsEvents.

(** ** [app/components/DonutChart.tsx] *)

Module DonutChart.
Import JS.

Record DonutChartProps : Type := {
  size : option Q;
  strokeWidth : option Q;
  progress : number
}.

Definition size_or_default (p : DonutChartProps) : Q := default 96%Q (size p).
Definition strokeWidth_or_default (p : DonutChartProps) : Q := default 10%Q (strokeWidth p).

Definition clamped (p : DonutChartProps) : number :=
  Math_max (Fin 0) (Math_min (Fin 1) (progress p)).

Definition radius (p : DonutChartProps) : Q :=
  ((size_or_default p - strokeWidth_or_default p) / 2)%Q.

Definition circumference (p : DonutChartProps) : Q :=
  (2 * Math_PI * radius p)%Q.

(** The first number of [strokeDasharray]: the length of the drawn arc. *)
Definition dash (p : DonutChartProps) : number :=
  mul (Fin (circumference p)) (clamped p).

(** [getProgressColor(pct)] *)
Definition getProgressColor (pct : number) : string :=
  if JS.le (Fin 100) pct then "#ef4444"
  else if JS.le (Fin 80) pct then "#fb923c"
  else if JS.le (Fin 50) pct then "#facc15"
  else "#22c55e".

(** [Number.isFinite(percent) ? percent : clamped * 100], the property
    [percent] being optional. *)
Definition percentValue (percent : option number) (p : DonutChartProps) : number :=
  match percent with
  | Some x => if Number_isFinite x then x else mul (clamped p) (Fin 100)
  | None => mul (clamped p) (Fin 100)
  end.

(** [progressColor ?? getProgressColor(percentValue)] *)
Definition strokeColor (progressColor : option string) (percent : option number)
    (p : DonutChartProps) : string :=
  match progressColor with
  | Some color => color
  | None => getProgressColor (percentValue percent p)
  end.

End DonutChart.

(** ** The two transaction write paths *)

Module Screens.
Import JS Sqlite Async Db.

Definition categories : list string := ["fun"; "groceries"; "boucherie"].

(** [`${value.getFullYear()}-${String(value.getMonth() + 1).padStart(2, '0')}-${String(value.getDate()).padStart(2, '0')}`] *)
Definition formatDate (value : Date) : string :=
  match value with
  | InvalidDate => "NaN-NaN-NaN"
  | LocalDate y m d =>
      String_of_int y ++ "-" ++ padStart2 (String_of_int (m + 1)) ++ "-"
        ++ padStart2 (String_of_int d)
  end.

(** The value a validated amount is bound with to a [REAL] parameter.
    Both write paths only reach the statement with a finite number. *)
Definition REAL_of_number (x : number) : Q :=
  match x with
  | Fin q => q
  | _ => 0%Q
  end.

(** [trimmedLabel === '' ? null : trimmedLabel] *)
Definition label_or_null (trimmedLabel : string) : option string :=
  if trimmedLabel =? "" then None else Some trimmedLabel.

(** Calls a handler makes to its collaborators outside the storage:
    [emitTransactionsChanged()], the [onSaved] property, [Alert.alert]. *)
Inductive Notice : Type :=
| EmitTransactionsChanged
| OnSaved
| Alert (title text : string).

Section Handlers.
(** [Number(s)]: the language's conversion of a string to a number. *)
Variable Number : string -> number.
(** [new Date()] at the time the handler runs. *)
Variable now : Date.

(** *** [TransactionForm] *)

(** The state of the form, the log [f_notices] of the calls it has made
    to its collaborators, and what such a call will end with:
    [f_throws n] is [None] when the call returns and [Some e] when it
    throws [e] (a subscribed listener that throws makes
    [emitTransactionsChanged] throw). *)
Record FormState : Type := {
  f_amount : string;
  f_category : string;
  f_label : string;
  f_transactionDate : Date;
  f_error : option string;
  f_success : option string;
  f_dbReady : bool;
  f_notices : list Notice;
  f_throws : Notice -> option Error
}.

Definition f_setError (e : option string) (s : FormState) : FormState :=
  {| f_amount := f_amount s; f_category := f_category s; f_label := f_label s;
     f_transactionDate := f_transactionDate s; f_error := e; f_success := f_success s;
     f_dbReady := f_dbReady s; f_notices := f_notices s; f_throws := f_throws s |}.

Definition f_setSuccess (m : option string) (s : FormState) : FormState :=
  {| f_amount := f_amount s; f_category := f_category s; f_label := f_label s;
     f_transactionDate := f_transactionDate s; f_error := f_error s; f_success := m;
     f_dbReady := f_dbReady s; f_notices := f_notices s; f_throws := f_throws s |}.

(** The five setters that follow the insert: the fields are reset and the
    success message is set. *)
Definition f_reset (s : FormState) : FormState :=
  {| f_amount := ""; f_category := hd "" categories; f_label := "";
     f_transactionDate := now; f_error := f_error s; f_success := Some "Saved.";
     f_dbReady := f_dbReady s; f_notices := f_notices s; f_throws := f_throws s |}.

(** A call to a collaborator from inside the [try] block, followed by the
    rest of the block: the call is logged; when it throws, the rest is
    skipped and the [catch] block sets its error. *)
Definition f_call (n : Notice) (rest : FormState -> FormState) (s : FormState) : FormState :=
  let called :=
    {| f_amount := f_amount s; f_category := f_category s; f_label := f_label s;
       f_transactionDate := f_transactionDate s; f_error := f_error s;
       f_success := f_success s; f_dbReady := f_dbReady s;
       f_notices := f_notices s ++ [n]; f_throws := f_throws s |} in
  match f_throws s n with
  | Some _ => f_setError (Some "Could not save the transaction.") called
  | None => rest called
  end.

(** The [try] block after the insert: the setters, then
    [emitTransactionsChanged()], then [onSaved?.()], which calls [onSaved]
    when the property was passed. *)
Definition f_saved (onSaved : bool) (s : FormState) : FormState :=
  f_call EmitTransactionsChanged
    (fun s1 => if onSaved then f_call OnSaved (fun s2 => s2) s1 else s1)
    (f_reset s).

Definition handleSubmit (onSaved : bool) (s0 : FormState) : Async.T FormState :=
  let s := f_setSuccess None (f_setError None s0) in
  let parsedAmount := Number (replace_comma_by_dot (f_amount s)) in
  if negb (Number_isFinite parsedAmount) || JS.le parsedAmount (Fin 0) then
    mret (f_setError (Some "Amount must be a number greater than 0.") s)
  else if negb (includes categories (f_category s)) then
    mret (f_setError (Some "Category must be selected from the list.") s)
  else if Date_time_isNaN (f_transactionDate s) then
    mret (f_setError (Some "Transaction date is required.") s)
  else if negb (f_dbReady s) then
    mret (f_setError (Some "Database is not ready.") s)
  else
    try_catch
      (let trimmedLabel := trim (f_label s) in
       let date := formatDate (f_transactionDate s) in
       _ ← insertTransaction (REAL_of_number parsedAmount) (f_category s)
             (label_or_null trimmedLabel) date;
       mret (f_saved onSaved s))
      (fun _ => mret (f_setError (Some "Could not save the transaction.") s)).

(** *** [ExpensesScreen] *)

Record ExpensesState : Type := {
  e_rows : list TransactionRow;
  e_error : option string;
  e_selectedIds : list Z;
  e_editing : bool;
  e_editAmount : string;
  e_editCategory : string;
  e_editLabel : string;
  e_editDate : Date;
  e_notices : list Notice
}.

Definition e_setError (e : option string) (s : ExpensesState) : ExpensesState :=
  {| e_rows := e_rows s; e_error := e; e_selectedIds := e_selectedIds s;
     e_editing := e_editing s; e_editAmount := e_editAmount s;
     e_editCategory := e_editCategory s; e_editLabel := e_editLabel s;
     e_editDate := e_editDate s; e_notices := e_notices s |}.

Definition e_setRows (rows : list TransactionRow) (s : ExpensesState) : ExpensesState :=
  {| e_rows := rows; e_error := e_error s; e_selectedIds := e_selectedIds s;
     e_editing := e_editing s; e_editAmount := e_editAmount s;
     e_editCategory := e_editCategory s; e_editLabel := e_editLabel s;
     e_editDate := e_editDate s; e_notices := e_notices s |}.

(** [err.message || 'Could not load transactions.'] *)
Definition message_or (e : Error) (fallback : string) : string :=
  if message e =? "" then fallback else message e.

Definition reloadTransactions (s0 : ExpensesState) : Async.T ExpensesState :=
  let s := e_setError None s0 in
  try_catch
    (_ ← initDb;
     results ← getTransactions;
     mret (e_setRows results s))
    (fun err => mret (e_setError (Some (message_or err "Could not load transactions.")) s)).

(** The state after a successful edit: selection cleared, modal closed,
    alert shown. *)
Definition e_updated (s : ExpensesState) : ExpensesState :=
  {| e_rows := e_rows s; e_error := e_error s; e_selectedIds := [];
     e_editing := false; e_editAmount := e_editAmount s;
     e_editCategory := e_editCategory s; e_editLabel := e_editLabel s;
     e_editDate := e_editDate s;
     e_notices := e_notices s ++ [Alert "Updated" "Transaction updated."] |}.

Definition handleEditSave (s0 : ExpensesState) : Async.T ExpensesState :=
  let s := e_setError None s0 in
  let ids := e_selectedIds s in
  if negb (List.length ids =? 1)%nat then
    mret (e_setError (Some "Select a single transaction to edit.") s)
  else
    let parsedAmount := Number (replace_comma_by_dot (e_editAmount s)) in
    if negb (Number_isFinite parsedAmount) || JS.le parsedAmount (Fin 0) then
      mret (e_setError (Some "Amount must be a number greater than 0.") s)
    else if negb (includes categories (e_editCategory s)) then
      mret (e_setError (Some "Category must be selected from the list.") s)
    else if Date_time_isNaN (e_editDate s) then
      mret (e_setError (Some "Transaction date is required.") s)
    else
      try_catch
        (let trimmedLabel := trim (e_editLabel s) in
         _ ← updateTransaction (hd 0%Z ids) (REAL_of_number parsedAmount)
               (e_editCategory s) (label_or_null trimmedLabel) (formatDate (e_editDate s));
         s' ← reloadTransactions s;
         mret (e_updated s'))
        (fun _ => mret (e_setError (Some "Could not update the transaction.") s)).

End Handlers.

(** [toggleSelection(id)]: the [Set] of selected ids, in insertion order. *)
Definition toggleSelection (id : Z) (prev : list Z) : list Z :=
  if existsb (Z.eqb id) prev
  then List.filter (fun i => negb (i =? id)%Z) prev
  else (prev ++ [id])%list.

Definition e_setSelectedIds (ids : list Z) (s : ExpensesState) : ExpensesState :=
  {| e_rows := e_rows s; e_error := e_error s; e_selectedIds := ids;
     e_editing := e_editing s; e_editAmount := e_editAmount s;
     e_editCategory := e_editCategory s; e_editLabel := e_editLabel s;
     e_editDate := e_editDate s; e_notices := e_notices s |}.

(** The state after a successful delete: selection cleared, alert shown. *)
Definition e_deleted (count : nat) (s : ExpensesState) : ExpensesState :=
  {| e_rows := e_rows s; e_error := e_error s; e_selectedIds := [];
     e_editing := e_editing s; e_editAmount := e_editAmount s;
     e_editCategory := e_editCategory s; e_editLabel := e_editLabel s;
     e_editDate := e_editDate s;
     e_notices := e_notices s
                    ++ [Alert "Deleted"
                          ("Deleted " ++ String_of_int (Z.of_nat count) ++ " transaction(s).")] |}.

Definition handleDelete (s : ExpensesState) : Async.T ExpensesState :=
  let ids := e_selectedIds s in
  if (List.length ids =? 0)%nat then mret s
  else
    try_catch
      (_ ← deleteTransactions ids;
       s' ← reloadTransactions s;
       mret (e_deleted (List.length ids) s'))
      (fun _ => mret (e_setError (Some "Could not delete transactions.") s)).

End Screens.

(** ** The budget screen *)

Module BudgetScreen.
Import JS Sqlite Async Db.

(** [new Date(year, monthIndex, 1)] in local time: months beyond 0..11
    carry into the year, and a year from 0 to 99 stands for 1900 + year.
    The bounds of the time values a [Date] can hold are not modelled. *)
Definition Date_first_of_month (year monthIndex : Z) : Date :=
  let year' := if (0 <=? year)%Z && (year <=? 99)%Z then (1900 + year)%Z else year in
  LocalDate (year' + monthIndex / 12) (monthIndex mod 12) 1.

Definition getMonthStartDate (date : Date) : Date :=
  match date with
  | InvalidDate => InvalidDate
  | LocalDate y m _ => Date_first_of_month y m
  end.

(** [`${date.getFullYear()}-${String(date.getMonth() + 1).padStart(2, '0')}`] *)
Definition formatMonthKey (date : Date) : string :=
  match date with
  | InvalidDate => "NaN-NaN"
  | LocalDate y m _ => String_of_int y ++ "-" ++ padStart2 (String_of_int (m + 1))
  end.

Definition formatMonthStart (date : Date) : string :=
  match date with
  | InvalidDate => "NaN-NaN-01"
  | LocalDate y m _ => String_of_int y ++ "-" ++ padStart2 (String_of_int (m + 1)) ++ "-01"
  end.

Definition formatMonthEnd (date : Date) : string :=
  let nextMonth := match date with
                   | InvalidDate => InvalidDate
                   | LocalDate y m _ => Date_first_of_month y (m + 1)
                   end in
  match nextMonth with
  | InvalidDate => "NaN-NaN-01"
  | LocalDate y m _ => String_of_int y ++ "-" ++ padStart2 (String_of_int (m + 1)) ++ "-01"
  end.

(** [for (let i = 0; i <= count; i += 1) months.push(new Date(y, m - i, 1))];
    [left] counts the iterations left and [i] is the loop variable. *)
Fixpoint getMonthsFromCurrent_loop (baseDate : Date) (i : Z) (left : nat) : list Date :=
  match left with
  | O => []
  | S left' =>
      match baseDate with
      | InvalidDate => InvalidDate
      | LocalDate y m _ => Date_first_of_month y (m - i)
      end :: getMonthsFromCurrent_loop baseDate (i + 1) left'
  end.

Definition getMonthsFromCurrent (baseDate : Date) (count : nat) : list Date :=
  getMonthsFromCurrent_loop baseDate 0 (S count).

(** The callback of [loadTotals] that turns the rows of
    [getMonthlyCategoryTotals] into the [totals] state: every category
    starts at 0 and a row is taken only if its category is [in] the
    object: one of them, or a name inherited from [Object.prototype]. *)
Definition nextTotals (totalRows : list TotalRow) : gmap string Q :=
  fold_left
    (fun acc row =>
       if Object_in (tr_category row) acc
       then Object_set (tr_category row) (total row) acc
       else acc)
    totalRows
    (<["boucherie" := 0%Q]> (<["groceries" := 0%Q]> (<["fun" := 0%Q]> ∅))).

Section Rounding.
(** The rounding that ends an arithmetic operation on doubles: [round q]
    is the double that the operation gives when its exact result is [q],
    an infinity when [q] is out of range. *)
Variable round : Q -> number.

(** [x * c] for a finite [c > 0]. *)
Definition times (x : number) (c : Q) : number :=
  match x with
  | Fin r => round (r * c)
  | _ => x
  end.

(** [expected > 0 ? (spent / expected) * 100 : 0] *)
Definition pct (spent expected : Q) : number :=
  if JS.lt (Fin 0) (Fin expected) then times (round (spent / expected)) 100 else Fin 0.

(** [expected > 0 ? Math.min(spent / expected, 1) : 0] *)
Definition progress (spent expected : Q) : number :=
  if JS.lt (Fin 0) (Fin expected) then Math_min (round (spent / expected)) (Fin 1) else Fin 0.

(** The properties of the [DonutChart] drawn for a category. *)
Definition donut (spent expected : Q) : DonutChart.DonutChartProps :=
  {| DonutChart.size := None; DonutChart.strokeWidth := None;
     DonutChart.progress := progress spent expected |}.

Definition donut_color (spent expected : Q) : string :=
  DonutChart.strokeColor None (Some (pct spent expected)) (donut spent expected).

End Rounding.

Section Handlers.
(** [Number(s)]: the language's conversion of a string to a number. *)
Variable Number : string -> number.

Record State : Type := {
  selectedMonth : Date;
  editingCategory : option string;
  editingAmount : string;
  budgetError : option string;
  error : option string;
  notices : list Screens.Notice;
  loads : nat
}.

Definition setBudgetError (e : option string) (s : State) : State :=
  {| selectedMonth := selectedMonth s; editingCategory := editingCategory s;
     editingAmount := editingAmount s; budgetError := e; error := error s;
     notices := notices s; loads := loads s |}.

Definition setError (e : option string) (s : State) : State :=
  {| selectedMonth := selectedMonth s; editingCategory := editingCategory s;
     editingAmount := editingAmount s; budgetError := budgetError s; error := e;
     notices := notices s; loads := loads s |}.

(** [loadTotals()] is called and not waited for: what it returns is its
    cleanup function, not a promise.  The call clears [error] before it
    starts the queries; [loads] counts the loads started. *)
Definition startLoadTotals (s : State) : State :=
  {| selectedMonth := selectedMonth s; editingCategory := editingCategory s;
     editingAmount := editingAmount s; budgetError := budgetError s; error := None;
     notices := notices s; loads := S (loads s) |}.

Definition closeBudgetEditor (s : State) : State :=
  {| selectedMonth := selectedMonth s; editingCategory := None;
     editingAmount := editingAmount s; budgetError := None; error := error s;
     notices := notices s; loads := loads s |}.

Definition alert (title text : string) (s : State) : State :=
  {| selectedMonth := selectedMonth s; editingCategory := editingCategory s;
     editingAmount := editingAmount s; budgetError := budgetError s; error := error s;
     notices := (notices s ++ [Screens.Alert title text])%list; loads := loads s |}.

(** [!editingCategory]: [null] and the empty string are falsy. *)
Definition no_editingCategory (s : State) : bool :=
  match editingCategory s with
  | None => true
  | Some category => category =? ""
  end.

Definition handleBudgetSave (s : State) : Async.T State :=
  if no_editingCategory s then mret s
  else
    let parsedAmount := Number (replace_comma_by_dot (editingAmount s)) in
    if negb (Number_isFinite parsedAmount) || JS.lt parsedAmount (Fin 0) then
      mret (setBudgetError (Some "Enter a valid amount (0 or more).") s)
    else
      try_catch
        (let monthKey := formatMonthKey (selectedMonth s) in
         _ ← upsertBudget monthKey (default "" (editingCategory s))
               (Screens.REAL_of_number parsedAmount);
         mret (alert "Budget updated" "Budget updated."
                 (closeBudgetEditor (startLoadTotals s))))
        (fun _ => mret (setError (Some "Could not update budget.") s)).

Definition handleBudgetReset (category : string) (s : State) : Async.T State :=
  let monthKey := formatMonthKey (selectedMonth s) in
  try_catch
    (_ ← deleteBudgetForMonth monthKey category;
     mret (alert "Budget reset" "Budget reset for this month." (startLoadTotals s)))
    (fun _ => mret (setError (Some "Could not reset budget.") s)).

(** [isSaveDisabled] *)
Definition isSaveDisabled (s : State) : bool :=
  let parsedEditingAmount := Number (replace_comma_by_dot (editingAmount s)) in
  (trim (editingAmount s) =? "") || negb (Number_isFinite parsedEditingAmount)
  || JS.lt parsedEditingAmount (Fin 0).

End Handlers.

End BudgetScreen.

(** ** Vocabulary of the specification *)

Module Spec.
Import Sqlite.

(** [b] is a Budget row of [bs] for category [c] at or before month [M],
    and no such row has a later month: the row "carried forward". *)
Definition latest_at_or_before (M c : string) (bs : list BudgetRow) (b : BudgetRow) : Prop :=
  In b bs /\ bg_category b = c /\ String.leb (bg_month b) M = true /\
  forall b', In b' bs -> bg_category b' = c -> String.leb (bg_month b') M = true ->
             String.leb (bg_month b') (bg_month b) = true.

(** There is a Budget row keyed exactly [(M, c)], and its amount is [v]. *)
Definition exact_row (M c : string) (bs : list BudgetRow) (v : Q) : Prop :=
  exists b, In b bs /\ bg_month b = M /\ bg_category b = c /\ bg_amount b = v.

Definition no_exact_row (M c : string) (bs : list BudgetRow) : Prop :=
  forall b, In b bs -> bg_category b = c -> bg_month b <> M.

Definition no_row_at_or_before (M c : string) (bs : list BudgetRow) : Prop :=
  forall b, In b bs -> bg_category b = c -> String.leb (bg_month b) M = false.

(** The transactions of category [c] dated in [[monthStart, monthEnd)],
    in table order. *)
Definition in_month (monthStart monthEnd c : string) (ts : list TransactionRow)
    : list TransactionRow :=
  List.filter
    (fun t => (category t =? c) && String.leb monthStart (date t)
              && negb (String.leb monthEnd (date t)))
    ts.

(** The sum of a list of amounts, first to last. *)
Definition sum_amounts (ts : list TransactionRow) : Q :=
  fold_left (fun acc t => (acc + amount t)%Q) ts 0%Q.

(** What the resolver reports for one category. *)
Record Resolution : Type := { r_amount : Q; r_exact : bool }.

Definition resolution_of (r : Db.FallbackStatus) (c : string) : option Resolution :=
  match Db.amounts r !! c, Db.exact r !! c with
  | Some a, Some e => Some {| r_amount := a; r_exact := e |}
  | _, _ => None
  end.

(** A listener that leaves the subscriptions of the others alone: all it
    may do to the bus is unsubscribe itself. *)
Definition quiet (callback : TransactionsEvents.Listener -> list TransactionsEvents.Action)
    (l : TransactionsEvents.Listener) : Prop :=
  forall a, In a (callback l) -> a = TransactionsEvents.Unsubscribe l.

(** A listener that does not throw and unsubscribes no listener but
    itself; it may subscribe listeners. *)
Definition keeps_to_itself
    (callback : TransactionsEvents.Listener -> list TransactionsEvents.Action)
    (l : TransactionsEvents.Listener) : Prop :=
  forall a, In a (callback l) ->
    a = TransactionsEvents.Unsubscribe l \/ exists x, a = TransactionsEvents.Subscribe x.

(** The listeners that a callback subscribes, in the order of the calls. *)
Fixpoint subscribed (actions : list TransactionsEvents.Action)
    : list TransactionsEvents.Listener :=
  match actions with
  | [] => []
  | TransactionsEvents.Subscribe x :: rest => x :: subscribed rest
  | _ :: rest => subscribed rest
  end.

(** The ids of the transactions table are pairwise distinct and none
    exceeds the AUTOINCREMENT counter. *)
Definition transactions_wf (d : Sqlite.Database) : Prop :=
  List.NoDup (List.map Sqlite.id (Sqlite.transactions d)) /\
  forall t, In t (Sqlite.transactions d) -> (Sqlite.id t <= Sqlite.transactions_seq d)%Z.

(** The rows read by the exact lookup and by the fallback lookup of the
    resolver for category [c] and month [M]. *)
Definition selects_exact (c M : string) (b : BudgetRow) : bool :=
  (bg_category b =? c) && (bg_month b =? M).

Definition selects_fallback (c M : string) (b : BudgetRow) : bool :=
  (bg_category b =? c) && String.leb (bg_month b) M.

(** The key [(M, c)] is outside of what resolution for [(M', c')] reads:
    another category, or an earlier month. *)
Definition out_of_reach (M c M' c' : string) : Prop :=
  c' <> c \/ String.ltb M' M = true.

(** A calendar day whose year is written with four digits. *)
Definition four_digit_day (y m d : Z) : Prop :=
  (1000 <= y <= 9999)%Z /\ (0 <= m <= 11)%Z /\ (1 <= d <= 31)%Z.

(** Calendar order of [(year, month, day)]. *)
Definition compare_ymd (y1 m1 d1 y2 m2 d2 : Z) : comparison :=
  match (y1 ?= y2)%Z with
  | Eq => match (m1 ?= m2)%Z with
          | Eq => (d1 ?= d2)%Z
          | r => r
          end
  | r => r
  end.

Definition same_comparison (c1 c2 : comparison) : bool :=
  match c1, c2 with
  | Eq, Eq | Lt, Lt | Gt, Gt => true
  | _, _ => false
  end.

(** What is used of the rounding of doubles: it never reverses an order
    (so that it never gives NaN), and it leaves 0, 1/2, 1, 50 and 100,
    which are doubles, as they are. *)
Definition rounding (round : Q -> JS.number) : Prop :=
  (forall a b : Q, (a <= b)%Q -> JS.le (round a) (round b) = true) /\
  (forall q : Q, In q [0; 1 # 2; 1; 50; 100]%Q -> round q = JS.Fin q).

(** [m] never changes the tables, however it settles. *)
Definition read_only {A} (m : Async.T A) : Prop :=
  forall w r w', m w = (r, w') -> Async.db w' = Async.db w.

(** When [m] rejects, the tables are as they were before the call. *)
Definition all_or_nothing {A} (m : Async.T A) : Prop :=
  forall w e w', m w = (Async.Rejected e, w') -> Async.db w' = Async.db w.

(** The number of driver calls the resolver makes for a list of
    categories: one for a category that has a row for the month, two for
    any other. *)
Definition lookups (M : string) (d : Sqlite.Database) (categories : list string) : nat :=
  list_sum (List.map (fun c => match Sqlite.select_budget_exact c M d with
                               | Some _ => 1%nat
                               | None => 2%nat
                               end) categories).

(** The returned maps have an entry for [c]. *)
Definition has_entry (r : Db.FallbackStatus) (c : string) : Prop :=
  is_Some (Db.amounts r !! c) /\ is_Some (Db.exact r !! c).

End Spec.

(** ** A small database used to exercise the statements *)

Module Fixture.
Import JS Sqlite Async.

Definition budget_rows : list BudgetRow :=
  [ {| bg_id := 1; bg_month := "2024-01"; bg_category := "fun"; bg_amount := 50 |};
    {| bg_id := 2; bg_month := "2024-03"; bg_category := "groceries"; bg_amount := 200 |};
    {| bg_id := 3; bg_month := "2024-06"; bg_category := "fun"; bg_amount := 80 |} ].

Definition transaction_rows : list TransactionRow :=
  [ {| id := 1; amount := 12; category := "fun"; label := None; date := "2024-05-31" |};
    {| id := 2; amount := 7; category := "fun"; label := Some "cinema"; date := "2024-06-01" |};
    {| id := 3; amount := 30; category := "groceries"; label := None; date := "2024-06-15" |};
    {| id := 4; amount := 5; category := "fun"; label := None; date := "2024-06-30" |};
    {| id := 5; amount := 9; category := "boucherie"; label := None; date := "2024-07-01" |} ].

Definition database : Database :=
  {| transactions := transaction_rows; transactions_seq := 5;
     budgets := budget_rows; budgets_seq := 3 |}.

Definition world : World :=
  {| platform_web := false; dbPromise := None; db := database; faults := []; trace := [] |}.

(** The same database behind a driver whose second call will fail. *)
Definition faulty_world : World :=
  {| platform_web := false; dbPromise := Some (Fulfilled tt); db := database;
     faults := [None; Some (mkError "disk I/O error")]; trace := [] |}.

(** The same database, open, behind a driver whose third call will fail. *)
Definition late_fault_world : World :=
  {| platform_web := false; dbPromise := Some (Fulfilled tt); db := database;
     faults := [None; None; Some (mkError "disk I/O error")]; trace := [] |}.

(** The same database on the web platform, where no storage call works. *)
Definition web_world : World :=
  {| platform_web := true; dbPromise := None; db := database; faults := []; trace := [] |}.

(** A world in which the first attempt to open the database has failed;
    the driver would work now. *)
Definition broken_world : World :=
  {| platform_web := false; dbPromise := Some (Rejected (mkError "unable to open database file"));
     db := database; faults := []; trace := ["openDatabaseAsync spending.db"] |}.

(** A world in which the database has never been opened and the driver
    will fail the next call. *)
Definition unopened_world : World :=
  {| platform_web := false; dbPromise := None; db := database;
     faults := [Some (mkError "unable to open database file")]; trace := [] |}.

(** A stand-in for [Number] on the inputs used below. *)
Definition Number (s : string) : number :=
  if s =? "12.5" then Fin (25 # 2)
  else if s =? "-3" then Fin (-3)
  else if s =? "Infinity" then PosInfinity
  else NaN.

Definition now : Date := LocalDate 2024 5 20.

Definition form (amount : string) : Screens.FormState :=
  {| Screens.f_amount := amount; Screens.f_category := "fun";
     Screens.f_label := " cinema "; Screens.f_transactionDate := LocalDate 2024 5 4;
     Screens.f_error := None; Screens.f_success := Some "Saved.";
     Screens.f_dbReady := true; Screens.f_notices := [];
     Screens.f_throws := fun _ => None |}.

(** The same form when a subscribed listener throws. *)
Definition form_with_throwing_listener (amount : string) : Screens.FormState :=
  {| Screens.f_amount := amount; Screens.f_category := "fun";
     Screens.f_label := " cinema "; Screens.f_transactionDate := LocalDate 2024 5 4;
     Screens.f_error := None; Screens.f_success := None;
     Screens.f_dbReady := true; Screens.f_notices := [];
     Screens.f_throws := fun n => match n with
                                  | Screens.EmitTransactionsChanged =>
                                      Some (mkError "listener failed")
                                  | _ => None
                                  end |}.

Definition edit (amount : string) : Screens.ExpensesState :=
  {| Screens.e_rows := transaction_rows; Screens.e_error := None;
     Screens.e_selectedIds := [2%Z]; Screens.e_editing := true;
     Screens.e_editAmount := amount; Screens.e_editCategory := "fun";
     Screens.e_editLabel := ""; Screens.e_editDate := InvalidDate;
     Screens.e_notices := [] |}.

(** The expenses screen with some rows selected and the edit fields filled. *)
Definition expenses (ids : list Z) (amount : string) (d : Date) : Screens.ExpensesState :=
  {| Screens.e_rows := []; Screens.e_error := Some "Could not load transactions.";
     Screens.e_selectedIds := ids; Screens.e_editing := true;
     Screens.e_editAmount := amount; Screens.e_editCategory := "groceries";
     Screens.e_editLabel := "  market "; Screens.e_editDate := d;
     Screens.e_notices := [] |}.

(** A rounding to the nearest multiple of 1/1024, halves upwards. *)
Definition round (q : Q) : number :=
  Fin (Qred (Qfloor (q * 1024 + (1 # 2)) # 1024)).

(** The budget screen on June 2024 with the editor open on groceries. *)
Definition budget_editor (amount : string) : BudgetScreen.State :=
  {| BudgetScreen.selectedMonth := LocalDate 2024 5 1;
     BudgetScreen.editingCategory := Some "groceries";
     BudgetScreen.editingAmount := amount;
     BudgetScreen.budgetError := None; BudgetScreen.error := Some "Could not load totals.";
     BudgetScreen.notices := []; BudgetScreen.loads := 1 |}.

(** A bus with two subscribers.  When called, listener 0 subscribes
    listener 1; listeners 1 and 2 do nothing to the bus. *)
Definition callback (l : TransactionsEvents.Listener) : list TransactionsEvents.Action :=
  match l with
  | O => [TransactionsEvents.Subscribe 1]
  | _ => []
  end.

(** The same, but listener 0 calls the unsubscribe function of listener 2. *)
Definition callback_unsubscribing (l : TransactionsEvents.Listener)
    : list TransactionsEvents.Action :=
  match l with
  | O => [TransactionsEvents.Unsubscribe 2]
  | _ => []
  end.

(** The same, but listener 0 throws. *)
Definition callback_throwing (l : TransactionsEvents.Listener)
    : list TransactionsEvents.Action :=
  match l with
  | O => [TransactionsEvents.Throw]
  | _ => []
  end.

Definition bus : TransactionsEvents.Bus :=
  TransactionsEvents.subscribeTransactionsChanged 2
    (TransactionsEvents.subscribeTransactionsChanged 0
       {| TransactionsEvents.listeners := []; TransactionsEvents.calls := [] |}).

End Fixture.

(** * Properties *)

Import JS Sqlite Async Db.

(** ** Strings in byte order *)

Lemma ascii_compare_refl (a : ascii) : Ascii.compare a a = Eq.
Proof. unfold Ascii.compare. apply N.compare_refl. Qed.

Lemma string_compare_refl (s : string) : String.compare s s = Eq.
Proof.
  induction s as [|a s IH]; simpl; [reflexivity|].
  now rewrite ascii_compare_refl.
Qed.

Lemma string_leb_refl (s : string) : String.leb s s = true.
Proof. unfold String.leb. now rewrite string_compare_refl. Qed.

Lemma string_ltb_negb_leb (a b : string) : String.ltb a b = negb (String.leb b a).
Proof.
  unfold String.ltb, String.leb. rewrite (String.compare_antisym b a).
  now destruct (String.compare a b).
Qed.

Lemma ascii_compare_lt_trans (a b c : ascii) :
  Ascii.compare a b = Lt -> Ascii.compare b c = Lt -> Ascii.compare a c = Lt.
Proof.
  unfold Ascii.compare. rewrite !N.compare_lt_iff. lia.
Qed.

Lemma string_compare_le_trans (a b c : string) :
  String.compare a b <> Gt -> String.compare b c <> Gt -> String.compare a c <> Gt.
Proof.
  revert b c. induction a as [|x a IH]; intros [|y b] [|z c]; simpl; try congruence.
  destruct (Ascii.compare x y) eqn:Hxy; try congruence.
  - apply Ascii.compare_eq_iff in Hxy. subst y.
    destruct (Ascii.compare x z) eqn:Hxz; try congruence. apply IH.
  - destruct (Ascii.compare y z) eqn:Hyz; try congruence.
    + apply Ascii.compare_eq_iff in Hyz. subst z. rewrite Hxy. congruence.
    + rewrite (ascii_compare_lt_trans _ _ _ Hxy Hyz). congruence.
Qed.

Lemma string_leb_trans (a b c : string) :
  String.leb a b = true -> String.leb b c = true -> String.leb a c = true.
Proof.
  unfold String.leb. intros Hab Hbc.
  pose proof (string_compare_le_trans a b c) as H.
  destruct (String.compare a b), (String.compare b c), (String.compare a c);
    try reflexivity; try discriminate; exfalso; apply H; congruence.
Qed.

(** ** The storage driver in a healthy world *)

Lemma bind_run {A B} (m : Async.T A) (k : A -> Async.T B) (w : World) :
  (m ≫= k) w = match m w with
               | (Fulfilled a, w') => k a w'
               | (Rejected e, w') => (Rejected e, w')
               end.
Proof. reflexivity. Qed.

Lemma healthy_faults_tail (f : option Error) (fs : list (option Error)) :
  Forall (fun f => f = None) (f :: fs) -> f = None /\ Forall (fun f => f = None) fs.
Proof. intros H. inversion H; subst. auto. Qed.

Lemma call_fulfils {A} (sql : string) (read : Database -> A) (write : Database -> Database)
    (w : World) :
  healthy w -> fulfils (call sql read write) w (read (db w)) (write (db w)).
Proof.
  intros (Hweb & Hp & Hf). unfold fulfils, call, pop_fault.
  destruct (faults w) as [|f fs] eqn:E.
  - eexists. split; [reflexivity|]. split; [|reflexivity].
    repeat split; simpl; auto.
  - apply healthy_faults_tail in Hf as [-> Hfs].
    eexists. split; [reflexivity|]. split; [|reflexivity].
    repeat split; simpl; auto.
Qed.

Lemma getDb_fulfils (w : World) : healthy w -> fulfils getDb w tt (db w).
Proof.
  intros (Hweb & Hp & Hf). unfold fulfils, getDb. rewrite Hweb.
  destruct (dbPromise w) as [p|] eqn:Ep.
  - rewrite Ep. destruct p as [[]|e].
    + exists w. split; [reflexivity|]. split; [|reflexivity].
      split; [assumption|]. split; [|assumption]. now rewrite Ep.
    + exfalso. apply (Hp e). reflexivity.
  - unfold openDatabaseAsync, pop_fault.
    destruct (faults w) as [|f fs] eqn:E; simpl.
    + eexists. split; [reflexivity|]. split; [|reflexivity].
      repeat split; simpl; auto; discriminate.
    + apply healthy_faults_tail in Hf as [-> Hfs]. simpl.
      eexists. split; [reflexivity|]. split; [|reflexivity].
      repeat split; simpl; auto; discriminate.
Qed.

Lemma bind_fulfils {A B} (m : Async.T A) (k : A -> Async.T B) (w : World) a d b d' :
  fulfils m w a d ->
  (forall w', healthy w' -> db w' = d -> fulfils (k a) w' b d') ->
  fulfils (m ≫= k) w b d'.
Proof.
  intros (w1 & Hm & Hh & Hd) Hk. destruct (Hk w1 Hh Hd) as (w2 & Hk2 & Hh2 & Hd2).
  exists w2. rewrite bind_run, Hm. auto.
Qed.

Lemma ret_fulfils {A} (a : A) (w : World) : healthy w -> fulfils (mret a) w a (db w).
Proof. intros H. exists w. auto. Qed.

(** ** Assignment to a property *)

Lemma Object_set_lookup_eq {A} (c : string) (v : A) (o : gmap string A) :
  c <> "__proto__" -> Object_set c v o !! c = Some v.
Proof.
  intros H. unfold Object_set. apply String.eqb_neq in H. rewrite H. apply lookup_insert_eq.
Qed.

Lemma Object_set_lookup_ne {A} (k c : string) (v : A) (o : gmap string A) :
  k <> c -> Object_set k v o !! c = o !! c.
Proof.
  intros H. unfold Object_set. destruct (k =? "__proto__"); [reflexivity|].
  now apply lookup_insert_ne.
Qed.

Lemma Object_set_proto {A} (v : A) (o : gmap string A) : Object_set "__proto__" v o = o.
Proof. reflexivity. Qed.

Lemma Object_set_keeps {A} (k c : string) (v : A) (o : gmap string A) :
  is_Some (o !! c) -> is_Some (Object_set k v o !! c).
Proof.
  intros H. unfold Object_set. destruct (k =? "__proto__"); [exact H|].
  rewrite lookup_insert_is_Some. destruct (decide (k = c)); auto.
Qed.


(** ** Budget lookups on the table *)

Lemma at_key_true (M c : string) (b : BudgetRow) :
  at_key M c b = true <-> bg_month b = M /\ bg_category b = c.
Proof.
  unfold at_key. rewrite andb_true_iff, !String.eqb_eq. reflexivity.
Qed.

Lemma exact_filter_at_key (M c : string) (bs : list BudgetRow) :
  List.filter (fun b => (bg_category b =? c) && (bg_month b =? M)) bs
  = List.filter (at_key M c) bs.
Proof.
  apply List.filter_ext. intros b. unfold at_key. apply andb_comm.
Qed.

Lemma unique_same_key (bs : list BudgetRow) (b1 b2 : BudgetRow) :
  budgets_unique bs -> In b1 bs -> In b2 bs ->
  bg_month b1 = bg_month b2 -> bg_category b1 = bg_category b2 -> b1 = b2.
Proof.
  unfold budgets_unique. intros Hu H1 H2 Hm Hc.
  assert (Hk : budget_key b1 = budget_key b2) by (unfold budget_key; congruence).
  clear Hm Hc. induction bs as [|b bs IH]; [destruct H1|].
  simpl in Hu. inversion Hu as [|? ? Hnot Hrest]; subst.
  destruct H1 as [->|H1], H2 as [->|H2]; auto.
  - exfalso. apply Hnot. rewrite Hk. now apply List.in_map.
  - exfalso. apply Hnot. rewrite <- Hk. now apply List.in_map.
Qed.

Lemma select_budget_exact_found (M c : string) (d : Database) (v : Q) :
  budgets_unique (budgets d) -> Spec.exact_row M c (budgets d) v ->
  select_budget_exact c M d = Some {| ar_amount := v |}.
Proof.
  intros Hu (b & Hin & Hm & Hc & Hv). unfold select_budget_exact.
  rewrite exact_filter_at_key.
  assert (F : In b (List.filter (at_key M c) (budgets d))).
  { apply List.filter_In. split; [assumption|]. now apply at_key_true. }
  destruct (List.filter (at_key M c) (budgets d)) as [|x l] eqn:E; [destruct F|].
  assert (Fx : In x (List.filter (at_key M c) (budgets d))) by (rewrite E; now left).
  apply List.filter_In in Fx as [Hx Hk]. apply at_key_true in Hk as [Hxm Hxc].
  assert (x = b) as -> by (apply (unique_same_key (budgets d)); congruence).
  simpl. unfold project_amount. now rewrite Hv.
Qed.

Lemma select_budget_exact_Some (M c : string) (d : Database) (r : AmountRow) :
  select_budget_exact c M d = Some r -> Spec.exact_row M c (budgets d) (ar_amount r).
Proof.
  unfold select_budget_exact. rewrite exact_filter_at_key.
  destruct (List.filter (at_key M c) (budgets d)) as [|x l] eqn:E; simpl; [discriminate|].
  intros [= <-].
  assert (F : In x (List.filter (at_key M c) (budgets d))) by (rewrite E; now left).
  apply List.filter_In in F as [Hin Hk]. apply at_key_true in Hk as [Hm Hc].
  exists x. auto.
Qed.

Lemma select_budget_exact_None (M c : string) (d : Database) :
  select_budget_exact c M d = None <-> Spec.no_exact_row M c (budgets d).
Proof.
  unfold select_budget_exact, Spec.no_exact_row. rewrite exact_filter_at_key. split.
  - intros H b Hin Hc Hm.
    assert (F : In b (List.filter (at_key M c) (budgets d))).
    { apply List.filter_In. split; [assumption|]. now apply at_key_true. }
    destruct (List.filter (at_key M c) (budgets d)); [destruct F | discriminate].
  - intros H.
    destruct (List.filter (at_key M c) (budgets d)) as [|x l] eqn:E; [reflexivity|].
    assert (F : In x (List.filter (at_key M c) (budgets d))) by (rewrite E; now left).
    apply List.filter_In in F as [Hin Hk]. apply at_key_true in Hk as [Hm Hc].
    exfalso. exact (H x Hin Hc Hm).
Qed.

(** The first row of [ORDER BY month DESC] has the greatest month. *)
Lemma order_by_month_desc_head (l : list BudgetRow) :
  match order_by (fun x y => String.leb (bg_month y) (bg_month x)) l with
  | [] => l = []
  | m :: _ => In m l /\ forall x, In x l -> String.leb (bg_month x) (bg_month m) = true
  end.
Proof.
  induction l as [|b l IH]; simpl; [reflexivity|].
  destruct (order_by _ l) as [|m rest] eqn:E; simpl.
  - subst l. split; [now left|]. intros x [<-|[]]. apply string_leb_refl.
  - destruct IH as [Hm Hmax].
    destruct (String.leb (bg_month m) (bg_month b)) eqn:Hcmp.
    + split; [now left|]. intros x [<-|Hx]; [apply string_leb_refl|].
      eapply string_leb_trans; [apply Hmax, Hx | exact Hcmp].
    + split; [now right|]. intros x [<-|Hx]; [|now apply Hmax].
      destruct (String.leb_total (bg_month b) (bg_month m)) as [H|H]; congruence.
Qed.

Lemma fallback_filter_In (M c : string) (bs : list BudgetRow) (b : BudgetRow) :
  In b (List.filter (fun b => (bg_category b =? c) && String.leb (bg_month b) M) bs)
  <-> In b bs /\ bg_category b = c /\ String.leb (bg_month b) M = true.
Proof.
  rewrite List.filter_In, andb_true_iff, String.eqb_eq. reflexivity.
Qed.

Lemma select_budget_fallback_latest (M c : string) (d : Database) (b : BudgetRow) :
  budgets_unique (budgets d) -> Spec.latest_at_or_before M c (budgets d) b ->
  select_budget_fallback c M d = Some {| ar_amount := bg_amount b |}.
Proof.
  intros Hu (Hin & Hc & Hle & Hmax). unfold select_budget_fallback.
  pose proof (order_by_month_desc_head
    (List.filter (fun b => (bg_category b =? c) && String.leb (bg_month b) M) (budgets d))) as H.
  destruct (order_by _ _) as [|m rest].
  - assert (F : In b (List.filter (fun b => (bg_category b =? c) && String.leb (bg_month b) M)
                        (budgets d))) by (apply fallback_filter_In; auto).
    rewrite H in F. destruct F.
  - destruct H as [Hm Hall]. apply fallback_filter_In in Hm as (Hmin & Hmc & Hmle).
    assert (m = b) as ->.
    { apply (unique_same_key (budgets d)); auto; [|congruence].
      apply String.leb_antisym; [now apply Hmax|].
      apply Hall, fallback_filter_In. auto. }
    reflexivity.
Qed.

Lemma select_budget_fallback_Some (M c : string) (d : Database) (r : AmountRow) :
  select_budget_fallback c M d = Some r ->
  exists b, Spec.latest_at_or_before M c (budgets d) b /\ ar_amount r = bg_amount b.
Proof.
  unfold select_budget_fallback.
  pose proof (order_by_month_desc_head
    (List.filter (fun b => (bg_category b =? c) && String.leb (bg_month b) M) (budgets d))) as H.
  destruct (order_by _ _) as [|m rest]; simpl; [discriminate|].
  intros [= <-]. destruct H as [Hm Hall].
  apply fallback_filter_In in Hm as (Hmin & Hmc & Hmle).
  exists m. split; [|reflexivity]. repeat split; auto.
  intros b' Hb' Hc' Hle'. apply Hall, fallback_filter_In. auto.
Qed.

Lemma select_budget_fallback_None (M c : string) (d : Database) :
  select_budget_fallback c M d = None <-> Spec.no_row_at_or_before M c (budgets d).
Proof.
  unfold select_budget_fallback, Spec.no_row_at_or_before.
  pose proof (order_by_month_desc_head
    (List.filter (fun b => (bg_category b =? c) && String.leb (bg_month b) M) (budgets d))) as H.
  split.
  - intros Hn b Hin Hc. destruct (order_by _ _) as [|m rest]; [|discriminate].
    destruct (String.leb (bg_month b) M) eqn:Hle; [|reflexivity].
    assert (F : In b (List.filter (fun b => (bg_category b =? c) && String.leb (bg_month b) M)
                        (budgets d))) by (apply fallback_filter_In; auto).
    rewrite H in F. destruct F.
  - intros Hn. destruct (order_by _ _) as [|m rest]; [reflexivity|].
    destruct H as [Hm _]. apply fallback_filter_In in Hm as (Hmin & Hmc & Hmle).
    rewrite (Hn m Hmin Hmc) in Hmle. discriminate.
Qed.

(** ** The resolver loops *)

Lemma for_of_fulfils {A S} (xs : list A) (body : A -> S -> Async.T S) (step : S -> A -> S)
    (d : Database) :
  (forall x s w, healthy w -> db w = d -> fulfils (body x s) w (step s x) d) ->
  forall s w, healthy w -> db w = d -> fulfils (for_of xs body s) w (fold_left step xs s) d.
Proof.
  intros Hbody. induction xs as [|x xs IH]; intros s w Hw Hd; simpl.
  - subst d. now apply (ret_fulfils s w).
  - apply (bind_fulfils (body x s) (for_of xs body) w (step s x) d).
    + now apply Hbody.
    + intros w' Hw' Hd'. now apply IH.
Qed.

Lemma status_body_fulfils (M c : string) (acc : FallbackStatus) (w : World) :
  healthy w ->
  fulfils (getMonthlyBudgetsWithFallbackStatus_body M c acc) w
    (resolve_step M (db w) acc c) (db w).
Proof.
  intros Hw. unfold getMonthlyBudgetsWithFallbackStatus_body.
  eapply bind_fulfils; [apply call_fulfils, Hw|].
  intros w1 Hw1 Hd1. unfold resolve_step.
  destruct (select_budget_exact c M (db w)) as [r|] eqn:E; simpl.
  - rewrite <- Hd1. now apply ret_fulfils.
  - eapply bind_fulfils; [apply call_fulfils, Hw1|].
    intros w2 Hw2 Hd2. rewrite Hd1 in Hd2. rewrite Hd1, <- Hd2. now apply ret_fulfils.
Qed.

Lemma status_fulfils (M : string) (cats : list string) (w : World) :
  healthy w ->
  fulfils (getMonthlyBudgetsWithFallbackStatus M cats) w
    (fold_left (resolve_step M (db w)) cats {| amounts := ∅; exact := ∅ |}) (db w).
Proof.
  intros Hw. unfold getMonthlyBudgetsWithFallbackStatus.
  eapply bind_fulfils; [apply getDb_fulfils, Hw|].
  intros w1 Hw1 Hd1. apply for_of_fulfils; auto.
  intros x s w2 Hw2 Hd2. rewrite <- Hd2. now apply status_body_fulfils.
Qed.

Lemma fallback_fulfils (M : string) (cats : list string) (w : World) :
  healthy w ->
  fulfils (getMonthlyBudgetsWithFallback M cats) w
    (fold_left (fallback_step M (db w)) cats ∅) (db w).
Proof.
  intros Hw. unfold getMonthlyBudgetsWithFallback.
  eapply bind_fulfils; [apply getDb_fulfils, Hw|].
  intros w1 Hw1 Hd1. apply for_of_fulfils; auto.
  intros x s w2 Hw2 Hd2.
  eapply bind_fulfils; [apply call_fulfils, Hw2|].
  intros w3 Hw3 Hd3. unfold fallback_step. rewrite Hd2 in *.
  exists w3. split; [reflexivity|]. split; assumption.
Qed.

Lemma resolve_step_other (M x c : string) (d : Database) (acc : FallbackStatus) :
  x <> c \/ x = "__proto__" ->
  Spec.resolution_of (resolve_step M d acc x) c = Spec.resolution_of acc c.
Proof.
  intros H. unfold Spec.resolution_of, resolve_step.
  destruct H as [Hne| ->].
  - destruct (select_budget_exact x M d); simpl;
      now rewrite !Object_set_lookup_ne by assumption.
  - destruct (select_budget_exact "__proto__" M d); reflexivity.
Qed.

Lemma resolve_step_resolution (M c : string) (d : Database) (acc : FallbackStatus) :
  c <> "__proto__" ->
  Spec.resolution_of (resolve_step M d acc c) c
  = Some match select_budget_exact c M d with
         | Some r => {| Spec.r_amount := ar_amount r; Spec.r_exact := true |}
         | None => {| Spec.r_amount := amount_or_zero (select_budget_fallback c M d);
                      Spec.r_exact := false |}
         end.
Proof.
  intros H. unfold Spec.resolution_of, resolve_step.
  destruct (select_budget_exact c M d); simpl; now rewrite !Object_set_lookup_eq.
Qed.

(** The entry of a requested category after the loop is the one its own
    iteration wrote: a later iteration for another category leaves it, and
    one for the same category writes the same value again. *)
Lemma resolve_fold_lookup (M : string) (d : Database) (cats : list string) (c : string)
    (acc : FallbackStatus) :
  Spec.resolution_of (fold_left (resolve_step M d) cats acc) c
  = if bool_decide (c ∈ cats)
    then Spec.resolution_of (resolve_step M d acc c) c
    else Spec.resolution_of acc c.
Proof.
  assert (Hsame : forall a a', Spec.resolution_of a c = Spec.resolution_of a' c \/
                               c <> "__proto__" ->
                    Spec.resolution_of (resolve_step M d a c) c
                    = Spec.resolution_of (resolve_step M d a' c) c).
  { intros a a' H. destruct (decide (c = "__proto__")) as [E|E].
    - destruct H as [H|H]; [|contradiction].
      now rewrite !(resolve_step_other M c c) by auto.
    - now rewrite !resolve_step_resolution. }
  revert acc. induction cats as [|x cats IH]; intros acc; cbn [fold_left].
  - rewrite bool_decide_eq_false_2; [reflexivity|]. apply not_elem_of_nil.
  - rewrite IH. destruct (decide (x = c)) as [->|Hne].
    + rewrite (bool_decide_eq_true_2 (c ∈ c :: cats)) by apply list_elem_of_here.
      case_bool_decide; [|reflexivity].
      apply Hsame. destruct (decide (c = "__proto__")) as [E|E]; [left|now right].
      apply resolve_step_other. auto.
    + rewrite (Hsame (resolve_step M d acc x) acc)
        by (left; apply resolve_step_other; auto).
      rewrite (resolve_step_other M x c) by auto.
      destruct (decide (c ∈ cats)) as [Hin|Hnin].
      * rewrite !bool_decide_eq_true_2; [reflexivity| |assumption].
        now apply list_elem_of_further.
      * rewrite !bool_decide_eq_false_2; [reflexivity| |assumption].
        rewrite elem_of_cons. intros [?|?]; congruence.
Qed.

(** A requested category other than [__proto__] has its entry after the
    loop; for [__proto__] nothing was stored. *)
Lemma resolve_fold_resolution (M : string) (d : Database) (cats : list string) (c : string) :
  In c cats ->
  Spec.resolution_of (fold_left (resolve_step M d) cats {| amounts := ∅; exact := ∅ |}) c
  = if c =? "__proto__" then None
    else Some match select_budget_exact c M d with
              | Some r => {| Spec.r_amount := ar_amount r; Spec.r_exact := true |}
              | None => {| Spec.r_amount := amount_or_zero (select_budget_fallback c M d);
                           Spec.r_exact := false |}
              end.
Proof.
  intros Hc. apply list_elem_of_In in Hc.
  rewrite resolve_fold_lookup, bool_decide_eq_true_2 by assumption.
  destruct (String.eqb_spec c "__proto__") as [->|Hne].
  - now rewrite (resolve_step_other M "__proto__" "__proto__") by auto.
  - now apply resolve_step_resolution.
Qed.

Lemma latest_at_or_before_unique (M c : string) (bs : list BudgetRow) (b b' : BudgetRow) :
  budgets_unique bs ->
  Spec.latest_at_or_before M c bs b -> Spec.latest_at_or_before M c bs b' -> b' = b.
Proof.
  intros Hu (Hin & Hc & Hle & Hmax) (Hin' & Hc' & Hle' & Hmax').
  apply (unique_same_key bs); auto; [|congruence].
  apply String.leb_antisym; auto.
Qed.

(** C1.  Budget resolution per category follows the three-step fallback.
    In a healthy world whose Budget table has at most one row per (month,
    category), [getMonthlyBudgetsWithFallbackStatus M categories] fulfils,
    leaves the database as it was, and for every requested category [c]
    other than [__proto__]:
    - if a row keyed [(M, c)] exists with amount [v], it reports amount [v],
      exact [true];
    - otherwise, if some row for [c] has a month [<= M], there is exactly one
      such row of greatest month, and it reports that row's amount, exact
      [false];
    - otherwise it reports amount [0], exact [false].
    Under the name [__proto__] the returned objects hold nothing, whatever
    was requested and whatever the table holds. *)
Theorem resolution_three_step_fallback (M : string) (categories : list string) (w : World) :
  healthy w -> budgets_unique (budgets (db w)) ->
  exists r,
    fulfils (getMonthlyBudgetsWithFallbackStatus M categories) w r (db w) /\
    (forall c, In c categories -> c <> "__proto__" ->
      (forall v, Spec.exact_row M c (budgets (db w)) v ->
         Spec.resolution_of r c = Some {| Spec.r_amount := v; Spec.r_exact := true |}) /\
      (Spec.no_exact_row M c (budgets (db w)) ->
       (exists b0, In b0 (budgets (db w)) /\ bg_category b0 = c /\
                   String.leb (bg_month b0) M = true) ->
       exists b, Spec.latest_at_or_before M c (budgets (db w)) b /\
                 (forall b', Spec.latest_at_or_before M c (budgets (db w)) b' -> b' = b) /\
                 Spec.resolution_of r c
                 = Some {| Spec.r_amount := bg_amount b; Spec.r_exact := false |}) /\
      (Spec.no_row_at_or_before M c (budgets (db w)) ->
         Spec.resolution_of r c = Some {| Spec.r_amount := 0; Spec.r_exact := false |})) /\
    Spec.resolution_of r "__proto__" = None.
Proof.
  intros Hw Hu. eexists. split; [apply status_fulfils, Hw|]. split.
  2:{ rewrite resolve_fold_lookup.
      destruct (bool_decide _); [rewrite resolve_step_other by auto|]; reflexivity. }
  intros c Hc Hproto. apply list_elem_of_In in Hc.
  rewrite resolve_fold_lookup, bool_decide_eq_true_2, resolve_step_resolution by assumption.
  split; [|split].
  - intros v Hv. now rewrite (select_budget_exact_found M c (db w) v).
  - intros Hno (b0 & Hb0 & Hc0 & Hle0).
    apply select_budget_exact_None in Hno. rewrite Hno.
    destruct (select_budget_fallback c M (db w)) as [r|] eqn:E.
    + apply select_budget_fallback_Some in E as (b & Hb & Hr).
      exists b. split; [assumption|]. split.
      * intros b' Hb'. now apply (latest_at_or_before_unique M c (budgets (db w))).
      * simpl. now rewrite Hr.
    + apply select_budget_fallback_None in E. rewrite (E b0 Hb0 Hc0) in Hle0. discriminate.
  - intros Hnone.
    assert (Hno : select_budget_exact c M (db w) = None).
    { apply select_budget_exact_None. intros b Hb Hbc Hm.
      pose proof (Hnone b Hb Hbc) as H. rewrite Hm, string_leb_refl in H. discriminate. }
    apply select_budget_fallback_None in Hnone. now rewrite Hno, Hnone.
Qed.

Lemma fixture_world_healthy : healthy Fixture.world.
Proof.
  split; [reflexivity|]. split; [intros e; discriminate | constructor].
Defined.

Lemma fixture_budgets_unique : budgets_unique (budgets (db Fixture.world)).
Proof.
  unfold budgets_unique. simpl.
  repeat (constructor; [simpl; intuition discriminate|]). constructor.
Defined.

Lemma resolution_three_step_fallback_witness :
  exists r,
    fulfils (getMonthlyBudgetsWithFallbackStatus "2024-06" ["fun"; "groceries"; "boucherie"])
      Fixture.world r (db Fixture.world) /\
    Spec.resolution_of r "fun" = Some {| Spec.r_amount := 80; Spec.r_exact := true |} /\
    Spec.resolution_of r "groceries" = Some {| Spec.r_amount := 200; Spec.r_exact := false |} /\
    Spec.resolution_of r "boucherie" = Some {| Spec.r_amount := 0; Spec.r_exact := false |}.
Proof.
  destruct (resolution_three_step_fallback "2024-06" ["fun"; "groceries"; "boucherie"]
              Fixture.world fixture_world_healthy fixture_budgets_unique)
    as (r & Hr & Hc & _).
  exists r. split; [exact Hr|]. split; [|split].
  - apply (Hc "fun"); [simpl; auto|discriminate|].
    exists {| bg_id := 3; bg_month := "2024-06"; bg_category := "fun"; bg_amount := 80 |}.
    simpl. auto.
  - destruct (Hc "groceries") as (_ & Hcarried & _); [simpl; auto|discriminate|].
    destruct Hcarried as (b & (Hb & Hcat & _) & _ & Hres).
    + intros b Hb Hcat Hm. simpl in Hb.
      destruct Hb as [<-|[<-|[<-|[]]]]; simpl in Hcat, Hm; discriminate.
    + exists {| bg_id := 2; bg_month := "2024-03"; bg_category := "groceries";
                bg_amount := 200 |}.
      simpl. auto.
    + rewrite Hres. simpl in Hb.
      destruct Hb as [<-|[<-|[<-|[]]]]; simpl in Hcat; try discriminate. reflexivity.
  - apply (Hc "boucherie"); [simpl; auto|discriminate|].
    intros b Hb Hcat. simpl in Hb.
    destruct Hb as [<-|[<-|[<-|[]]]]; simpl in Hcat; discriminate.
Defined.

(** ** The two resolver variants *)

Lemma exact_row_is_latest (M c : string) (bs : list BudgetRow) (b : BudgetRow) :
  In b bs -> bg_month b = M -> bg_category b = c -> Spec.latest_at_or_before M c bs b.
Proof.
  intros Hin Hm Hc. repeat split; auto.
  - rewrite Hm. apply string_leb_refl.
  - intros b' _ _ Hle. now rewrite Hm.
Qed.

Lemma resolve_step_amounts (M c : string) (d : Database) (acc : FallbackStatus) :
  budgets_unique (budgets d) ->
  amounts (resolve_step M d acc c) = fallback_step M d (amounts acc) c.
Proof.
  intros Hu. unfold resolve_step, fallback_step.
  destruct (select_budget_exact c M d) as [r|] eqn:E; [|reflexivity].
  apply select_budget_exact_Some in E as (b & Hin & Hm & Hc & Hv).
  rewrite (select_budget_fallback_latest M c d b Hu (exact_row_is_latest M c _ b Hin Hm Hc)).
  simpl. now rewrite Hv.
Qed.

Lemma resolve_fold_amounts (M : string) (d : Database) (cats : list string)
    (acc : FallbackStatus) :
  budgets_unique (budgets d) ->
  amounts (fold_left (resolve_step M d) cats acc)
  = fold_left (fallback_step M d) cats (amounts acc).
Proof.
  intros Hu. revert acc. induction cats as [|c cats IH]; intros acc; simpl; [reflexivity|].
  now rewrite IH, resolve_step_amounts.
Qed.

(** C9.  The two resolver variants agree.  In a healthy world whose Budget
    table has at most one row per (month, category), both
    [getMonthlyBudgetsWithFallback] and [getMonthlyBudgetsWithFallbackStatus]
    fulfil for the same month and category list, and the map the former
    returns is the [amounts] field of what the latter returns. *)
Theorem resolver_variants_agree (M : string) (categories : list string) (w : World) :
  healthy w -> budgets_unique (budgets (db w)) ->
  exists results status,
    fulfils (getMonthlyBudgetsWithFallback M categories) w results (db w) /\
    fulfils (getMonthlyBudgetsWithFallbackStatus M categories) w status (db w) /\
    results = amounts status.
Proof.
  intros Hw Hu. eexists. eexists.
  split; [apply fallback_fulfils, Hw|]. split; [apply status_fulfils, Hw|].
  now rewrite resolve_fold_amounts.
Qed.

Lemma resolver_variants_agree_witness :
  exists results status,
    fulfils (getMonthlyBudgetsWithFallback "2024-06" Screens.categories)
      Fixture.world results (db Fixture.world) /\
    fulfils (getMonthlyBudgetsWithFallbackStatus "2024-06" Screens.categories)
      Fixture.world status (db Fixture.world) /\
    results = amounts status.
Proof.
  exact (resolver_variants_agree "2024-06" Screens.categories Fixture.world
           fixture_world_healthy fixture_budgets_unique).
Defined.

(** ** The Budget mutator *)

Lemma upsertBudget_fulfils (M c : string) (x : Q) (w : World) :
  healthy w -> fulfils (upsertBudget M c x) w tt (upsert_budget M c x (db w)).
Proof.
  intros Hw. unfold upsertBudget.
  eapply bind_fulfils; [apply getDb_fulfils, Hw|].
  intros w1 Hw1 Hd1. rewrite <- Hd1. now apply call_fulfils.
Qed.

Lemma deleteBudgetForMonth_fulfils (M c : string) (w : World) :
  healthy w -> fulfils (deleteBudgetForMonth M c) w tt (delete_budget M c (db w)).
Proof.
  intros Hw. unfold deleteBudgetForMonth.
  eapply bind_fulfils; [apply getDb_fulfils, Hw|].
  intros w1 Hw1 Hd1. rewrite <- Hd1. now apply call_fulfils.
Qed.

Lemma set_amount_at_key (M c : string) (x : Q) (b : BudgetRow) :
  at_key M c {| bg_id := bg_id b; bg_month := bg_month b;
                bg_category := bg_category b; bg_amount := x |} = at_key M c b.
Proof. reflexivity. Qed.

Lemma upsert_budget_rows_at_key (M c : string) (x : Q) (d : Database) (b : BudgetRow) :
  In b (budgets (upsert_budget M c x d)) -> at_key M c b = true -> bg_amount b = x.
Proof.
  unfold upsert_budget. destruct (existsb (at_key M c) (budgets d)) eqn:E; simpl.
  - intros Hin Hk. apply List.in_map_iff in Hin as (b0 & Hb & _).
    destruct (at_key M c b0) eqn:E0; subst b; [reflexivity|]. congruence.
  - intros Hin Hk. apply List.in_app_iff in Hin as [Hin|[<-|[]]]; [|reflexivity].
    exfalso. enough (existsb (at_key M c) (budgets d) = true) by congruence.
    apply List.existsb_exists. eauto.
Qed.

Lemma upsert_budget_has_row (M c : string) (x : Q) (d : Database) :
  existsb (at_key M c) (budgets (upsert_budget M c x d)) = true.
Proof.
  unfold upsert_budget. destruct (existsb (at_key M c) (budgets d)) eqn:E; simpl.
  - apply List.existsb_exists in E as (b & Hb & Hk).
    apply List.existsb_exists. eexists. split; [apply List.in_map, Hb|].
    rewrite Hk. now rewrite set_amount_at_key.
  - rewrite List.existsb_app. simpl. unfold at_key at 2. simpl.
    now rewrite !String.eqb_refl, orb_true_r.
Qed.

Lemma upsert_budget_keys (M c : string) (x : Q) (d : Database) :
  List.map budget_key (budgets (upsert_budget M c x d))
  = if existsb (at_key M c) (budgets d)
    then List.map budget_key (budgets d)
    else (List.map budget_key (budgets d) ++ [(M, c)])%list.
Proof.
  unfold upsert_budget. destruct (existsb (at_key M c) (budgets d)); simpl.
  - rewrite List.map_map. apply List.map_ext. intros b. now destruct (at_key M c b).
  - now rewrite List.map_app.
Qed.

Lemma upsert_budget_unique (M c : string) (x : Q) (d : Database) :
  budgets_unique (budgets d) -> budgets_unique (budgets (upsert_budget M c x d)).
Proof.
  unfold budgets_unique. rewrite upsert_budget_keys.
  destruct (existsb (at_key M c) (budgets d)) eqn:E; [auto|]. intros Hu.
  apply List.NoDup_app; [exact Hu | repeat constructor; intros [] |].
  intros k Hk [<-|[]].
  apply List.in_map_iff in Hk as (b & Hb & Hin).
  enough (existsb (at_key M c) (budgets d) = true) by congruence.
  apply List.existsb_exists. exists b. split; [assumption|].
  apply at_key_true. unfold budget_key in Hb. now inversion Hb.
Qed.

Lemma upsert_budget_twice (M c : string) (x : Q) (d : Database) :
  budgets (upsert_budget M c x (upsert_budget M c x d)) = budgets (upsert_budget M c x d).
Proof.
  unfold upsert_budget at 1. rewrite upsert_budget_has_row. simpl.
  rewrite <- (List.map_id (budgets (upsert_budget M c x d))) at 2.
  apply List.map_ext_in. intros b Hb.
  destruct (at_key M c b) eqn:E; [|reflexivity].
  rewrite <- (upsert_budget_rows_at_key M c x d b Hb E). now destruct b.
Qed.

Lemma upsert_budget_transactions (M c : string) (x : Q) (d : Database) :
  transactions (upsert_budget M c x d) = transactions d.
Proof. unfold upsert_budget. now destruct (existsb (at_key M c) (budgets d)). Qed.

Lemma unique_filter_at_key (M c : string) (bs : list BudgetRow) :
  budgets_unique bs -> existsb (at_key M c) bs = true ->
  exists b, List.filter (at_key M c) bs = [b].
Proof.
  intros Hu He. apply List.existsb_exists in He as (b & Hb & Hk).
  assert (F : In b (List.filter (at_key M c) bs)) by (apply List.filter_In; auto).
  destruct (List.filter (at_key M c) bs) as [|x [|y l]] eqn:E; [destruct F|eauto|].
  exfalso.
  assert (Hx : In x (List.filter (at_key M c) bs)) by (rewrite E; simpl; auto).
  assert (Hy : In y (List.filter (at_key M c) bs)) by (rewrite E; simpl; auto).
  apply List.filter_In in Hx as [Hx Hxk]. apply List.filter_In in Hy as [Hy Hyk].
  apply at_key_true in Hxk as [? ?]. apply at_key_true in Hyk as [? ?].
  assert (x = y) as -> by (apply (unique_same_key bs); congruence).
  assert (Hnd : List.NoDup (List.filter (at_key M c) bs)).
  { apply List.NoDup_filter. eapply List.NoDup_map_inv. exact Hu. }
  rewrite E in Hnd. inversion Hnd as [|? ? Hnot _]. apply Hnot. now left.
Qed.

(** C4.  [upsertBudget] is an idempotent upsert.  In a healthy world whose
    Budget table has at most one row per (month, category), calling
    [upsertBudget M c x] fulfils, calling it a second time fulfils too,
    after which the table holds exactly one row for [(M, c)], with amount
    [x]; the second call leaves every row of both tables as the first call
    left it, and the table still has at most one row per key. *)
Theorem upsertBudget_idempotent (M c : string) (x : Q) (w : World) :
  healthy w -> budgets_unique (budgets (db w)) ->
  exists d1 d2,
    fulfils (upsertBudget M c x) w tt d1 /\
    fulfils (_ ← upsertBudget M c x; upsertBudget M c x) w tt d2 /\
    (exists b, List.filter (at_key M c) (budgets d2) = [b] /\ bg_amount b = x) /\
    budgets d2 = budgets d1 /\
    transactions d2 = transactions d1 /\
    budgets_unique (budgets d2).
Proof.
  intros Hw Hu.
  exists (upsert_budget M c x (db w)), (upsert_budget M c x (upsert_budget M c x (db w))).
  split; [now apply upsertBudget_fulfils|]. split.
  { eapply bind_fulfils; [apply upsertBudget_fulfils, Hw|].
    intros w1 Hw1 Hd1. rewrite <- Hd1. now apply upsertBudget_fulfils. }
  assert (Hu1 := upsert_budget_unique M c x _ Hu).
  rewrite upsert_budget_twice. split; [|split; [reflexivity|split]]; auto.
  - destruct (unique_filter_at_key M c _ Hu1 (upsert_budget_has_row M c x (db w)))
      as (b & Hb).
    exists b. split; [assumption|].
    assert (F : In b (List.filter (at_key M c) (budgets (upsert_budget M c x (db w)))))
      by (rewrite Hb; now left).
    apply List.filter_In in F as [Hin Hk]. eapply upsert_budget_rows_at_key; eauto.
  - now rewrite upsert_budget_transactions.
Qed.

Lemma upsertBudget_idempotent_witness :
  exists d1 d2,
    fulfils (upsertBudget "2024-07" "fun" 65) Fixture.world tt d1 /\
    fulfils (_ ← upsertBudget "2024-07" "fun" 65; upsertBudget "2024-07" "fun" 65)
      Fixture.world tt d2 /\
    (exists b, List.filter (at_key "2024-07" "fun") (budgets d2) = [b] /\ bg_amount b = 65%Q) /\
    budgets d2 = budgets d1 /\
    transactions d2 = transactions d1 /\
    budgets_unique (budgets d2).
Proof.
  exact (upsertBudget_idempotent "2024-07" "fun" 65 Fixture.world
           fixture_world_healthy fixture_budgets_unique).
Defined.

Lemma select_budget_exact_ext (M c : string) (d d' : Database) :
  budgets d = budgets d' -> select_budget_exact c M d = select_budget_exact c M d'.
Proof. unfold select_budget_exact. now intros ->. Qed.

Lemma select_budget_fallback_ext (M c : string) (d d' : Database) :
  budgets d = budgets d' -> select_budget_fallback c M d = select_budget_fallback c M d'.
Proof. unfold select_budget_fallback. now intros ->. Qed.

Lemma resolve_fold_ext (M : string) (d d' : Database) (cats : list string)
    (acc : FallbackStatus) :
  budgets d = budgets d' ->
  fold_left (resolve_step M d) cats acc = fold_left (resolve_step M d') cats acc.
Proof.
  intros H. revert acc. induction cats as [|c cats IH]; intros acc; simpl; [reflexivity|].
  rewrite IH. unfold resolve_step.
  now rewrite (select_budget_exact_ext M c d d' H), (select_budget_fallback_ext M c d d' H).
Qed.

Lemma delete_budget_budgets (M c : string) (d : Database) :
  budgets (delete_budget M c d) = List.filter (fun b => negb (at_key M c b)) (budgets d).
Proof. reflexivity. Qed.

Lemma delete_after_upsert (M c : string) (x : Q) (d : Database) :
  budgets (delete_budget M c (upsert_budget M c x d))
  = List.filter (fun b => negb (at_key M c b)) (budgets d).
Proof.
  rewrite delete_budget_budgets. unfold upsert_budget.
  destruct (existsb (at_key M c) (budgets d)); simpl.
  - induction (budgets d) as [|b bs IH]; simpl; [reflexivity|].
    destruct (at_key M c b) eqn:E.
    + rewrite set_amount_at_key, E. simpl. exact IH.
    + rewrite E. simpl. now rewrite IH.
  - rewrite List.filter_app. simpl. unfold at_key at 2. simpl.
    rewrite !String.eqb_refl. simpl. apply List.app_nil_r.
Qed.

Lemma delete_budget_absent (M c : string) (d : Database) :
  Spec.no_exact_row M c (budgets d) -> delete_budget M c d = d.
Proof.
  intros Hno. unfold delete_budget, with_budgets.
  assert (H : List.filter (fun b => negb ((bg_month b =? M) && (bg_category b =? c)))
                (budgets d) = budgets d).
  { apply List.forallb_filter_id. apply List.forallb_forall. intros b Hb.
    destruct ((bg_month b =? M) && (bg_category b =? c)) eqn:E; [|reflexivity].
    apply andb_true_iff in E as [Em Ec]. apply String.eqb_eq in Em, Ec.
    exfalso. exact (Hno b Hb Ec Em). }
  rewrite H. now destruct d.
Qed.

Lemma no_exact_row_after_delete (M c : string) (bs : list BudgetRow) :
  Spec.no_exact_row M c (List.filter (fun b => negb (at_key M c b)) bs).
Proof.
  intros b Hb Hc Hm. apply List.filter_In in Hb as [_ Hk].
  assert (at_key M c b = true) as E by now apply at_key_true.
  rewrite E in Hk. discriminate.
Qed.

Lemma budgets_unique_filter (f : BudgetRow -> bool) (bs : list BudgetRow) :
  budgets_unique bs -> budgets_unique (List.filter f bs).
Proof.
  unfold budgets_unique. induction bs as [|b bs IH]; simpl; [auto|].
  intros Hu. inversion Hu as [|? ? Hnot Hrest]; subst.
  destruct (f b); [|auto]. simpl. constructor; [|auto].
  intros Hin. apply Hnot. apply List.in_map_iff in Hin as (b' & Hk & Hb').
  apply List.filter_In in Hb' as [Hb' _]. rewrite <- Hk. now apply List.in_map.
Qed.

(** C5.  [deleteBudgetForMonth] after [upsertBudget] is a round trip back
    to fallback resolution.  In a healthy world, for a requested category
    [c] other than [__proto__] (a name under which the resolver's objects
    store nothing) and with [without] the Budget rows other than those
    keyed [(M, c)]:
    - after [upsertBudget M c x], resolution for [(M, c)] reports amount [x],
      exact [true];
    - after a subsequent [deleteBudgetForMonth M c] the Budget rows are
      [without], no row keyed [(M, c)] is left, and resolution fulfils with
      the very result it fulfils with in any healthy world whose Budget rows
      are [without]; that result is not exact, is the amount of the latest
      row of [c] at or before [M] in [without] when the rows are unique per
      key, and is [0] when [without] has no row of [c] at or before [M];
    - [deleteBudgetForMonth M c] on a table with no row keyed [(M, c)]
      fulfils and leaves the database as it was. *)
Theorem reset_after_set_round_trip (M c : string) (x : Q) (categories : list string)
    (w : World) :
  healthy w -> In c categories -> c <> "__proto__" ->
  let without := List.filter (fun b => negb (at_key M c b)) (budgets (db w)) in
  (exists r d1,
     fulfils (_ ← upsertBudget M c x; getMonthlyBudgetsWithFallbackStatus M categories)
       w r d1 /\
     Spec.resolution_of r c = Some {| Spec.r_amount := x; Spec.r_exact := true |}) /\
  (exists r' d2,
     fulfils (_ ← upsertBudget M c x; _ ← deleteBudgetForMonth M c;
              getMonthlyBudgetsWithFallbackStatus M categories) w r' d2 /\
     budgets d2 = without /\
     Spec.no_exact_row M c (budgets d2) /\
     (forall w0, healthy w0 -> budgets (db w0) = without ->
        fulfils (getMonthlyBudgetsWithFallbackStatus M categories) w0 r' (db w0)) /\
     (exists a, Spec.resolution_of r' c
                = Some {| Spec.r_amount := a; Spec.r_exact := false |}) /\
     (budgets_unique (budgets (db w)) ->
      forall b, Spec.latest_at_or_before M c without b ->
        Spec.resolution_of r' c
        = Some {| Spec.r_amount := bg_amount b; Spec.r_exact := false |}) /\
     (Spec.no_row_at_or_before M c without ->
        Spec.resolution_of r' c = Some {| Spec.r_amount := 0; Spec.r_exact := false |})) /\
  (Spec.no_exact_row M c (budgets (db w)) ->
     fulfils (deleteBudgetForMonth M c) w tt (db w)).
Proof.
  intros Hw Hc Hproto without. apply list_elem_of_In in Hc. split; [|split].
  - exists (fold_left (resolve_step M (upsert_budget M c x (db w))) categories
              {| amounts := ∅; exact := ∅ |}), (upsert_budget M c x (db w)).
    split.
    + eapply bind_fulfils; [apply upsertBudget_fulfils, Hw|].
      intros w1 Hw1 Hd1. rewrite <- Hd1. apply status_fulfils, Hw1.
    + rewrite resolve_fold_lookup, bool_decide_eq_true_2, resolve_step_resolution
        by assumption.
      destruct (select_budget_exact c M (upsert_budget M c x (db w))) as [r|] eqn:E.
      * apply select_budget_exact_Some in E as (b & Hb & Hm & Hbc & Hv).
        rewrite <- Hv. f_equal. f_equal.
        apply (upsert_budget_rows_at_key M c x (db w)); [assumption|].
        now apply at_key_true.
      * exfalso. pose proof (upsert_budget_has_row M c x (db w)) as H.
        apply List.existsb_exists in H as (b & Hb & Hk). apply at_key_true in Hk as [Hm Hbc].
        apply select_budget_exact_None in E. exact (E b Hb Hbc Hm).
  - set (d2 := delete_budget M c (upsert_budget M c x (db w))).
    assert (Hd2 : budgets d2 = without) by apply delete_after_upsert.
    assert (Hno : select_budget_exact c M d2 = None).
    { apply select_budget_exact_None. rewrite Hd2. apply no_exact_row_after_delete. }
    exists (fold_left (resolve_step M d2) categories {| amounts := ∅; exact := ∅ |}), d2.
    split; [|split; [exact Hd2|split; [|split; [|split; [|split]]]]].
    + eapply bind_fulfils; [apply upsertBudget_fulfils, Hw|].
      intros w1 Hw1 Hd1.
      eapply bind_fulfils; [apply deleteBudgetForMonth_fulfils, Hw1|].
      intros w2 Hw2 Hdb2. rewrite Hd1 in Hdb2. fold d2 in Hdb2.
      rewrite <- Hdb2. apply status_fulfils, Hw2.
    + rewrite Hd2. apply no_exact_row_after_delete.
    + intros w0 Hw0 Hb0.
      rewrite (resolve_fold_ext M d2 (db w0)) by congruence. apply status_fulfils, Hw0.
    + rewrite resolve_fold_lookup, bool_decide_eq_true_2, resolve_step_resolution
        by assumption.
      rewrite Hno. eauto.
    + intros Hu b Hb.
      rewrite resolve_fold_lookup, bool_decide_eq_true_2, resolve_step_resolution
        by assumption.
      rewrite Hno. rewrite <- Hd2 in Hb.
      rewrite (select_budget_fallback_latest M c d2 b); [reflexivity| |assumption].
      rewrite Hd2. now apply budgets_unique_filter.
    + intros Hnone.
      rewrite resolve_fold_lookup, bool_decide_eq_true_2, resolve_step_resolution
        by assumption.
      rewrite Hno. rewrite <- Hd2 in Hnone. apply select_budget_fallback_None in Hnone.
      now rewrite Hnone.
  - intros Hno. pose proof (deleteBudgetForMonth_fulfils M c w Hw) as H.
    now rewrite (delete_budget_absent M c (db w) Hno) in H.
Qed.

Lemma reset_after_set_round_trip_witness :
  exists r' d2,
    fulfils (_ ← upsertBudget "2024-06" "fun" 99; _ ← deleteBudgetForMonth "2024-06" "fun";
             getMonthlyBudgetsWithFallbackStatus "2024-06" Screens.categories)
      Fixture.world r' d2 /\
    Spec.resolution_of r' "fun" = Some {| Spec.r_amount := 50; Spec.r_exact := false |}.
Proof.
  destruct (reset_after_set_round_trip "2024-06" "fun" 99 Screens.categories Fixture.world
              fixture_world_healthy)
    as (_ & (r' & d2 & Hf & _ & _ & _ & _ & Hlatest & _) & _).
  { simpl. auto. }
  { discriminate. }
  exists r', d2. split; [exact Hf|].
  apply (Hlatest fixture_budgets_unique
           {| bg_id := 1; bg_month := "2024-01"; bg_category := "fun"; bg_amount := 50 |}).
  split; [simpl; auto|]. split; [reflexivity|]. split; [reflexivity|].
  intros b' Hb' Hc'. simpl in Hb'.
  destruct Hb' as [<-|[<-|[]]]; simpl in *; [reflexivity|discriminate].
Defined.

(** ** Aggregation *)

Lemma distinct_In (l : list string) (x : string) : In x (distinct l) <-> In x l.
Proof.
  induction l as [|y l IH]; simpl; [reflexivity|].
  rewrite List.filter_In, IH, negb_true_iff, String.eqb_neq.
  destruct (String.eqb_spec y x) as [->|Hne]; intuition congruence.
Qed.

Lemma distinct_NoDup (l : list string) : List.NoDup (distinct l).
Proof.
  induction l as [|y l IH]; simpl; constructor.
  - rewrite List.filter_In, negb_true_iff, String.eqb_neq. intros [_ H]. now apply H.
  - now apply List.NoDup_filter.
Qed.

Lemma SUM_sum_amounts (ts : list TransactionRow) :
  SUM (List.map amount ts) = Spec.sum_amounts ts.
Proof.
  unfold SUM, Spec.sum_amounts. generalize 0%Q.
  induction ts as [|t ts IH]; intros acc; simpl; [reflexivity|]. apply IH.
Qed.

Lemma group_of_selected (ms me c : string) (ts : list TransactionRow) :
  List.filter (fun t => category t =? c) (List.filter (in_range ms me) ts)
  = Spec.in_month ms me c ts.
Proof.
  unfold Spec.in_month, in_range.
  induction ts as [|t ts IH]; simpl; [reflexivity|].
  rewrite string_ltb_negb_leb.
  destruct (String.leb ms (date t)), (String.leb me (date t)), (category t =? c) eqn:E;
    simpl; rewrite ?E, ?IH; reflexivity.
Qed.

Lemma in_month_In (ms me c : string) (ts : list TransactionRow) (t : TransactionRow) :
  In t (Spec.in_month ms me c ts)
  <-> In t ts /\ category t = c /\ String.leb ms (date t) = true /\
      String.ltb (date t) me = true.
Proof.
  unfold Spec.in_month.
  rewrite List.filter_In, !andb_true_iff, String.eqb_eq, string_ltb_negb_leb. tauto.
Qed.

Lemma select_category_totals_rows (ms me : string) (d : Database) (row : TotalRow) :
  In row (select_category_totals ms me d)
  <-> Spec.in_month ms me (tr_category row) (transactions d) <> [] /\
      total row = Spec.sum_amounts (Spec.in_month ms me (tr_category row) (transactions d)).
Proof.
  unfold select_category_totals. rewrite List.in_map_iff. split.
  - intros (c & <- & Hc). simpl. rewrite group_of_selected, SUM_sum_amounts.
    split; [|reflexivity].
    apply distinct_In, List.in_map_iff in Hc as (t & Ht & Hin).
    assert (F : In t (List.filter (fun t => category t =? c)
                        (List.filter (in_range ms me) (transactions d)))).
    { apply List.filter_In. split; [assumption|]. now apply String.eqb_eq. }
    rewrite group_of_selected in F. intros E. rewrite E in F. destruct F.
  - intros [Hne Htot]. exists (tr_category row). split.
    + rewrite group_of_selected, SUM_sum_amounts, <- Htot. now destruct row.
    + apply distinct_In.
      destruct (Spec.in_month ms me (tr_category row) (transactions d)) as [|t l] eqn:E;
        [congruence|].
      assert (F : In t (Spec.in_month ms me (tr_category row) (transactions d)))
        by (rewrite E; now left).
      rewrite <- group_of_selected in F.
      apply List.filter_In in F as [F Hc]. apply String.eqb_eq in Hc.
      rewrite <- Hc. now apply List.in_map.
Qed.

Lemma select_category_totals_NoDup (ms me : string) (d : Database) :
  List.NoDup (List.map tr_category (select_category_totals ms me d)).
Proof.
  unfold select_category_totals. rewrite List.map_map. simpl. rewrite List.map_id.
  apply distinct_NoDup.
Qed.

Lemma getMonthlyCategoryTotals_fulfils (ms me : string) (w : World) :
  healthy w ->
  fulfils (getMonthlyCategoryTotals ms me) w (select_category_totals ms me (db w)) (db w).
Proof.
  intros Hw. unfold getMonthlyCategoryTotals.
  eapply bind_fulfils; [apply getDb_fulfils, Hw|].
  intros w1 Hw1 Hd1. pose proof (call_fulfils
    "SELECT category, SUM(amount) as total FROM transactions WHERE date >= ? AND date < ? GROUP BY category"
    (select_category_totals ms me) (fun d => d) w1 Hw1) as H.
  now rewrite Hd1 in H.
Qed.

(** C2.  [getMonthlyCategoryTotals monthStart monthEnd] sums, per category,
    exactly the transactions dated in [[monthStart, monthEnd)].  In a
    healthy world and for [monthStart < monthEnd], the call fulfils, leaves
    the database as it was, and returns rows such that:
    - every category with at least one transaction [t] satisfying
      [monthStart <= date t < monthEnd] has a row, whose total is the sum of
      the amounts of exactly those transactions of the category;
    - every returned row is such a row, and no category has two rows;
    - the transactions that contribute are those of the table with the
      row's category and [monthStart <= date < monthEnd]: one dated exactly
      [monthStart] contributes, one dated exactly [monthEnd] does not. *)
Theorem totals_by_category_half_open (monthStart monthEnd : string) (w : World) :
  healthy w -> String.ltb monthStart monthEnd = true ->
  let ts := transactions (db w) in
  exists rows,
    fulfils (getMonthlyCategoryTotals monthStart monthEnd) w rows (db w) /\
    (forall c, Spec.in_month monthStart monthEnd c ts <> [] ->
       exists row, In row rows /\ tr_category row = c /\
                   total row = Spec.sum_amounts (Spec.in_month monthStart monthEnd c ts)) /\
    (forall row, In row rows ->
       Spec.in_month monthStart monthEnd (tr_category row) ts <> [] /\
       total row = Spec.sum_amounts (Spec.in_month monthStart monthEnd (tr_category row) ts)) /\
    List.NoDup (List.map tr_category rows) /\
    (forall c t, In t (Spec.in_month monthStart monthEnd c ts) <->
       In t ts /\ category t = c /\
       String.leb monthStart (date t) = true /\ String.ltb (date t) monthEnd = true) /\
    (forall t, In t ts -> date t = monthStart ->
       In t (Spec.in_month monthStart monthEnd (category t) ts)) /\
    (forall c t, date t = monthEnd -> ~ In t (Spec.in_month monthStart monthEnd c ts)).
Proof.
  intros Hw Hlt ts. exists (select_category_totals monthStart monthEnd (db w)).
  split; [now apply getMonthlyCategoryTotals_fulfils|].
  split; [|split; [|split; [|split; [|split]]]].
  - intros c Hne.
    exists {| tr_category := c;
              total := Spec.sum_amounts (Spec.in_month monthStart monthEnd c ts) |}.
    split; [|split; reflexivity]. apply select_category_totals_rows. simpl. auto.
  - intros row Hrow. now apply select_category_totals_rows.
  - apply select_category_totals_NoDup.
  - intros c t. apply in_month_In.
  - intros t Ht Hd. apply in_month_In. rewrite Hd, string_leb_refl. auto.
  - intros c t Hd Hin. apply in_month_In in Hin as (_ & _ & _ & H).
    rewrite Hd, string_ltb_negb_leb, string_leb_refl in H. discriminate.
Qed.

Lemma totals_by_category_half_open_witness :
  exists rows,
    fulfils (getMonthlyCategoryTotals "2024-06-01" "2024-07-01") Fixture.world rows
      (db Fixture.world) /\
    (exists row, In row rows /\ tr_category row = "fun" /\ total row = 12%Q) /\
    (forall row, In row rows -> tr_category row <> "boucherie").
Proof.
  destruct (totals_by_category_half_open "2024-06-01" "2024-07-01" Fixture.world
              fixture_world_healthy) as (rows & Hf & Hhas & Hrows & _ & _ & _ & Hend).
  { reflexivity. }
  exists rows. split; [exact Hf|]. split.
  - destruct (Hhas "fun") as (row & Hin & Hc & Ht); [simpl; discriminate|].
    exists row. split; [exact Hin|]. split; [exact Hc|]. rewrite Ht. reflexivity.
  - intros row Hin Hc. destruct (Hrows row Hin) as [Hne _]. apply Hne.
    rewrite Hc. reflexivity.
Defined.

(** ** Deleting transactions *)

Lemma existsb_id_In (i : Z) (ids : list Z) : existsb (Z.eqb i) ids = true <-> In i ids.
Proof.
  rewrite List.existsb_exists. split.
  - intros (j & Hj & E). apply Z.eqb_eq in E. now subst.
  - intros H. exists i. split; [assumption|apply Z.eqb_refl].
Qed.

Lemma delete_transactions_in_nil (d : Database) : delete_transactions_in [] d = d.
Proof.
  unfold delete_transactions_in, with_transactions. simpl.
  rewrite List.forallb_filter_id; [now destruct d|].
  now apply List.forallb_forall.
Qed.

Lemma deleteTransactions_fulfils (ids : list Z) (w : World) :
  healthy w -> fulfils (deleteTransactions ids) w tt (delete_transactions_in ids (db w)).
Proof.
  intros Hw. unfold deleteTransactions. destruct ids as [|i ids]; simpl.
  - rewrite delete_transactions_in_nil. now apply ret_fulfils.
  - eapply bind_fulfils; [apply getDb_fulfils, Hw|].
    intros w1 Hw1 Hd1. rewrite <- Hd1. now apply call_fulfils.
Qed.

(** C6.  [deleteTransactions ids] removes exactly the transactions whose id
    is in [ids].  In a healthy world the call fulfils; afterwards the
    transactions table is the old one without the rows whose id is in
    [ids], the remaining rows unchanged and in their order, and the Budget
    table is untouched; a following [getMonthlyCategoryTotals] returns the
    totals of the remaining rows.  With an empty [ids] the call fulfils
    without touching the driver, in any world. *)
Theorem deleteTransactions_removes_exactly (ids : list Z) (monthStart monthEnd : string)
    (w : World) :
  healthy w ->
  (exists d',
     fulfils (deleteTransactions ids) w tt d' /\
     transactions d'
     = List.filter (fun t => negb (existsb (Z.eqb (id t)) ids)) (transactions (db w)) /\
     (forall t, In t (transactions d') <-> In t (transactions (db w)) /\ ~ In (id t) ids) /\
     budgets d' = budgets (db w) /\
     exists rows,
       fulfils (_ ← deleteTransactions ids; getMonthlyCategoryTotals monthStart monthEnd)
         w rows d' /\
       forall row, In row rows <->
         Spec.in_month monthStart monthEnd (tr_category row) (transactions d') <> [] /\
         total row = Spec.sum_amounts
                       (Spec.in_month monthStart monthEnd (tr_category row) (transactions d'))) /\
  (forall w0, deleteTransactions [] w0 = (Fulfilled tt, w0)).
Proof.
  intros Hw. split; [|reflexivity].
  exists (delete_transactions_in ids (db w)).
  split; [now apply deleteTransactions_fulfils|]. split; [reflexivity|].
  split; [|split; [reflexivity|]].
  - intros t. simpl. rewrite List.filter_In, negb_true_iff, <- not_true_iff_false.
    now rewrite existsb_id_In.
  - exists (select_category_totals monthStart monthEnd (delete_transactions_in ids (db w))).
    split.
    + eapply bind_fulfils; [apply deleteTransactions_fulfils, Hw|].
      intros w1 Hw1 Hd1. rewrite <- Hd1. now apply getMonthlyCategoryTotals_fulfils.
    + intros row. apply select_category_totals_rows.
Qed.

Lemma deleteTransactions_removes_exactly_witness :
  exists d',
    fulfils (deleteTransactions [2; 3]%Z) Fixture.world tt d' /\
    List.map id (transactions d') = [1; 4; 5]%Z /\
    exists rows,
      fulfils (_ ← deleteTransactions [2; 3]%Z; getMonthlyCategoryTotals "2024-06-01" "2024-07-01")
        Fixture.world rows d' /\
      forall row, In row rows -> tr_category row = "fun" /\ total row = 5%Q.
Proof.
  destruct (deleteTransactions_removes_exactly [2; 3]%Z "2024-06-01" "2024-07-01"
              Fixture.world fixture_world_healthy)
    as ((d' & Hf & Ht & _ & _ & rows & Hrows & Hrow) & _).
  exists d'. split; [exact Hf|]. split; [now rewrite Ht|].
  exists rows. split; [exact Hrows|].
  assert (Ht' : transactions d'
                = [ {| id := 1; amount := 12; category := "fun"; label := None;
                       date := "2024-05-31" |};
                    {| id := 4; amount := 5; category := "fun"; label := None;
                       date := "2024-06-30" |};
                    {| id := 5; amount := 9; category := "boucherie"; label := None;
                       date := "2024-07-01" |} ]) by (rewrite Ht; reflexivity).
  intros row Hin. apply Hrow in Hin as [Hne Htot]. rewrite Ht' in Hne, Htot.
  assert (Hc : tr_category row = "fun").
  { destruct (Spec.in_month _ _ _ _) as [|t l] eqn:E in Hne; [congruence|].
    assert (F : In t (t :: l)) by now left. rewrite <- E in F.
    apply in_month_In in F as (Hin & Hc & Hle & Hlt).
    destruct Hin as [<-|[<-|[<-|[]]]]; simpl in Hc; try (now symmetry); discriminate. }
  split; [exact Hc|]. rewrite Htot, Hc. reflexivity.
Defined.

(** ** Failure of a lookup *)

Lemma for_of_app {A S} (xs ys : list A) (body : A -> S -> Async.T S) (s : S) (w : World) :
  for_of (xs ++ ys) body s w
  = match for_of xs body s w with
    | (Fulfilled s', w') => for_of ys body s' w'
    | (Rejected e, w') => (Rejected e, w')
    end.
Proof.
  revert s w. induction xs as [|x xs IH]; intros s w; simpl; [reflexivity|].
  unfold Async.bind. destruct (body x s w) as [[s1|e] w1]; [apply IH|reflexivity].
Qed.

Lemma for_of_rejected {A S} (xs : list A) (body : A -> S -> Async.T S) (s : S)
    (w w' : World) (e : Error) :
  for_of xs body s w = (Rejected e, w') ->
  exists pre x post s1 w1,
    xs = (pre ++ x :: post)%list /\
    for_of pre body s w = (Fulfilled s1, w1) /\
    body x s1 w1 = (Rejected e, w').
Proof.
  revert s w. induction xs as [|x xs IH]; intros s w; simpl; [discriminate|].
  unfold Async.bind. destruct (body x s w) as [[s1|e1] w1] eqn:E.
  - intros H. destruct (IH s1 w1 H) as (pre & y & post & s2 & w2 & -> & Hpre & Hy).
    exists (x :: pre), y, post, s2, w2. split; [reflexivity|]. split; [|exact Hy].
    simpl. unfold Async.bind. now rewrite E.
  - intros [= -> ->]. exists [], x, xs, s, w. auto.
Qed.

Lemma status_body_entries (M c : string) (acc r : FallbackStatus) (w w' : World) :
  getMonthlyBudgetsWithFallbackStatus_body M c acc w = (Fulfilled r, w') ->
  (c <> "__proto__" -> Spec.has_entry r c) /\
  forall c', Spec.has_entry acc c' -> Spec.has_entry r c'.
Proof.
  unfold getMonthlyBudgetsWithFallbackStatus_body. rewrite bind_run.
  destruct (getFirstAsync _ _ w) as [[[row|]|e] w1]; [| |discriminate].
  - intros [= <- <-]. unfold Spec.has_entry. simpl. split.
    + intros Hc. rewrite !Object_set_lookup_eq by assumption. eauto.
    + intros c' [Ha He]. split; now apply Object_set_keeps.
  - rewrite bind_run. destruct (getFirstAsync _ _ w1) as [[row|e] w2]; [|discriminate].
    intros [= <- <-]. unfold Spec.has_entry. simpl. split.
    + intros Hc. rewrite !Object_set_lookup_eq by assumption. eauto.
    + intros c' [Ha He]. split; now apply Object_set_keeps.
Qed.

Lemma status_loop_entries (M : string) (cats : list string) (acc r : FallbackStatus)
    (w w' : World) :
  for_of cats (getMonthlyBudgetsWithFallbackStatus_body M) acc w = (Fulfilled r, w') ->
  forall c, (In c cats /\ c <> "__proto__") \/ Spec.has_entry acc c -> Spec.has_entry r c.
Proof.
  revert acc w. induction cats as [|x cats IH]; intros acc w; simpl.
  - intros [= <- <-] c [[[] _]|H]. exact H.
  - unfold Async.bind.
    destruct (getMonthlyBudgetsWithFallbackStatus_body M x acc w) as [[acc1|e] w1] eqn:E;
      [|discriminate].
    apply status_body_entries in E as [Hx Hkeep].
    intros H c Hc. apply (IH acc1 w1 H). destruct Hc as [[[<-|Hc] Hp]|Hc]; auto.
Qed.

(** What a driver call does with the fault that is next in line. *)
Lemma call_goes_through {A} (sql : string) (read : Database -> A)
    (write : Database -> Database) (w : World) (fs : list (option Error)) :
  faults w = None :: fs ->
  exists w', call sql read write w = (Fulfilled (read (db w)), w') /\
             db w' = write (db w) /\ faults w' = fs.
Proof.
  intros H. unfold call, pop_fault. rewrite H. eexists. split; [reflexivity|]. auto.
Qed.

Lemma call_hits_fault {A} (sql : string) (read : Database -> A)
    (write : Database -> Database) (w : World) (e : Error) (fs : list (option Error)) :
  faults w = Some e :: fs ->
  exists w', call sql read write w = (Rejected e, w') /\ db w' = db w /\ faults w' = fs.
Proof.
  intros H. unfold call, pop_fault. rewrite H. eexists. split; [reflexivity|]. auto.
Qed.

Lemma lookups_cons (M : string) (d : Database) (c : string) (cats : list string) :
  Spec.lookups M d (c :: cats)
  = (match select_budget_exact c M d with Some _ => 1 | None => 2 end
     + Spec.lookups M d cats)%nat.
Proof. reflexivity. Qed.

(** The loop of the resolver behind a driver that lets [k] calls through
    and rejects the next: it is rejected when it needs more than [k]
    lookups, and fulfils otherwise, in both cases without a write. *)
Lemma status_loop_fault (M : string) (cats : list string) (e : Error)
    (rest : list (option Error)) :
  forall (acc : FallbackStatus) (w : World) (k : nat),
    faults w = (List.repeat None k ++ Some e :: rest)%list ->
    ((k < Spec.lookups M (db w) cats)%nat ->
     exists w', for_of cats (getMonthlyBudgetsWithFallbackStatus_body M) acc w
                = (Rejected e, w') /\ db w' = db w /\ faults w' = rest) /\
    ((Spec.lookups M (db w) cats <= k)%nat ->
     exists r w', for_of cats (getMonthlyBudgetsWithFallbackStatus_body M) acc w
                  = (Fulfilled r, w') /\ db w' = db w /\
                  faults w' = (List.repeat None (k - Spec.lookups M (db w) cats)
                                 ++ Some e :: rest)%list).
Proof.
  induction cats as [|c cats IH]; intros acc w k Hf.
  - change (Spec.lookups M (db w) []) with 0%nat. cbn [for_of]. split; [lia|].
    intros _. exists acc, w. rewrite Nat.sub_0_r. auto.
  - rewrite lookups_cons. cbn [for_of].
    change (Async.bind ?m ?f) with (m ≫= f). rewrite bind_run.
    unfold getMonthlyBudgetsWithFallbackStatus_body. rewrite !bind_run.
    unfold getFirstAsync.
    destruct k as [|k]; cbn [List.repeat List.app] in Hf.
    { destruct (call_hits_fault
                  "SELECT amount FROM budgets WHERE category = ? AND month = ? LIMIT 1"
                  (select_budget_exact c M) (fun d => d) w e rest Hf) as (w1 & -> & Hd1 & Hf1).
      split; [intros _; eauto|]. destruct (select_budget_exact c M (db w)); simpl; lia. }
    destruct (call_goes_through
                "SELECT amount FROM budgets WHERE category = ? AND month = ? LIMIT 1"
                (select_budget_exact c M) (fun d => d) w _ Hf) as (w1 & -> & Hd1 & Hf1).
    destruct (select_budget_exact c M (db w)) as [row|] eqn:E.
    { pose proof (fun a => IH a w1 k Hf1) as IH1. cbv beta in Hd1. rewrite Hd1 in IH1.
      split.
      - intros Hk. apply IH1. lia.
      - intros Hk. replace (S k - (1 + Spec.lookups M (db w) cats))%nat
          with (k - Spec.lookups M (db w) cats)%nat by lia.
        apply IH1. lia. }
    rewrite bind_run.
    destruct k as [|k]; cbn [List.repeat List.app] in Hf1.
    { destruct (call_hits_fault
                  "SELECT amount FROM budgets WHERE category = ? AND month <= ? ORDER BY month DESC LIMIT 1"
                  (select_budget_fallback c M) (fun d => d) w1 e rest Hf1)
        as (w2 & -> & Hd2 & Hf2).
      split; [intros _; exists w2; split; [reflexivity|split; [congruence|assumption]]|].
      lia. }
    destruct (call_goes_through
                "SELECT amount FROM budgets WHERE category = ? AND month <= ? ORDER BY month DESC LIMIT 1"
                (select_budget_fallback c M) (fun d => d) w1 _ Hf1)
      as (w2 & -> & Hd2 & Hf2).
    assert (Hd : db w2 = db w) by (cbv beta in Hd1, Hd2; congruence).
    pose proof (fun a => IH a w2 k Hf2) as IH2. rewrite Hd in IH2. split.
    + intros Hk. apply IH2. lia.
    + intros Hk. replace (S (S k) - (2 + Spec.lookups M (db w) cats))%nat
        with (k - Spec.lookups M (db w) cats)%nat by lia.
      apply IH2. lia.
Qed.

(** C8.  Budget resolution is all-or-nothing across categories.
    - With the database open and a driver that lets [k] calls through and
      rejects the next with [e]: when the lookups of the requested
      categories need more than [k] calls (one for a category with a row
      for the month, two for any other), whichever lookup the failure
      hits, the exact one or the fallback one, of whichever category, the
      whole call is rejected with [e]; a rejection carries no map, and the
      database is as it was.
    In any world, healthy or not:
    - when [getMonthlyBudgetsWithFallbackStatus] fulfils, the two maps it
      returns have an entry for every requested category other than
      [__proto__];
    - when the loop reaches a category whose lookup is rejected by the
      driver, the whole call is rejected with that error;
    - the call is rejected only if [getDb] is, or if the lookup of one of
      the requested categories is, after those before it went through;
    - in a healthy world it fulfils. *)
Theorem resolution_all_or_nothing (M : string) (categories : list string) (w : World) :
  let lookup := getMonthlyBudgetsWithFallbackStatus_body M in
  let empty := {| amounts := ∅; exact := ∅ |} in
  (forall k e rest,
     platform_web w = false -> dbPromise w = Some (Fulfilled tt) ->
     faults w = (List.repeat None k ++ Some e :: rest)%list ->
     (k < Spec.lookups M (db w) categories)%nat ->
     exists w',
       getMonthlyBudgetsWithFallbackStatus M categories w = (Rejected e, w') /\
       db w' = db w /\ faults w' = rest) /\
  (forall r w', getMonthlyBudgetsWithFallbackStatus M categories w = (Fulfilled r, w') ->
     forall c, In c categories -> c <> "__proto__" -> Spec.has_entry r c) /\
  (forall pre c post w0 acc w1 e w2,
     categories = (pre ++ c :: post)%list ->
     getDb w = (Fulfilled tt, w0) ->
     for_of pre lookup empty w0 = (Fulfilled acc, w1) ->
     lookup c acc w1 = (Rejected e, w2) ->
     getMonthlyBudgetsWithFallbackStatus M categories w = (Rejected e, w2)) /\
  (forall e w', getMonthlyBudgetsWithFallbackStatus M categories w = (Rejected e, w') ->
     getDb w = (Rejected e, w') \/
     exists pre c post w0 acc w1,
       categories = (pre ++ c :: post)%list /\
       getDb w = (Fulfilled tt, w0) /\
       for_of pre lookup empty w0 = (Fulfilled acc, w1) /\
       lookup c acc w1 = (Rejected e, w')) /\
  (healthy w -> exists r, fulfils (getMonthlyBudgetsWithFallbackStatus M categories) w r (db w)).
Proof.
  intros lookup empty. unfold getMonthlyBudgetsWithFallbackStatus.
  split; [|split; [|split; [|split]]].
  - intros k e rest Hweb Hp Hf Hk. rewrite bind_run.
    assert (Hdb : getDb w = (Fulfilled tt, w)).
    { unfold getDb. rewrite Hweb, Hp. simpl. now rewrite Hp. }
    rewrite Hdb. now apply (status_loop_fault M categories e rest empty w k Hf).
  - intros r w'. rewrite bind_run. destruct (getDb w) as [[[]|e] w0]; [|discriminate].
    intros H c Hc Hproto. apply (status_loop_entries M categories _ r w0 w' H). now left.
  - intros pre c post w0 acc w1 e w2 -> Hdb Hpre Hc.
    rewrite bind_run, Hdb, for_of_app. fold lookup empty. rewrite Hpre. simpl.
    unfold Async.bind. now rewrite Hc.
  - intros e w'. rewrite bind_run. destruct (getDb w) as [[[]|e0] w0].
    + intros H. right. apply for_of_rejected in H as (pre & c & post & acc & w1 & H).
      exists pre, c, post, w0, acc, w1. tauto.
    + intros [= -> ->]. now left.
  - intros Hw. eexists. apply status_fulfils, Hw.
Qed.

(** On the fixture the failure hits the fallback lookup of groceries, the
    third driver call of the five that the three categories need. *)
Lemma resolution_all_or_nothing_witness :
  exists w',
    getMonthlyBudgetsWithFallbackStatus "2024-06" Screens.categories Fixture.late_fault_world
    = (Rejected (mkError "disk I/O error"), w') /\
    db w' = db Fixture.late_fault_world.
Proof.
  destruct (resolution_all_or_nothing "2024-06" Screens.categories Fixture.late_fault_world)
    as (Hfault & _).
  destruct (Hfault 2%nat (mkError "disk I/O error") []) as (w' & Hrun & Hdb & _);
    [reflexivity|reflexivity|reflexivity|vm_compute; lia|].
  exists w'. auto.
Defined.

(** ** Validation on the write paths *)

Lemma not_greater_than_zero (x : number) :
  Number_isFinite x = false \/ JS.lt (Fin 0) x = false ->
  negb (Number_isFinite x) || JS.le x (Fin 0) = true.
Proof.
  destruct x as [| | |q]; simpl; try tauto.
  intros [H|H]; [discriminate|]. now apply negb_false_iff in H.
Qed.

(** C7.  Validation errors are rejected before any storage call.  Whatever
    [Number] computes, whatever the state of the world, when the parsed
    amount is not finite or not greater than 0, or the category is not in
    the allow-list, or the date is invalid:
    - [handleSubmit] ends with one of its validation messages as the error
      and nothing else of the form changed but the cleared success message;
    - [handleEditSave] ends with one of its validation messages as the error
      and nothing else of the screen changed;
    - in both cases the world is exactly as before: no driver call was
      logged, no fault consumed, no row written. *)
Theorem validation_rejects_before_storage (Number : string -> number) (now : Date)
    (onSaved : bool) (s : Screens.FormState) (e : Screens.ExpensesState) (w : World) :
  (let parsedAmount := Number (replace_comma_by_dot (Screens.f_amount s)) in
   Number_isFinite parsedAmount = false \/ JS.lt (Fin 0) parsedAmount = false \/
   includes Screens.categories (Screens.f_category s) = false \/
   Date_time_isNaN (Screens.f_transactionDate s) = true ->
   exists msg,
     In msg ["Amount must be a number greater than 0.";
             "Category must be selected from the list.";
             "Transaction date is required."] /\
     Screens.handleSubmit Number now onSaved s w
     = (Fulfilled (Screens.f_setError (Some msg)
                     (Screens.f_setSuccess None (Screens.f_setError None s))), w)) /\
  (let parsedAmount := Number (replace_comma_by_dot (Screens.e_editAmount e)) in
   Number_isFinite parsedAmount = false \/ JS.lt (Fin 0) parsedAmount = false \/
   includes Screens.categories (Screens.e_editCategory e) = false \/
   Date_time_isNaN (Screens.e_editDate e) = true ->
   exists msg,
     In msg ["Select a single transaction to edit.";
             "Amount must be a number greater than 0.";
             "Category must be selected from the list.";
             "Transaction date is required."] /\
     Screens.handleEditSave Number e w
     = (Fulfilled (Screens.e_setError (Some msg) (Screens.e_setError None e)), w)).
Proof.
  split.
  - intros parsedAmount H. unfold Screens.handleSubmit.
    cbn [Screens.f_amount Screens.f_category Screens.f_transactionDate
         Screens.f_setError Screens.f_setSuccess].
    fold parsedAmount.
    destruct (negb (Number_isFinite parsedAmount) || JS.le parsedAmount (Fin 0)) eqn:Ea.
    { eexists. split; [|reflexivity]. simpl. auto. }
    destruct (includes Screens.categories (Screens.f_category s)) eqn:Ec;
      cbn [negb].
    2:{ eexists. split; [|reflexivity]. simpl. auto. }
    destruct (Date_time_isNaN (Screens.f_transactionDate s)) eqn:Ed.
    { eexists. split; [|reflexivity]. simpl. auto. }
    exfalso. destruct H as [H|[H|[H|H]]]; try discriminate.
    + rewrite not_greater_than_zero in Ea by auto. discriminate.
    + rewrite not_greater_than_zero in Ea by auto. discriminate.
  - intros parsedAmount H. unfold Screens.handleEditSave.
    cbn [Screens.e_editAmount Screens.e_editCategory Screens.e_editDate
         Screens.e_selectedIds Screens.e_setError].
    fold parsedAmount.
    destruct (negb (List.length (Screens.e_selectedIds e) =? 1)%nat).
    { eexists. split; [|reflexivity]. simpl. auto. }
    destruct (negb (Number_isFinite parsedAmount) || JS.le parsedAmount (Fin 0)) eqn:Ea.
    { eexists. split; [|reflexivity]. simpl. auto. }
    destruct (includes Screens.categories (Screens.e_editCategory e)) eqn:Ec;
      cbn [negb].
    2:{ eexists. split; [|reflexivity]. simpl. auto. }
    destruct (Date_time_isNaN (Screens.e_editDate e)) eqn:Ed.
    { eexists. split; [|reflexivity]. simpl. auto. }
    exfalso. destruct H as [H|[H|[H|H]]]; try discriminate.
    + rewrite not_greater_than_zero in Ea by auto. discriminate.
    + rewrite not_greater_than_zero in Ea by auto. discriminate.
Qed.

Lemma validation_rejects_before_storage_witness :
  (exists msg,
     In msg ["Amount must be a number greater than 0.";
             "Category must be selected from the list.";
             "Transaction date is required."] /\
     Screens.handleSubmit Fixture.Number Fixture.now true (Fixture.form "-3")
       Fixture.faulty_world
     = (Fulfilled (Screens.f_setError (Some msg)
                     (Screens.f_setSuccess None
                        (Screens.f_setError None (Fixture.form "-3")))),
        Fixture.faulty_world)) /\
  (exists msg,
     In msg ["Select a single transaction to edit.";
             "Amount must be a number greater than 0.";
             "Category must be selected from the list.";
             "Transaction date is required."] /\
     Screens.handleEditSave Fixture.Number (Fixture.edit "12,5") Fixture.faulty_world
     = (Fulfilled (Screens.e_setError (Some msg)
                     (Screens.e_setError None (Fixture.edit "12,5"))),
        Fixture.faulty_world)).
Proof.
  destruct (validation_rejects_before_storage Fixture.Number Fixture.now true
              (Fixture.form "-3") (Fixture.edit "12,5") Fixture.faulty_world) as [Hs He].
  split.
  - apply Hs. right. left. reflexivity.
  - apply He. right. right. right. reflexivity.
Defined.

(** A valid submission does reach the storage: one driver call to open the
    database, one for the insert, and one more row. *)
Example handleSubmit_saves :
  exists s' w',
    Screens.handleSubmit Fixture.Number Fixture.now true (Fixture.form "12,5") Fixture.world
    = (Fulfilled s', w') /\
    Screens.f_success s' = Some "Saved." /\
    Screens.f_notices s' = [Screens.EmitTransactionsChanged; Screens.OnSaved] /\
    transactions (db w')
    = (Fixture.transaction_rows
       ++ [{| id := 6; amount := 25 # 2; category := "fun"; label := Some "cinema";
              date := "2024-06-04" |}])%list /\
    List.length (trace w') = 2%nat.
Proof.
  eexists. eexists. split; [vm_compute; reflexivity|]. repeat split.
Qed.

(** ** The donut chart *)

Lemma clamped_finite (size strokeWidth : option Q) (p : Q) :
  exists k,
    DonutChart.clamped {| DonutChart.size := size; DonutChart.strokeWidth := strokeWidth;
                          DonutChart.progress := Fin p |} = Fin k /\
    (k == Qmax 0 (Qmin 1 p))%Q /\ (0 <= k <= 1)%Q.
Proof.
  unfold DonutChart.clamped. simpl.
  destruct (Qle_bool 1 p) eqn:E1; simpl.
  - apply Qle_bool_iff in E1. exists 1%Q. split; [reflexivity|]. split; [|lra].
    rewrite (Q.min_l 1 p E1). symmetry. apply Q.max_r. lra.
  - assert (H1 : (p < 1)%Q).
    { apply Qnot_le_lt. intros H. apply Qle_bool_iff in H. congruence. }
    destruct (Qle_bool p 0) eqn:E0.
    + apply Qle_bool_iff in E0. exists 0%Q. split; [reflexivity|]. split; [|lra].
      rewrite (Q.min_r 1 p) by lra. symmetry. apply Q.max_l. exact E0.
    + assert (H0 : (0 < p)%Q).
      { apply Qnot_le_lt. intros H. apply Qle_bool_iff in H. congruence. }
      exists p. split; [reflexivity|]. split; [|lra].
      rewrite (Q.min_r 1 p) by lra. symmetry. apply Q.max_r. lra.
Qed.

Lemma Math_PI_pos : (0 < Math_PI)%Q.
Proof. reflexivity. Qed.

Lemma circumference_nonneg (props : DonutChart.DonutChartProps) :
  (DonutChart.strokeWidth_or_default props <= DonutChart.size_or_default props)%Q ->
  (0 <= DonutChart.circumference props)%Q.
Proof.
  intros H. unfold DonutChart.circumference, DonutChart.radius.
  pose proof Math_PI_pos as Hpi.
  apply Qmult_le_0_compat; [apply Qmult_le_0_compat; lra|].
  apply Qle_shift_div_l; lra.
Qed.

(** C10.  [DonutChart] clamps its progress.  For every finite progress [p]
    and every size and stroke width, the drawn arc length [dash] is the
    circumference times [max(0, min(1, p))], a factor between 0 and 1;
    for an infinite progress the factor is 1 or 0.  Hence, whenever the
    stroke fits in the chart ([strokeWidth <= size], as with the default
    96 and 10), the arc is never negative and never longer than the full
    circle. *)
Theorem donut_progress_clamped (size strokeWidth : option Q) :
  let props x := {| DonutChart.size := size; DonutChart.strokeWidth := strokeWidth;
                    DonutChart.progress := x |} in
  (forall p : Q,
     exists k d,
       DonutChart.clamped (props (Fin p)) = Fin k /\
       (k == Qmax 0 (Qmin 1 p))%Q /\ (0 <= k <= 1)%Q /\
       DonutChart.dash (props (Fin p)) = Fin d /\
       (d == DonutChart.circumference (props (Fin p)) * Qmax 0 (Qmin 1 p))%Q /\
       ((default 10 strokeWidth <= default 96 size)%Q ->
        (0 <= d <= DonutChart.circumference (props (Fin p)))%Q)) /\
  DonutChart.dash (props PosInfinity) = Fin (DonutChart.circumference (props PosInfinity) * 1) /\
  DonutChart.dash (props NegInfinity) = Fin (DonutChart.circumference (props NegInfinity) * 0).
Proof.
  intros props. split; [|split; reflexivity].
  intros p. destruct (clamped_finite size strokeWidth p) as (k & Hk & Heq & Hk0 & Hk1).
  exists k, (DonutChart.circumference (props (Fin p)) * k)%Q.
  split; [exact Hk|]. split; [exact Heq|]. split; [now split|]. split.
  - unfold DonutChart.dash. fold (props (Fin p)) in Hk. now rewrite Hk.
  - split; [now rewrite Heq|]. intros Hfit.
    pose proof (circumference_nonneg (props (Fin p)) Hfit) as Hc.
    split; [now apply Qmult_le_0_compat|]. nra.
Qed.

Lemma donut_progress_clamped_witness :
  exists d,
    DonutChart.dash {| DonutChart.size := None; DonutChart.strokeWidth := None;
                       DonutChart.progress := Fin (3 # 2) |} = Fin d /\
    (d == 2 * Math_PI * 43)%Q.
Proof.
  destruct (donut_progress_clamped None None) as (Hfin & _ & _).
  destruct (Hfin (3 # 2)) as (k & d & _ & _ & _ & Hd & Heq & _).
  exists d. split; [exact Hd|]. rewrite Heq. reflexivity.
Defined.

(** ** The change notification bus *)

Import TransactionsEvents.

Lemma members_app (xs ys : list (option Listener)) :
  members (xs ++ ys) = (members xs ++ members ys)%list.
Proof.
  induction xs as [|[l|] xs IH]; simpl; [reflexivity| |assumption]. now rewrite IH.
Qed.

Lemma Set_delete_absent (l : Listener) (entries : list (option Listener)) :
  ~ In l (members entries) -> Set_delete l entries = entries.
Proof.
  unfold Set_delete. induction entries as [|[l'|] entries IH]; simpl; intros H.
  - reflexivity.
  - destruct (Nat.eqb_spec l' l) as [->|Hne]; [exfalso; auto|]. rewrite IH; auto.
  - rewrite IH; auto.
Qed.

Lemma members_Set_delete (l : Listener) (entries : list (option Listener)) :
  incl (members (List.map (fun e => if is_entry l e then None else e) entries))
       (members entries).
Proof.
  induction entries as [|[l'|] entries IH]; simpl; [apply incl_refl| |exact IH].
  destruct (Nat.eqb l' l); simpl.
  - now apply incl_tl.
  - apply incl_cons; [now left|now apply incl_tl].
Qed.

Lemma nth_error_middle {A} (prefix rest : list A) (x : A) :
  nth_error (prefix ++ x :: rest) (List.length prefix) = Some x.
Proof. induction prefix as [|y prefix IH]; simpl; auto. Qed.

Lemma members_In_split (l : Listener) (entries : list (option Listener)) :
  In l (members entries) -> exists pre post, entries = (pre ++ Some l :: post)%list.
Proof.
  induction entries as [|[l'|] entries IH]; simpl; [intros []| |].
  - intros [->|H]; [now exists [], entries|].
    destruct (IH H) as (pre & post & ->). now exists (Some l' :: pre), post.
  - intros H. destruct (IH H) as (pre & post & ->). now exists (None :: pre), post.
Qed.

Lemma Set_add_absent (l : Listener) (entries : list (option Listener)) :
  ~ In l (members entries) -> Set_add l entries = (entries ++ [Some l])%list.
Proof.
  intros H. unfold Set_add.
  destruct (existsb (is_entry l) entries) eqn:E; [|reflexivity].
  exfalso. apply H. apply List.existsb_exists in E as ([l'|] & Hin & He); [|discriminate].
  apply Nat.eqb_eq in He. subst l'. clear H.
  induction entries as [|[x|] entries IH]; simpl in *; [destruct Hin| |].
  - destruct Hin as [[= ->]|Hin]; auto.
  - destruct Hin as [?|Hin]; [discriminate|auto].
Qed.

Lemma Set_add_present (l : Listener) (entries : list (option Listener)) :
  In l (members entries) -> Set_add l entries = entries.
Proof.
  intros H. unfold Set_add.
  enough (existsb (is_entry l) entries = true) as -> by reflexivity.
  apply List.existsb_exists. exists (Some l). split; [|apply Nat.eqb_refl].
  induction entries as [|[l'|] entries IH]; simpl in *; [destruct H| |auto].
  destruct H as [->|H]; auto.
Qed.

Lemma In_members (l : Listener) (entries : list (option Listener)) :
  In (Some l) entries <-> In l (members entries).
Proof.
  induction entries as [|[l'|] entries IH]; simpl; [tauto| |].
  - rewrite <- IH. split; intros [H|H]; auto; left; congruence.
  - rewrite <- IH. split; [intros [H|H]; [discriminate|assumption]|auto].
Qed.

(** Adding a listener that is not among the first entries only concerns
    the entries after them. *)
Lemma Set_add_app (x : Listener) (pre tail : list (option Listener)) :
  ~ In x (members pre) -> Set_add x (pre ++ tail) = (pre ++ Set_add x tail)%list.
Proof.
  intros H. destruct (List.in_dec Nat.eq_dec x (members tail)) as [Hin|Hout].
  - rewrite (Set_add_present x tail Hin). apply Set_add_present.
    rewrite members_app. apply List.in_app_iff. auto.
  - rewrite (Set_add_absent x tail Hout), List.app_assoc. apply Set_add_absent.
    rewrite members_app. intros Hx. apply List.in_app_iff in Hx. tauto.
Qed.

Lemma members_Set_add (x : Listener) (entries : list (option Listener)) (y : Listener) :
  In y (members (Set_add x entries)) <-> In y (members entries) \/ y = x.
Proof.
  destruct (List.in_dec Nat.eq_dec x (members entries)) as [Hin|Hout].
  - rewrite (Set_add_present x entries Hin). split; [auto|]. intros [H | ->]; assumption.
  - rewrite (Set_add_absent x entries Hout), members_app, List.in_app_iff. simpl.
    split; [intros [H|[H|[]]]; [left|right]; auto | intros [H|H]; [left|right; left]; auto].
Qed.

Lemma NoDup_members_Set_add (x : Listener) (entries : list (option Listener)) :
  List.NoDup (members entries) -> List.NoDup (members (Set_add x entries)).
Proof.
  intros Hnd. destruct (List.in_dec Nat.eq_dec x (members entries)) as [Hin|Hout].
  - now rewrite (Set_add_present x entries Hin).
  - rewrite (Set_add_absent x entries Hout), members_app. simpl.
    apply List.NoDup_app; [exact Hnd|repeat constructor; intros []|].
    intros y Hy [<-|[]]. auto.
Qed.

(** The entries after a batch of subscriptions. *)
Lemma members_Set_add_all (xs : list Listener) (entries : list (option Listener))
    (y : Listener) :
  In y (members (fold_left (fun t x => Set_add x t) xs entries))
  <-> In y (members entries) \/ In y xs.
Proof.
  revert entries. induction xs as [|x xs IH]; intros entries; simpl; [tauto|].
  rewrite IH, members_Set_add. intuition.
Qed.

Lemma NoDup_members_Set_add_all (xs : list Listener) (entries : list (option Listener)) :
  List.NoDup (members entries) ->
  List.NoDup (members (fold_left (fun t x => Set_add x t) xs entries)).
Proof.
  revert entries. induction xs as [|x xs IH]; intros entries H; simpl; [exact H|].
  now apply IH, NoDup_members_Set_add.
Qed.

Lemma length_Set_add_all (xs : list Listener) (entries : list (option Listener)) :
  List.length entries = List.length (members entries) ->
  List.length (fold_left (fun t x => Set_add x t) xs entries)
  = List.length (members (fold_left (fun t x => Set_add x t) xs entries)).
Proof.
  revert entries. induction xs as [|x xs IH]; intros entries H; simpl; [exact H|].
  apply IH. destruct (List.in_dec Nat.eq_dec x (members entries)) as [Hin|Hout].
  - now rewrite (Set_add_present x entries Hin).
  - rewrite (Set_add_absent x entries Hout), members_app, !List.length_app. simpl. lia.
Qed.

(** The callback of a listener of the start that keeps to itself and
    subscribes no listener of the start: it may empty its own entry, the
    entries not yet visited stay as they are, and what it subscribes goes
    after the entries of the start. *)
Lemma run_keeps_to_itself (start : list Listener) (l : Listener)
    (todo : list (option Listener)) (log : list Listener) (actions : list Action) :
  (forall a, In a actions ->
     a = Unsubscribe l \/ exists x, a = Subscribe x /\ ~ In x start) ->
  In l start -> incl (members todo) start -> ~ In l (members todo) ->
  forall done tail : list (option Listener),
    incl (members done) start -> (forall x, In x (members tail) -> ~ In x start) ->
    exists done',
      List.length done' = List.length done /\
      incl (members done') (members done) /\
      run actions {| listeners := done ++ todo ++ tail; calls := log |}
      = Returned {| listeners := done' ++ todo
                                   ++ fold_left (fun t x => Set_add x t)
                                        (Spec.subscribed actions) tail;
                    calls := log |}.
Proof.
  intros Hact Hl Htodo Hnot.
  induction actions as [|a actions IH]; intros done tail Hdone Htail.
  - exists done. split; [reflexivity|]. split; [apply incl_refl|reflexivity].
  - destruct (Hact a (or_introl eq_refl)) as [->|(x & -> & Hx)].
    + cbn [run Spec.subscribed]. unfold unsubscribe. cbn [listeners calls].
      unfold Set_delete. rewrite !List.map_app.
      fold (Set_delete l todo) (Set_delete l tail).
      rewrite (Set_delete_absent l todo Hnot).
      rewrite (Set_delete_absent l tail) by (intros H; exact (Htail l H Hl)).
      destruct (IH (fun a' Ha' => Hact a' (or_intror Ha'))
                   (List.map (fun e => if is_entry l e then None else e) done) tail)
        as (done' & Hlen & Hincl & Hrun).
      { eapply incl_tran; [apply members_Set_delete|exact Hdone]. }
      { exact Htail. }
      exists done'. rewrite List.length_map in Hlen. split; [exact Hlen|].
      split; [|exact Hrun]. eapply incl_tran; [exact Hincl|apply members_Set_delete].
    + cbn [run Spec.subscribed fold_left]. unfold subscribeTransactionsChanged.
      cbn [listeners calls].
      rewrite List.app_assoc, Set_add_app, <- List.app_assoc.
      2:{ rewrite members_app. intros H. apply List.in_app_iff in H as [H|H]; auto. }
      apply (IH (fun a' Ha' => Hact a' (or_intror Ha')) done (Set_add x tail) Hdone).
      intros y Hy. apply members_Set_add in Hy as [Hy| ->]; auto.
Qed.

(** Walking over a stretch of such listeners calls each of them once, in
    order, and leaves behind it the listeners they subscribed. *)
Lemma forEach_segment (callback : Listener -> list Action) (start : list Listener)
    (seg : list (option Listener)) :
  (forall l, In l (members seg) ->
     forall a, In a (callback l) ->
       a = Unsubscribe l \/ exists x, a = Subscribe x /\ ~ In x start) ->
  incl (members seg) start -> List.NoDup (members seg) ->
  forall (done tail : list (option Listener)) (log : list Listener) (fuel : nat),
    incl (members done) start -> (forall x, In x (members tail) -> ~ In x start) ->
    exists done',
      List.length done' = (List.length done + List.length seg)%nat /\
      incl (members done') start /\
      forEach callback (List.length seg + fuel) (List.length done)
        {| listeners := done ++ seg ++ tail; calls := log |}
      = forEach callback fuel (List.length done')
          {| listeners :=
               done' ++ fold_left (fun t x => Set_add x t)
                          (flat_map (fun l => Spec.subscribed (callback l)) (members seg))
                          tail;
             calls := (log ++ members seg)%list |}.
Proof.
  induction seg as [|e seg IH]; intros Hact Hin Hnd done tail log fuel Hdone Htail.
  - exists done. simpl. rewrite !List.app_nil_r.
    split; [lia|]. split; [exact Hdone|reflexivity].
  - change ((e :: seg) ++ tail)%list with (e :: seg ++ tail) in *.
    cbn [List.length Nat.add forEach]. cbn [listeners].
    rewrite (nth_error_middle done (seg ++ tail) e).
    destruct e as [l|].
    + simpl in Hnd, Hin. inversion Hnd as [|? ? Hnot Hrest]; subst.
      assert (Hl : In l start) by (apply Hin; now left).
      unfold invoke. cbn [listeners calls].
      replace (done ++ Some l :: seg ++ tail)%list
        with ((done ++ [Some l]) ++ seg ++ tail)%list
        by (rewrite <- List.app_assoc; reflexivity).
      destruct (run_keeps_to_itself start l seg (log ++ [l]) (callback l)
                  (Hact l (or_introl eq_refl)) Hl
                  (fun x Hx => Hin x (or_intror Hx)) Hnot (done ++ [Some l])%list tail)
        as (d1 & Hlen1 & Hincl1 & ->).
      { rewrite members_app. simpl. intros x Hx.
        apply List.in_app_iff in Hx as [Hx|[<-|[]]]; auto. }
      { exact Htail. }
      destruct (IH (fun l' Hl' => Hact l' (or_intror Hl'))
                   (fun x Hx => Hin x (or_intror Hx)) Hrest d1
                   (fold_left (fun t x => Set_add x t) (Spec.subscribed (callback l)) tail)
                   (log ++ [l])%list fuel)
        as (d2 & Hlen2 & Hincl2 & Hrun).
      { intros x Hx. apply Hincl1 in Hx. rewrite members_app in Hx. simpl in Hx.
        apply List.in_app_iff in Hx as [Hx|[<-|[]]]; auto. }
      { intros x Hx. apply members_Set_add_all in Hx as [Hx|Hx]; [now apply Htail|].
        clear -Hx Hact. pose proof (Hact l (or_introl eq_refl)) as H.
        induction (callback l) as [|a acts IHa]; [destruct Hx|].
        destruct (H a (or_introl eq_refl)) as [->|(y & -> & Hy)]; simpl in Hx.
        - apply IHa; [exact Hx|]. intros a' Ha'. apply H. now right.
        - destruct Hx as [<-|Hx]; [exact Hy|].
          apply IHa; [exact Hx|]. intros a' Ha'. apply H. now right. }
      exists d2. rewrite List.length_app in Hlen1. simpl in Hlen1.
      split; [simpl; lia|]. split; [exact Hincl2|].
      replace (S (List.length done)) with (List.length d1) by lia.
      rewrite Hrun. cbn [members flat_map]. rewrite List.fold_left_app.
      now rewrite <- List.app_assoc.
    + simpl in Hnd, Hin.
      destruct (IH Hact Hin Hnd (done ++ [None])%list tail log fuel)
        as (d2 & Hlen2 & Hincl2 & Hrun).
      { rewrite members_app. simpl. now rewrite List.app_nil_r. }
      { exact Htail. }
      exists d2. rewrite List.length_app in Hlen2. simpl in Hlen2.
      split; [simpl; lia|]. split; [exact Hincl2|].
      rewrite List.length_app, <- List.app_assoc in Hrun. simpl in Hrun.
      rewrite Nat.add_1_r in Hrun. exact Hrun.
Qed.

Lemma forEach_past_end (callback : Listener -> list Action) (fuel i : nat) (b : Bus) :
  (List.length (listeners b) <= i)%nat -> forEach callback (S fuel) i b = Returned b.
Proof.
  intros H. simpl. now rewrite (proj2 (List.nth_error_None (listeners b) i) H).
Qed.

Lemma quiet_subscribed (callback : Listener -> list Action) (l : Listener) :
  Spec.quiet callback l -> Spec.subscribed (callback l) = [].
Proof.
  unfold Spec.quiet. induction (callback l) as [|a acts IH]; intros H; [reflexivity|].
  rewrite (H a (or_introl eq_refl)). simpl. apply IH. intros a' Ha'. apply H. now right.
Qed.

(** Walking over a stretch of quiet listeners calls each of them once, in
    order, and adds no entry. *)
Lemma forEach_quiet_segment (callback : Listener -> list Action)
    (seg : list (option Listener)) :
  (forall l, In l (members seg) -> Spec.quiet callback l) ->
  List.NoDup (members seg) ->
  forall (done : list (option Listener)) (log : list Listener) (extra : nat),
    forEach callback (List.length seg + S extra) (List.length done)
      {| listeners := done ++ seg; calls := log |}
    = Returned (bus_of (forEach callback (List.length seg + S extra) (List.length done)
                          {| listeners := done ++ seg; calls := log |})) /\
    calls (bus_of (forEach callback (List.length seg + S extra) (List.length done)
                     {| listeners := done ++ seg; calls := log |}))
    = (log ++ members seg)%list.
Proof.
  intros Hq Hnd done log extra.
  destruct (forEach_segment callback (members seg ++ members done) seg) with
    (done := done) (tail := @nil (option Listener)) (log := log) (fuel := S extra)
    as (d1 & Hlen & _ & Hrun).
  - intros l Hl a Ha. left. now apply (Hq l Hl).
  - apply incl_appl, incl_refl.
  - exact Hnd.
  - apply incl_appr, incl_refl.
  - intros x [].
  - rewrite List.app_nil_r in Hrun. rewrite Hrun.
    assert (E : flat_map (fun l => Spec.subscribed (callback l)) (members seg) = []).
    { clear -Hq. induction (members seg) as [|l ls IH]; [reflexivity|]. simpl.
      rewrite (quiet_subscribed callback l) by (apply Hq; now left).
      apply IH. intros l' Hl'. apply Hq. now right. }
    rewrite E. cbn [fold_left]. rewrite List.app_nil_r.
    rewrite forEach_past_end by (cbn [listeners]; lia). split; reflexivity.
Qed.

Lemma members_skipn_Set_delete (n : nat) (l : Listener) (entries : list (option Listener)) :
  incl (members (skipn n (Set_delete l entries))) (members (skipn n entries)).
Proof.
  unfold Set_delete. rewrite List.skipn_map. apply members_Set_delete.
Qed.

(** Past the entries of the start, whatever the listeners do, short of
    subscribing a listener of the start, no listener of the start is
    called. *)
Lemma run_beyond (start : list Listener) (n : nat) (actions : list Action) :
  (forall x, In (Subscribe x) actions -> ~ In x start) ->
  forall b : Bus,
    (n <= List.length (listeners b))%nat ->
    (forall x, In x (members (skipn n (listeners b))) -> ~ In x start) ->
    (n <= List.length (listeners (bus_of (run actions b))))%nat /\
    (forall x, In x (members (skipn n (listeners (bus_of (run actions b))))) ->
       ~ In x start) /\
    calls (bus_of (run actions b)) = calls b.
Proof.
  induction actions as [|a actions IH]; intros Hsub b Hlen Hout; [simpl; auto|].
  assert (Hrest : forall x, In (Subscribe x) actions -> ~ In x start)
    by (intros x Hx; apply Hsub; now right).
  destruct a as [x|x|]; cbn [run]; [| |simpl; auto].
  - destruct (IH Hrest (subscribeTransactionsChanged x b)) as (H1 & H2 & H3).
    + cbn [subscribeTransactionsChanged listeners]. unfold Set_add.
      destruct (existsb _ _); [exact Hlen|]. rewrite List.length_app. lia.
    + cbn [subscribeTransactionsChanged listeners]. unfold Set_add.
      destruct (existsb _ _); [exact Hout|].
      rewrite List.skipn_app, members_app.
      replace (n - List.length (listeners b))%nat with 0%nat by lia. simpl.
      intros y Hy. apply List.in_app_iff in Hy as [Hy|[<-|[]]]; [now apply Hout|].
      apply Hsub. now left.
    + auto.
  - destruct (IH Hrest (unsubscribe x b)) as (H1 & H2 & H3).
    + cbn [unsubscribe listeners]. unfold Set_delete. now rewrite List.length_map.
    + cbn [unsubscribe listeners]. intros y Hy. apply Hout.
      now apply (members_skipn_Set_delete n x).
    + auto.
Qed.

Lemma nth_error_beyond (n i : nat) (l : Listener) (entries : list (option Listener)) :
  (n <= i)%nat -> nth_error entries i = Some (Some l) -> In l (members (skipn n entries)).
Proof.
  intros Hn H. apply In_members.
  replace i with (n + (i - n))%nat in H by lia. rewrite <- List.nth_error_skipn in H.
  eapply List.nth_error_In. exact H.
Qed.

Lemma forEach_beyond (callback : Listener -> list Action) (start : list Listener) (n : nat) :
  (forall l x, In (Subscribe x) (callback l) -> ~ In x start) ->
  forall (fuel i : nat) (b : Bus),
    (n <= i)%nat -> (n <= List.length (listeners b))%nat ->
    (forall x, In x (members (skipn n (listeners b))) -> ~ In x start) ->
    exists late,
      calls (bus_of (forEach callback fuel i b)) = (calls b ++ late)%list /\
      forall x, In x late -> ~ In x start.
Proof.
  intros Hsub. induction fuel as [|fuel IH]; intros i b Hi Hlen Hout.
  - exists []. simpl. rewrite List.app_nil_r. split; [reflexivity|intros x []].
  - cbn [forEach]. destruct (nth_error (listeners b) i) as [[l|]|] eqn:E.
    + pose proof (nth_error_beyond n i l (listeners b) Hi E) as Hl.
      unfold invoke.
      destruct (run_beyond start n (callback l) (Hsub l)
                  {| listeners := listeners b; calls := calls b ++ [l] |} Hlen Hout)
        as (H1 & H2 & H3).
      destruct (run (callback l) {| listeners := listeners b; calls := calls b ++ [l] |})
        as [b1|b1|b1]; cbn [bus_of calls] in *.
      * destruct (IH (S i) b1) as (late & Hc & Hlate); [lia|exact H1|exact H2|].
        exists (l :: late). rewrite Hc, H3, <- List.app_assoc. split; [reflexivity|].
        intros x [<-|Hx]; auto.
      * exists [l]. split; [exact H3|]. intros x [<-|[]]. auto.
      * exists [l]. split; [exact H3|]. intros x [<-|[]]. auto.
    + destruct (IH (S i) b) as (late & Hc & Hlate); [lia|exact Hlen|exact Hout|].
      exists late. auto.
    + exists []. simpl. rewrite List.app_nil_r. split; [reflexivity|intros x []].
Qed.

Lemma subscribed_In (actions : list Action) (x : Listener) :
  In x (Spec.subscribed actions) <-> In (Subscribe x) actions.
Proof.
  induction actions as [|[y|y|] actions IH]; simpl; [tauto| | |].
  - rewrite IH. split; intros [H|H]; auto; left; congruence.
  - rewrite IH. split; [auto|]. intros [H|H]; [discriminate|exact H].
  - rewrite IH. split; [auto|]. intros [H|H]; [discriminate|exact H].
Qed.

(** C3, as the code has it.  The listeners are walked in a live [Set].
    On a bus whose listeners, pairwise distinct, neither throw nor
    unsubscribe a listener other than themselves:
    - when no callback subscribes a listener that was subscribed at the
      start of the call, then, whatever else the listeners that get
      subscribed during the call do, each listener subscribed at the start
      is invoked exactly once, in subscription order and before any other
      listener, within as many steps as the set has entries;
    - when the listeners subscribed by those callbacks were not subscribed
      at the start and themselves do nothing to the bus but possibly
      unsubscribe themselves, the call returns, and has invoked each
      listener subscribed at the start exactly once and then, in that same
      pass, each listener subscribed during the call, exactly once. *)
Theorem publish_walks_live_set (callback : Listener -> list Action) (b : Bus) :
  let start := members (listeners b) in
  List.NoDup start ->
  (forall l, In l start -> Spec.keeps_to_itself callback l) ->
  ((forall l x, In (Subscribe x) (callback l) -> ~ In x start) ->
   forall fuel, (List.length (listeners b) <= fuel)%nat ->
   exists late,
     calls (bus_of (emitTransactionsChanged callback fuel b))
     = (calls b ++ start ++ late)%list /\
     forall x, In x late -> ~ In x start) /\
  ((forall l x, In l start -> In (Subscribe x) (callback l) ->
      ~ In x start /\ Spec.quiet callback x) ->
   exists late,
     List.NoDup late /\
     (forall x, In x late <-> exists l, In l start /\ In (Subscribe x) (callback l)) /\
     forall extra, exists b',
       emitTransactionsChanged callback
         (List.length (listeners b) + List.length late + S extra) b = Returned b' /\
       calls b' = (calls b ++ start ++ late)%list).
Proof.
  destruct b as [s log]. cbv zeta. cbn [listeners calls].
  set (start := members s). intros Hnd Hkeep.
  set (targets := flat_map (fun l => Spec.subscribed (callback l)) start).
  set (tail := fold_left (fun t x => Set_add x t) targets (@nil (option Listener))).
  assert (Htargets : forall x, In x targets
                               <-> exists l, In l start /\ In (Subscribe x) (callback l)).
  { intros x. unfold targets. rewrite List.in_flat_map.
    split; intros (l & Hl & Hx); exists l; (split; [exact Hl|]); now apply subscribed_In. }
  assert (Hwalk : (forall l x, In l start -> In (Subscribe x) (callback l) -> ~ In x start) ->
            forall fuel, exists done,
              List.length done = List.length s /\
              forEach callback (List.length s + fuel) 0 {| listeners := s; calls := log |}
              = forEach callback fuel (List.length done)
                  {| listeners := done ++ tail; calls := (log ++ start)%list |}).
  { intros Hfresh fuel.
    destruct (forEach_segment callback start s) with
      (done := @nil (option Listener)) (tail := @nil (option Listener)) (log := log)
      (fuel := fuel) as (d1 & Hlen & _ & Hrun).
    - intros l Hl a Ha. destruct (Hkeep l Hl a Ha) as [->|(x & ->)]; [now left|right].
      exists x. split; [reflexivity|]. now apply (Hfresh l).
    - apply incl_refl.
    - exact Hnd.
    - intros x [].
    - intros x [].
    - exists d1. split; [exact Hlen|]. cbn [List.app List.length] in Hrun.
      rewrite List.app_nil_r in Hrun. exact Hrun. }
  assert (Htail : forall x, In x (members tail) <-> In x targets).
  { intros x. unfold tail. rewrite members_Set_add_all. simpl. tauto. }
  split.
  - intros Hfresh fuel Hfuel. unfold emitTransactionsChanged.
    replace fuel with (List.length s + (fuel - List.length s))%nat by lia.
    destruct (Hwalk (fun l x _ => Hfresh l x) (fuel - List.length s)%nat)
      as (done & Hlen & ->).
    destruct (forEach_beyond callback start (List.length s) Hfresh
                (fuel - List.length s) (List.length done)
                {| listeners := done ++ tail; calls := (log ++ start)%list |})
      as (late & Hc & Hlate).
    + lia.
    + cbn [listeners]. rewrite List.length_app. lia.
    + cbn [listeners]. rewrite <- Hlen, List.skipn_app, List.skipn_all, Nat.sub_diag.
      simpl. intros x Hx. apply Htail, Htargets in Hx as (l & Hl & Hx).
      now apply (Hfresh l).
    + exists late. cbn [calls] in Hc. now rewrite Hc, <- List.app_assoc.
  - intros Hlate. exists (members tail).
    split; [apply NoDup_members_Set_add_all; constructor|].
    split; [intros x; now rewrite Htail|].
    intros extra. unfold emitTransactionsChanged.
    rewrite <- Nat.add_assoc.
    destruct (Hwalk (fun l x Hl Hx => proj1 (Hlate l x Hl Hx))
                (List.length (members tail) + S extra)%nat) as (done & Hlen & ->).
    assert (Hall : List.length tail = List.length (members tail))
      by (apply length_Set_add_all; reflexivity).
    rewrite <- Hall.
    destruct (forEach_quiet_segment callback tail) with (done := done)
      (log := (log ++ start)%list) (extra := extra) as [Hret Hcalls].
    + intros x Hx. apply Htail, Htargets in Hx as (l & Hl & Hx).
      now apply (Hlate l x Hl).
    + apply NoDup_members_Set_add_all. constructor.
    + eexists. split; [exact Hret|]. rewrite Hcalls. now rewrite <- List.app_assoc.
Qed.

Lemma fixture_bus_NoDup : List.NoDup (members (listeners Fixture.bus)).
Proof. simpl. repeat constructor; simpl; intuition discriminate. Defined.

Lemma publish_walks_live_set_witness :
  exists b',
    emitTransactionsChanged Fixture.callback 4 Fixture.bus = Returned b' /\
    calls b' = [0; 2; 1]%nat.
Proof.
  destruct (publish_walks_live_set Fixture.callback Fixture.bus fixture_bus_NoDup)
    as [_ Hlate].
  { intros l Hl a Ha. simpl in Hl. destruct Hl as [<-|[<-|[]]]; simpl in Ha.
    - destruct Ha as [<-|[]]. right. eauto.
    - destruct Ha. }
  destruct Hlate as (late & Hnd & Hlate & Hrun).
  { intros l x Hl Hx. simpl in Hl. destruct Hl as [<-|[<-|[]]]; simpl in Hx.
    - destruct Hx as [[= <-]|[]]. split; [simpl; intuition discriminate|intros a []].
    - destruct Hx. }
  assert (E : late = [1%nat]).
  { assert (H1 : In 1%nat late) by (apply Hlate; exists 0%nat; simpl; auto).
    assert (Hall : forall x, In x late -> x = 1%nat).
    { intros x Hx. apply Hlate in Hx as (l & Hl & Hx). simpl in Hl.
      destruct Hl as [<-|[<-|[]]]; simpl in Hx; [|destruct Hx].
      destruct Hx as [[= <-]|[]]. reflexivity. }
    destruct late as [|y [|z late]]; [destruct H1| |].
    - now rewrite (Hall y (or_introl eq_refl)).
    - exfalso. inversion Hnd as [|? ? Hnot _]; subst. apply Hnot.
      rewrite (Hall y), (Hall z); simpl; auto. }
  subst late. destruct (Hrun 0%nat) as (b' & Hb' & Hc). exists b'. auto.
Defined.

(** C3, as the specification has it, fails on the code.  On a bus with
    listeners 0 and 2 subscribed:
    - listener 1, subscribed by listener 0 from inside its callback during
      the pass and not subscribed before, is invoked in that same pass;
    - when listener 0 instead unsubscribes listener 2, listener 2, which
      was subscribed at the start of the call, is not invoked at all;
    - when listener 0 instead throws, the exception leaves the call and
      listener 2 is not invoked either. *)
Lemma publish_is_not_a_snapshot :
  members (listeners Fixture.bus) = [0; 2]%nat /\
  (exists b',
     emitTransactionsChanged Fixture.callback 4 Fixture.bus = Returned b' /\
     In (Subscribe 1) (Fixture.callback 0) /\
     ~ In 1%nat (members (listeners Fixture.bus)) /\
     In 1%nat (calls b')) /\
  (exists b',
     emitTransactionsChanged Fixture.callback_unsubscribing 4 Fixture.bus = Returned b' /\
     In 2%nat (members (listeners Fixture.bus)) /\
     ~ In 2%nat (calls b')) /\
  (exists b',
     emitTransactionsChanged Fixture.callback_throwing 4 Fixture.bus = Thrown b' /\
     In 2%nat (members (listeners Fixture.bus)) /\
     ~ In 2%nat (calls b')).
Proof.
  split; [reflexivity|]. split; [|split].
  - eexists. split; [reflexivity|]. simpl. intuition discriminate.
  - eexists. split; [reflexivity|]. simpl. intuition discriminate.
  - eexists. split; [reflexivity|]. simpl. intuition discriminate.
Qed.

(** * Further properties of the storage module *)

(** ** What a call leaves of the tables *)

Lemma call_read_only {A} (sql : string) (read : Database -> A) :
  Spec.read_only (call sql read (fun d => d)).
Proof.
  intros w r w'. unfold call, pop_fault.
  destruct (faults w) as [|[e|] fs]; intros [= <- <-]; reflexivity.
Qed.

Lemma call_all_or_nothing {A} (sql : string) (read : Database -> A)
    (write : Database -> Database) :
  Spec.all_or_nothing (call sql read write).
Proof.
  intros w e w'. unfold call, pop_fault.
  destruct (faults w) as [|[e0|] fs]; intros [= <- <-]; reflexivity.
Qed.

Lemma getDb_read_only : Spec.read_only getDb.
Proof.
  intros w r w'. unfold getDb. destruct (platform_web w); [intros [= <- <-]; reflexivity|].
  destruct (dbPromise w) as [[[]|e]|] eqn:E.
  - rewrite E. intros [= <- <-]. reflexivity.
  - rewrite E. intros [= <- <-]. reflexivity.
  - unfold openDatabaseAsync, pop_fault.
    destruct (faults w) as [|[e|] fs]; simpl; intros [= <- <-]; reflexivity.
Qed.

Lemma bind_read_only {A B} (m : Async.T A) (k : A -> Async.T B) :
  Spec.read_only m -> (forall a, Spec.read_only (k a)) -> Spec.read_only (m ≫= k).
Proof.
  intros Hm Hk w r w'. rewrite bind_run. destruct (m w) as [[a|e] w1] eqn:E.
  - intros H. rewrite (Hk a w1 r w' H). exact (Hm w _ w1 E).
  - intros [= <- <-]. exact (Hm w _ w1 E).
Qed.

Lemma ret_read_only {A} (a : A) : Spec.read_only (mret a : Async.T A).
Proof. intros w r w' [= <- <-]. reflexivity. Qed.

Lemma for_of_read_only {A S} (xs : list A) (body : A -> S -> Async.T S) :
  (forall x s, Spec.read_only (body x s)) -> forall s, Spec.read_only (for_of xs body s).
Proof.
  intros Hbody. induction xs as [|x xs IH]; intros s; simpl.
  - apply (ret_read_only s).
  - apply (bind_read_only (body x s) (for_of xs body)); auto.
Qed.

Lemma getDb_then_all_or_nothing {A} (m : Async.T A) :
  Spec.all_or_nothing m -> Spec.all_or_nothing (_ ← getDb; m).
Proof.
  intros Hm w e w'. rewrite bind_run. destruct (getDb w) as [[[]|e0] w1] eqn:E.
  - intros H. rewrite (Hm w1 e w' H). exact (getDb_read_only w _ w1 E).
  - intros [= <- <-]. exact (getDb_read_only w _ w1 E).
Qed.

(** X1.  The reading functions never write.  In any world, with or
    without faults, and however they settle, [initDb], [getTransactions],
    [getTransactionsForMonth], [getMonthlyCategoryTotals],
    [getMonthlyBudgets] and both resolvers leave the two tables exactly
    as they found them. *)
Theorem readers_never_write (monthStart monthEnd month : string) (categories : list string) :
  Spec.read_only initDb /\
  Spec.read_only getTransactions /\
  Spec.read_only (getTransactionsForMonth monthStart monthEnd) /\
  Spec.read_only (getMonthlyCategoryTotals monthStart monthEnd) /\
  Spec.read_only (getMonthlyBudgets month) /\
  Spec.read_only (getMonthlyBudgetsWithFallback month categories) /\
  Spec.read_only (getMonthlyBudgetsWithFallbackStatus month categories).
Proof.
  repeat split.
  - unfold initDb. repeat (apply bind_read_only; [try apply getDb_read_only;
      try apply call_read_only|intros []]). apply (ret_read_only tt).
  - apply bind_read_only; [apply getDb_read_only|intros []]. apply call_read_only.
  - apply bind_read_only; [apply getDb_read_only|intros []]. apply call_read_only.
  - apply bind_read_only; [apply getDb_read_only|intros []]. apply call_read_only.
  - apply bind_read_only; [apply getDb_read_only|intros []]. apply call_read_only.
  - apply bind_read_only; [apply getDb_read_only|intros []].
    apply for_of_read_only. intros c acc.
    apply bind_read_only; [apply call_read_only|]. intros row. apply ret_read_only.
  - apply bind_read_only; [apply getDb_read_only|intros []].
    apply for_of_read_only. intros c acc.
    unfold getMonthlyBudgetsWithFallbackStatus_body.
    apply bind_read_only; [apply call_read_only|]. intros [row|]; [apply ret_read_only|].
    apply bind_read_only; [apply call_read_only|]. intros row. apply ret_read_only.
Qed.

(** X2.  The writing functions are all-or-nothing.  In any world, when
    [insertTransaction], [updateTransaction], [deleteTransactions],
    [upsertBudget] or [deleteBudgetForMonth] rejects, both tables are
    exactly as before the call. *)
Theorem writers_all_or_nothing (amount : Q) (category : string) (label : option string)
    (date month : string) (id : Z) (ids : list Z) :
  Spec.all_or_nothing (insertTransaction amount category label date) /\
  Spec.all_or_nothing (updateTransaction id amount category label date) /\
  Spec.all_or_nothing (deleteTransactions ids) /\
  Spec.all_or_nothing (upsertBudget month category amount) /\
  Spec.all_or_nothing (deleteBudgetForMonth month category).
Proof.
  repeat split; try (apply getDb_then_all_or_nothing, call_all_or_nothing).
  unfold deleteTransactions. destruct (List.length ids =? 0)%nat.
  - intros w e w' H. discriminate.
  - apply getDb_then_all_or_nothing, call_all_or_nothing.
Qed.

(** ** Opening the database *)

Lemma getDb_rejected_then {A} (m : Async.T A) (w w' : World) (e : Error) :
  getDb w = (Rejected e, w') -> (_ ← getDb; m) w = (Rejected e, w').
Proof. intros H. now rewrite bind_run, H. Qed.

Lemma getDb_cached (w : World) (p : Settled unit) :
  platform_web w = false -> dbPromise w = Some p -> getDb w = (p, w).
Proof.
  intros Hweb Hp. unfold getDb. rewrite Hweb, Hp. simpl. rewrite Hp.
  now destruct p as [[]|e].
Qed.

(** X3.  [getDb] opens the database at most once.  Off the web platform,
    whatever a call to [getDb] settles with is stored in [dbPromise]; the
    first call makes exactly one driver call, [openDatabaseAsync], and a
    call made when [dbPromise] is already set settles in the same way
    without any driver call and leaves the world as it is. *)
Theorem getDb_opens_once (w w' : World) (r : Settled unit) :
  platform_web w = false -> getDb w = (r, w') ->
  dbPromise w' = Some r /\
  getDb w' = (r, w') /\
  (dbPromise w = None -> trace w' = (trace w ++ ["openDatabaseAsync spending.db"])%list) /\
  (dbPromise w <> None -> w' = w).
Proof.
  intros Hweb H.
  assert (Hp : dbPromise w' = Some r /\ platform_web w' = false /\
               (dbPromise w = None ->
                trace w' = (trace w ++ ["openDatabaseAsync spending.db"])%list) /\
               (dbPromise w <> None -> w' = w)).
  { destruct (dbPromise w) as [p|] eqn:E.
    - rewrite (getDb_cached w p Hweb E) in H. inversion H; subst.
      repeat split; auto. congruence.
    - unfold getDb in H. rewrite Hweb, E in H.
      unfold openDatabaseAsync, pop_fault in H.
      destruct (faults w) as [|[e|] fs]; simpl in H; inversion H; subst; simpl;
        repeat split; auto; congruence. }
  destruct Hp as (Hp & Hweb' & Hfirst & Hlater).
  repeat split; auto. now apply getDb_cached.
Qed.

Lemma getDb_opens_once_witness :
  exists w',
    getDb Fixture.unopened_world = (Rejected (mkError "unable to open database file"), w') /\
    faults w' = [] /\
    getDb w' = (Rejected (mkError "unable to open database file"), w').
Proof.
  eexists. split; [reflexivity|]. split; [reflexivity|].
  exact (proj1 (proj2 (getDb_opens_once Fixture.unopened_world _ _ eq_refl eq_refl))).
Defined.

(** X4.  A failed attempt to open the database is never retried.  Off the
    web platform, once [dbPromise] holds a rejection with error [e], every
    function of the module that needs the database rejects with [e], makes
    no driver call and changes nothing, even when the driver would now
    work; only [deleteTransactions] with no id fulfils. *)
Theorem failed_open_is_never_retried (w : World) (e : Error) (amount : Q)
    (category month monthEnd : string) (label : option string) (id : Z) (ids : list Z)
    (categories : list string) :
  platform_web w = false -> dbPromise w = Some (Rejected e) ->
  initDb w = (Rejected e, w) /\
  insertTransaction amount category label month w = (Rejected e, w) /\
  getTransactions w = (Rejected e, w) /\
  getTransactionsForMonth month monthEnd w = (Rejected e, w) /\
  updateTransaction id amount category label month w = (Rejected e, w) /\
  (ids <> [] -> deleteTransactions ids w = (Rejected e, w)) /\
  deleteTransactions [] w = (Fulfilled tt, w) /\
  getMonthlyCategoryTotals month monthEnd w = (Rejected e, w) /\
  getMonthlyBudgets month w = (Rejected e, w) /\
  getMonthlyBudgetsWithFallback month categories w = (Rejected e, w) /\
  getMonthlyBudgetsWithFallbackStatus month categories w = (Rejected e, w) /\
  upsertBudget month category amount w = (Rejected e, w) /\
  deleteBudgetForMonth month category w = (Rejected e, w).
Proof.
  intros Hweb Hp. pose proof (getDb_cached w _ Hweb Hp) as H.
  repeat split; try (now apply getDb_rejected_then).
  intros Hids. destruct ids as [|i ids]; [congruence|]. now apply getDb_rejected_then.
Qed.

Lemma failed_open_is_never_retried_witness :
  insertTransaction 5 "fun" None "2024-06-02" Fixture.broken_world
  = (Rejected (mkError "unable to open database file"), Fixture.broken_world).
Proof.
  exact (proj1 (proj2 (failed_open_is_never_retried Fixture.broken_world
           (mkError "unable to open database file") 5 "fun" "2024-06-02" "" None 0 [] []
           eq_refl eq_refl))).
Defined.

(** X5.  On the web platform nothing reaches the driver.  Every function
    of the module that needs the database rejects with the message of
    [getDb], without a driver call and without changing the world; only
    [deleteTransactions] with no id fulfils. *)
Theorem web_platform_rejects_everything (w : World) (amount : Q)
    (category month monthEnd : string) (label : option string) (id : Z) (ids : list Z)
    (categories : list string) :
  platform_web w = true ->
  let e := mkError "SQLite is not available on web without SharedArrayBuffer support." in
  initDb w = (Rejected e, w) /\
  insertTransaction amount category label month w = (Rejected e, w) /\
  getTransactions w = (Rejected e, w) /\
  getTransactionsForMonth month monthEnd w = (Rejected e, w) /\
  updateTransaction id amount category label month w = (Rejected e, w) /\
  (ids <> [] -> deleteTransactions ids w = (Rejected e, w)) /\
  deleteTransactions [] w = (Fulfilled tt, w) /\
  getMonthlyCategoryTotals month monthEnd w = (Rejected e, w) /\
  getMonthlyBudgets month w = (Rejected e, w) /\
  getMonthlyBudgetsWithFallback month categories w = (Rejected e, w) /\
  getMonthlyBudgetsWithFallbackStatus month categories w = (Rejected e, w) /\
  upsertBudget month category amount w = (Rejected e, w) /\
  deleteBudgetForMonth month category w = (Rejected e, w).
Proof.
  intros Hweb e.
  assert (H : getDb w = (Rejected e, w)) by (unfold getDb; now rewrite Hweb).
  repeat split; try (now apply getDb_rejected_then).
  intros Hids. destruct ids as [|i ids]; [congruence|]. now apply getDb_rejected_then.
Qed.

Lemma web_platform_rejects_everything_witness :
  getMonthlyBudgetsWithFallbackStatus "2024-06" Screens.categories Fixture.web_world
  = (Rejected (mkError "SQLite is not available on web without SharedArrayBuffer support."),
     Fixture.web_world).
Proof.
  destruct (web_platform_rejects_everything Fixture.web_world 0 "" "2024-06" "" None 0 []
              Screens.categories eq_refl) as (_ & _ & _ & _ & _ & _ & _ & _ & _ & _ & H & _).
  exact H.
Defined.

(** ** The transactions table *)

Lemma fulfils_det {A} (m : Async.T A) (w : World) a d a' d' :
  fulfils m w a d -> fulfils m w a' d' -> a = a' /\ d = d'.
Proof.
  intros (w1 & H1 & _ & D1) (w2 & H2 & _ & D2). rewrite H1 in H2.
  inversion H2; subst. auto.
Qed.

Lemma insert_ordered_perm {A} (before : A -> A -> bool) (x : A) (l : list A) :
  Permutation (insert_ordered before x l) (x :: l).
Proof.
  induction l as [|y l IH]; simpl; [reflexivity|].
  destruct (before x y); [reflexivity|].
  rewrite IH. apply perm_swap.
Qed.

Lemma order_by_perm {A} (before : A -> A -> bool) (l : list A) :
  Permutation (order_by before l) l.
Proof.
  induction l as [|x l IH]; simpl; [reflexivity|].
  rewrite insert_ordered_perm. now constructor.
Qed.

Lemma insert_ordered_sorted {A} (before : A -> A -> bool) (x : A) (l : list A) :
  (forall a b, before a b = true \/ before b a = true) ->
  Sorted (fun a b => before a b = true) l ->
  Sorted (fun a b => before a b = true) (insert_ordered before x l).
Proof.
  intros Htotal. induction l as [|y l IH]; intros Hs; simpl.
  - repeat constructor.
  - destruct (before x y) eqn:E.
    + constructor; [assumption|]. now constructor.
    + inversion Hs as [|? ? Hl Hhd]; subst. constructor; [now apply IH|].
      assert (Hyx : before y x = true) by (destruct (Htotal x y); congruence).
      destruct l as [|z l]; simpl; [now constructor|].
      destruct (before x z); constructor; auto. now inversion Hhd.
Qed.

Lemma order_by_sorted {A} (before : A -> A -> bool) (l : list A) :
  (forall a b, before a b = true \/ before b a = true) ->
  (forall a b c, before a b = true -> before b c = true -> before a c = true) ->
  StronglySorted (fun a b => before a b = true) (order_by before l).
Proof.
  intros Htotal Htrans. apply Sorted_StronglySorted; [exact Htrans|].
  induction l as [|x l IH]; simpl; [constructor|]. now apply insert_ordered_sorted.
Qed.

Lemma getTransactions_fulfils (w : World) :
  healthy w -> fulfils getTransactions w (select_transactions (db w)) (db w).
Proof.
  intros Hw. unfold getTransactions.
  eapply bind_fulfils; [apply getDb_fulfils, Hw|].
  intros w1 Hw1 Hd1. pose proof (call_fulfils
    "SELECT id, amount, category, label, date FROM transactions ORDER BY id DESC"
    select_transactions (fun d => d) w1 Hw1) as H.
  now rewrite Hd1 in H.
Qed.

(** X6.  [getTransactions] lists every transaction, most recent id first.
    In a healthy world it fulfils with a rearrangement of the rows of the
    table, no row lost or repeated, in which every row comes before the
    rows of smaller id. *)
Theorem getTransactions_most_recent_first (w : World) :
  healthy w ->
  exists rows,
    fulfils getTransactions w rows (db w) /\
    Permutation rows (transactions (db w)) /\
    StronglySorted (fun x y => (id y <= id x)%Z) rows.
Proof.
  intros Hw. exists (select_transactions (db w)).
  split; [now apply getTransactions_fulfils|]. split; [apply order_by_perm|].
  unfold select_transactions.
  eapply StronglySorted_ind with (P := StronglySorted (fun x y => (id y <= id x)%Z));
    [constructor| |apply order_by_sorted].
  - intros a l _ IH Hall. constructor; [exact IH|].
    eapply List.Forall_impl; [|exact Hall]. intros b Hb. now apply Z.leb_le in Hb.
  - intros a b. destruct (Z.leb_spec (id b) (id a)); [now left|right].
    apply Z.leb_le. lia.
  - intros a b c Hab Hbc. apply Z.leb_le in Hab, Hbc. apply Z.leb_le. lia.
Qed.

Lemma getTransactions_most_recent_first_witness :
  exists rows,
    fulfils getTransactions Fixture.world rows (db Fixture.world) /\
    List.map id rows = [5; 4; 3; 2; 1]%Z.
Proof.
  destruct (getTransactions_most_recent_first Fixture.world fixture_world_healthy)
    as (rows & Hf & _ & _).
  exists rows. split; [exact Hf|].
  destruct (fulfils_det getTransactions Fixture.world rows (db Fixture.world)
              (select_transactions (db Fixture.world)) (db Fixture.world) Hf
              (getTransactions_fulfils Fixture.world fixture_world_healthy)) as [-> _].
  reflexivity.
Defined.

Lemma string_ltb_leb (a b : string) : String.ltb a b = true -> String.leb a b = true.
Proof.
  rewrite string_ltb_negb_leb, negb_true_iff. intros H.
  destruct (String.leb_total a b); congruence.
Qed.

Lemma string_ltb_trans (a b c : string) :
  String.ltb a b = true -> String.ltb b c = true -> String.ltb a c = true.
Proof.
  intros Hab Hbc. rewrite string_ltb_negb_leb, negb_true_iff.
  destruct (String.leb c a) eqn:E; [|reflexivity].
  apply string_ltb_leb in Hab.
  pose proof (string_leb_trans c a b E Hab) as H.
  rewrite string_ltb_negb_leb, H in Hbc. discriminate.
Qed.

Lemma date_desc_id_desc_spec (x y : TransactionRow) :
  date_desc_id_desc x y = true
  <-> String.ltb (date y) (date x) = true \/ (date y = date x /\ (id y <= id x)%Z).
Proof.
  unfold date_desc_id_desc.
  rewrite orb_true_iff, andb_true_iff, String.eqb_eq, Z.leb_le. reflexivity.
Qed.

Lemma date_desc_id_desc_total (x y : TransactionRow) :
  date_desc_id_desc x y = true \/ date_desc_id_desc y x = true.
Proof.
  rewrite !date_desc_id_desc_spec.
  destruct (String.ltb (date y) (date x)) eqn:Eyx; [now left; left|].
  destruct (String.ltb (date x) (date y)) eqn:Exy; [now right; left|].
  rewrite string_ltb_negb_leb, negb_false_iff in Eyx, Exy.
  pose proof (String.leb_antisym _ _ Eyx Exy) as Heq.
  destruct (Z.le_ge_cases (id y) (id x)); [left|right]; right; split; auto.
Qed.

Lemma date_desc_id_desc_trans (x y z : TransactionRow) :
  date_desc_id_desc x y = true -> date_desc_id_desc y z = true ->
  date_desc_id_desc x z = true.
Proof.
  rewrite !date_desc_id_desc_spec.
  intros [Hxy|[Exy Ixy]] [Hyz|[Eyz Iyz]].
  - left. eapply string_ltb_trans; eassumption.
  - left. now rewrite Eyz.
  - left. now rewrite <- Exy.
  - right. split; [congruence|lia].
Qed.

Lemma Permutation_filter_compat {A} (f : A -> bool) (l l' : list A) :
  Permutation l l' -> Permutation (List.filter f l) (List.filter f l').
Proof.
  induction 1 as [|x l l' _ IH|x y l|l l' l'' _ IH1 _ IH2]; simpl.
  - constructor.
  - destruct (f x); [now constructor|assumption].
  - destruct (f x), (f y); try reflexivity. apply perm_swap.
  - now transitivity (List.filter f l').
Qed.

Lemma getTransactionsForMonth_fulfils (ms me : string) (w : World) :
  healthy w ->
  fulfils (getTransactionsForMonth ms me) w (select_transactions_for_month ms me (db w)) (db w).
Proof.
  intros Hw. unfold getTransactionsForMonth.
  eapply bind_fulfils; [apply getDb_fulfils, Hw|].
  intros w1 Hw1 Hd1. pose proof (call_fulfils
    "SELECT id, amount, category, label, date FROM transactions WHERE date >= ? AND date < ? ORDER BY date DESC, id DESC"
    (select_transactions_for_month ms me) (fun d => d) w1 Hw1) as H.
  now rewrite Hd1 in H.
Qed.

(** X7.  [getTransactionsForMonth] lists the month's transactions, latest
    date first, the very rows that the totals are taken over.  In a healthy
    world it fulfils with the rows of the table dated in
    [[monthStart, monthEnd)], none lost or repeated, ordered by date
    descending and by id descending within a date; and for every category
    its rows in that list are, up to their order, the rows whose amounts
    [getMonthlyCategoryTotals] adds up for it.  (Nothing is said of the two
    sums: addition of doubles depends on the order.) *)
Theorem getTransactionsForMonth_lists_the_month (monthStart monthEnd : string) (w : World) :
  healthy w ->
  exists rows,
    fulfils (getTransactionsForMonth monthStart monthEnd) w rows (db w) /\
    Permutation rows (List.filter (in_range monthStart monthEnd) (transactions (db w))) /\
    (forall t, In t rows <->
       In t (transactions (db w)) /\ String.leb monthStart (date t) = true /\
       String.ltb (date t) monthEnd = true) /\
    StronglySorted
      (fun x y => String.ltb (date y) (date x) = true \/
                  (date y = date x /\ (id y <= id x)%Z)) rows /\
    (forall c,
       Permutation (List.filter (fun t => category t =? c) rows)
                   (Spec.in_month monthStart monthEnd c (transactions (db w)))).
Proof.
  intros Hw. exists (select_transactions_for_month monthStart monthEnd (db w)).
  pose proof (order_by_perm date_desc_id_desc
                (List.filter (in_range monthStart monthEnd) (transactions (db w)))) as Hperm.
  split; [now apply getTransactionsForMonth_fulfils|]. split; [exact Hperm|].
  split; [|split].
  - intros t. unfold select_transactions_for_month. split.
    + intros H. apply (Permutation_in _ Hperm) in H.
      apply List.filter_In in H as [Hin Hr]. unfold in_range in Hr.
      apply andb_true_iff in Hr. tauto.
    + intros (Hin & Hle & Hlt). apply (Permutation_in _ (Permutation_sym Hperm)).
      apply List.filter_In. split; [assumption|]. unfold in_range. now rewrite Hle, Hlt.
  - unfold select_transactions_for_month.
    eapply StronglySorted_ind
      with (P := StronglySorted
                   (fun x y => String.ltb (date y) (date x) = true \/
                               (date y = date x /\ (id y <= id x)%Z)));
      [constructor| |apply order_by_sorted].
    + intros a l _ IH Hall. constructor; [exact IH|].
      eapply List.Forall_impl; [|exact Hall]. intros b Hb.
      now apply date_desc_id_desc_spec.
    + apply date_desc_id_desc_total.
    + apply date_desc_id_desc_trans.
  - intros c. rewrite <- group_of_selected. now apply Permutation_filter_compat.
Qed.

Lemma getTransactionsForMonth_lists_the_month_witness :
  exists rows,
    fulfils (getTransactionsForMonth "2024-06-01" "2024-07-01") Fixture.world rows
      (db Fixture.world) /\
    List.map id rows = [4; 3; 2]%Z.
Proof.
  destruct (getTransactionsForMonth_lists_the_month "2024-06-01" "2024-07-01" Fixture.world
              fixture_world_healthy) as (rows & Hf & _).
  exists rows. split; [exact Hf|].
  destruct (fulfils_det _ _ _ _ _ _ Hf
              (getTransactionsForMonth_fulfils "2024-06-01" "2024-07-01" Fixture.world
                 fixture_world_healthy)) as [-> _].
  reflexivity.
Defined.

Lemma insertTransaction_fulfils (a : Q) (c : string) (l : option string) (dt : string)
    (w : World) :
  healthy w ->
  fulfils (insertTransaction a c l dt) w tt (insert_transaction a c l dt (db w)).
Proof.
  intros Hw. unfold insertTransaction.
  eapply bind_fulfils; [apply getDb_fulfils, Hw|].
  intros w1 Hw1 Hd1. rewrite <- Hd1. now apply call_fulfils.
Qed.

Lemma updateTransaction_fulfils (i : Z) (a : Q) (c : string) (l : option string)
    (dt : string) (w : World) :
  healthy w ->
  fulfils (updateTransaction i a c l dt) w tt (update_transaction i a c l dt (db w)).
Proof.
  intros Hw. unfold updateTransaction.
  eapply bind_fulfils; [apply getDb_fulfils, Hw|].
  intros w1 Hw1 Hd1. rewrite <- Hd1. now apply call_fulfils.
Qed.

Lemma update_transaction_ids (i : Z) (a : Q) (c : string) (l : option string) (dt : string)
    (d : Database) :
  List.map id (transactions (update_transaction i a c l dt d)) = List.map id (transactions d).
Proof.
  simpl. rewrite List.map_map. apply List.map_ext. intros t.
  now destruct (id t =? i)%Z.
Qed.

(** X8.  Transaction ids stay unique and are never reused.  In a healthy
    world whose transaction ids are pairwise distinct and at most the
    AUTOINCREMENT counter:
    - [insertTransaction] adds one row at the end of the table, with the
      given fields and an id greater than every id in the table, and
      changes no other row;
    - [updateTransaction] changes no id and keeps the number of rows;
    - [deleteTransactions] leaves the counter as it is, so that an id
      deleted now is not handed out again;
    and after each of them the ids are again pairwise distinct and at most
    the counter. *)
Theorem transaction_ids_unique_never_reused (w : World) :
  healthy w -> Spec.transactions_wf (db w) ->
  (forall a c l dt,
     exists d' t,
       fulfils (insertTransaction a c l dt) w tt d' /\
       transactions d' = (transactions (db w) ++ [t])%list /\
       amount t = a /\ category t = c /\ label t = l /\ date t = dt /\
       (forall t0, In t0 (transactions (db w)) -> (id t0 < id t)%Z) /\
       (transactions_seq (db w) < id t)%Z /\
       Spec.transactions_wf d') /\
  (forall i a c l dt,
     exists d',
       fulfils (updateTransaction i a c l dt) w tt d' /\
       List.map id (transactions d') = List.map id (transactions (db w)) /\
       Spec.transactions_wf d') /\
  (forall ids,
     exists d',
       fulfils (deleteTransactions ids) w tt d' /\
       transactions_seq d' = transactions_seq (db w) /\
       Spec.transactions_wf d').
Proof.
  intros Hw [Hnd Hle]. split; [|split].
  - intros a c l dt.
    exists (insert_transaction a c l dt (db w)),
      {| id := transactions_seq (db w) + 1; amount := a; category := c; label := l;
         date := dt |}.
    split; [now apply insertTransaction_fulfils|]. split; [reflexivity|].
    repeat (split; [reflexivity|]). split; [|split; [simpl; lia|]].
    + intros t0 Ht0. simpl. specialize (Hle t0 Ht0). lia.
    + split; simpl.
      * rewrite List.map_app. simpl. apply List.NoDup_app; [exact Hnd| |].
        -- repeat constructor. intros [].
        -- intros i Hi [<-|[]]. apply List.in_map_iff in Hi as (t0 & Hid & Ht0).
           specialize (Hle t0 Ht0). lia.
      * intros t Ht. apply List.in_app_iff in Ht as [Ht|[<-|[]]]; simpl; [|lia].
        specialize (Hle t Ht). lia.
  - intros i a c l dt. exists (update_transaction i a c l dt (db w)).
    split; [now apply updateTransaction_fulfils|].
    split; [apply update_transaction_ids|]. split.
    + now rewrite update_transaction_ids.
    + intros t Ht. simpl in *. apply List.in_map_iff in Ht as (t0 & <- & Ht0).
      specialize (Hle t0 Ht0). now destruct (id t0 =? i)%Z.
  - intros ids. exists (delete_transactions_in ids (db w)).
    split; [now apply deleteTransactions_fulfils|]. split; [reflexivity|]. split; simpl.
    + clear Hle. induction (transactions (db w)) as [|t ts IH]; simpl; [constructor|].
      simpl in Hnd. inversion Hnd as [|? ? Hnot Hrest]; subst.
      destruct (negb (existsb (Z.eqb (id t)) ids)); [|auto]. simpl. constructor; [|auto].
      intros Hin. apply Hnot. apply List.in_map_iff in Hin as (t0 & Hid & Ht0).
      apply List.filter_In in Ht0 as [Ht0 _]. rewrite <- Hid. now apply List.in_map.
    + intros t Ht. apply List.filter_In in Ht as [Ht _]. now apply Hle.
Qed.

Lemma fixture_transactions_wf : Spec.transactions_wf (db Fixture.world).
Proof.
  split.
  - simpl. repeat (constructor; [simpl; intuition discriminate|]). constructor.
  - intros t Ht. simpl in Ht.
    destruct Ht as [<-|[<-|[<-|[<-|[<-|[]]]]]]; simpl; lia.
Defined.

Lemma transaction_ids_unique_never_reused_witness :
  exists d' t,
    fulfils (insertTransaction 4 "fun" None "2024-06-20") Fixture.world tt d' /\
    transactions d' = (transactions (db Fixture.world) ++ [t])%list /\
    (transactions_seq (db Fixture.world) < id t)%Z.
Proof.
  destruct (transaction_ids_unique_never_reused Fixture.world fixture_world_healthy
              fixture_transactions_wf) as (Hins & _ & _).
  destruct (Hins 4%Q "fun" None "2024-06-20") as (d' & t & Hf & Ht & _ & _ & _ & _ & _ & Hseq & _).
  exists d', t. auto.
Defined.

(** X9.  [updateTransaction] replaces the fields of the row with the given
    id and nothing else.  In a healthy world it fulfils; afterwards every
    row with that id carries the new amount, category, label and date under
    its old id, every other row is unchanged and in its place, the Budget
    table is untouched; and when no row has that id the call still fulfils,
    without an error, and the database is exactly as before. *)
Theorem updateTransaction_replaces_fields (i : Z) (a : Q) (c : string) (l : option string)
    (dt : string) (w : World) :
  healthy w ->
  exists d',
    fulfils (updateTransaction i a c l dt) w tt d' /\
    List.length (transactions d') = List.length (transactions (db w)) /\
    (forall n t0, nth_error (transactions (db w)) n = Some t0 ->
       nth_error (transactions d') n
       = Some (if (id t0 =? i)%Z
               then {| id := i; amount := a; category := c; label := l; date := dt |}
               else t0)) /\
    budgets d' = budgets (db w) /\
    ((forall t0, In t0 (transactions (db w)) -> id t0 <> i) -> d' = db w).
Proof.
  intros Hw. exists (update_transaction i a c l dt (db w)).
  split; [now apply updateTransaction_fulfils|]. split; [apply List.length_map|].
  split; [|split; [reflexivity|]].
  - intros n t0 Hn. simpl. rewrite List.nth_error_map, Hn. simpl.
    destruct (Z.eqb_spec (id t0) i) as [->|]; reflexivity.
  - intros Hnone. unfold update_transaction, with_transactions.
    assert (H : List.map (fun t => if (id t =? i)%Z
                                   then {| id := id t; amount := a; category := c;
                                           label := l; date := dt |}
                                   else t) (transactions (db w)) = transactions (db w)).
    { rewrite <- (List.map_id (transactions (db w))) at 2.
      apply List.map_ext_in. intros t Ht.
      destruct (Z.eqb_spec (id t) i) as [E|]; [|reflexivity]. now apply Hnone in E. }
    rewrite H. now destruct (db w).
Qed.

Lemma updateTransaction_replaces_fields_witness :
  exists d',
    fulfils (updateTransaction 99 1 "fun" None "2024-06-20") Fixture.world tt d' /\
    d' = db Fixture.world.
Proof.
  destruct (updateTransaction_replaces_fields 99 1 "fun" None "2024-06-20" Fixture.world
              fixture_world_healthy) as (d' & Hf & _ & _ & _ & Hnone).
  exists d'. split; [exact Hf|]. apply Hnone.
  intros t0 Ht0. simpl in Ht0.
  destruct Ht0 as [<-|[<-|[<-|[<-|[<-|[]]]]]]; simpl; lia.
Defined.

(** ** More on budgets *)

Lemma filter_map_stable {A} (f : A -> bool) (g : A -> A) (l : list A) :
  (forall b, f (g b) = f b) -> (forall b, f b = true -> g b = b) ->
  List.filter f (List.map g l) = List.filter f l.
Proof.
  intros Hfg Hg. induction l as [|b l IH]; simpl; [reflexivity|].
  rewrite Hfg, IH. destruct (f b) eqn:E; [|reflexivity]. now rewrite (Hg b E).
Qed.

(** A query on the Budget table that does not select the key [(M, c)] sees
    the same rows before and after [upsert_budget M c x]. *)
Lemma upsert_budget_filter_other (M c : string) (x : Q) (d : Database)
    (f : BudgetRow -> bool) :
  (forall b b', bg_month b = bg_month b' -> bg_category b = bg_category b' -> f b = f b') ->
  (forall b, at_key M c b = true -> f b = false) ->
  List.filter f (budgets (upsert_budget M c x d)) = List.filter f (budgets d).
Proof.
  intros Hkey Hout. unfold upsert_budget.
  destruct (existsb (at_key M c) (budgets d)); simpl.
  - apply filter_map_stable.
    + intros b. destruct (at_key M c b); [|reflexivity]. now apply Hkey.
    + intros b Hb. destruct (at_key M c b) eqn:E; [|reflexivity].
      rewrite (Hout b E) in Hb. discriminate.
  - rewrite List.filter_app. simpl.
    rewrite (Hout {| bg_id := budgets_seq d + 1; bg_month := M; bg_category := c;
                     bg_amount := x |}).
    + apply List.app_nil_r.
    + unfold at_key. simpl. now rewrite !String.eqb_refl.
Qed.

Lemma delete_budget_filter_other (M c : string) (d : Database) (f : BudgetRow -> bool) :
  (forall b, at_key M c b = true -> f b = false) ->
  List.filter f (budgets (delete_budget M c d)) = List.filter f (budgets d).
Proof.
  intros Hout. simpl. induction (budgets d) as [|b bs IH]; simpl; [reflexivity|].
  fold (at_key M c b). destruct (at_key M c b) eqn:E; simpl.
  - now rewrite (Hout b E).
  - now rewrite IH.
Qed.

Lemma out_of_reach_exact (M c M' c' : string) (b : BudgetRow) :
  Spec.out_of_reach M c M' c' -> at_key M c b = true -> Spec.selects_exact c' M' b = false.
Proof.
  intros Hout Hk. apply at_key_true in Hk as [Hm Hc]. unfold Spec.selects_exact.
  rewrite Hm, Hc. destruct Hout as [Hne|Hlt].
  - apply String.eqb_neq in Hne. rewrite String.eqb_sym in Hne. now rewrite Hne.
  - destruct (String.eqb_spec M M') as [->|]; [|apply andb_false_r].
    rewrite string_ltb_negb_leb, string_leb_refl in Hlt. discriminate.
Qed.

Lemma out_of_reach_fallback (M c M' c' : string) (b : BudgetRow) :
  Spec.out_of_reach M c M' c' -> at_key M c b = true -> Spec.selects_fallback c' M' b = false.
Proof.
  intros Hout Hk. apply at_key_true in Hk as [Hm Hc]. unfold Spec.selects_fallback.
  rewrite Hm, Hc. destruct Hout as [Hne|Hlt].
  - apply String.eqb_neq in Hne. rewrite String.eqb_sym in Hne. now rewrite Hne.
  - rewrite string_ltb_negb_leb, negb_true_iff in Hlt. rewrite Hlt. apply andb_false_r.
Qed.

Lemma resolve_step_same_rows (M' c' : string) (d d' : Database) (acc : FallbackStatus) :
  List.filter (Spec.selects_exact c' M') (budgets d') = List.filter (Spec.selects_exact c' M') (budgets d) ->
  List.filter (Spec.selects_fallback c' M') (budgets d')
  = List.filter (Spec.selects_fallback c' M') (budgets d) ->
  resolve_step M' d' acc c' = resolve_step M' d acc c'.
Proof.
  intros He Hf. unfold resolve_step, select_budget_exact, select_budget_fallback.
  fold (Spec.selects_exact c' M') (Spec.selects_fallback c' M'). now rewrite He, Hf.
Qed.

Lemma resolve_fold_same_rows (M' : string) (d d' : Database) (cats : list string) :
  (forall c', In c' cats ->
     List.filter (Spec.selects_exact c' M') (budgets d')
     = List.filter (Spec.selects_exact c' M') (budgets d) /\
     List.filter (Spec.selects_fallback c' M') (budgets d')
     = List.filter (Spec.selects_fallback c' M') (budgets d)) ->
  forall acc, fold_left (resolve_step M' d') cats acc = fold_left (resolve_step M' d) cats acc.
Proof.
  induction cats as [|c cats IH]; intros H acc; simpl; [reflexivity|].
  destruct (H c (or_introl eq_refl)) as [He Hf].
  rewrite (resolve_step_same_rows M' c d d' acc He Hf).
  apply IH. intros c' Hc'. apply H. now right.
Qed.

Lemma select_budget_exact_same_rows (c' M' : string) (d d' : Database) :
  List.filter (Spec.selects_exact c' M') (budgets d')
  = List.filter (Spec.selects_exact c' M') (budgets d) ->
  select_budget_exact c' M' d' = select_budget_exact c' M' d.
Proof.
  intros H. unfold select_budget_exact. fold (Spec.selects_exact c' M'). now rewrite H.
Qed.

Lemma select_budget_fallback_same_rows (c' M' : string) (d d' : Database) :
  List.filter (Spec.selects_fallback c' M') (budgets d')
  = List.filter (Spec.selects_fallback c' M') (budgets d) ->
  select_budget_fallback c' M' d' = select_budget_fallback c' M' d.
Proof.
  intros H. unfold select_budget_fallback. fold (Spec.selects_fallback c' M'). now rewrite H.
Qed.

Lemma upsert_budget_out_of_reach (M c : string) (x : Q) (M' c' : string) (d : Database) :
  Spec.out_of_reach M c M' c' ->
  select_budget_exact c' M' (upsert_budget M c x d) = select_budget_exact c' M' d /\
  select_budget_fallback c' M' (upsert_budget M c x d) = select_budget_fallback c' M' d.
Proof.
  intros Hout. split.
  - apply select_budget_exact_same_rows, upsert_budget_filter_other.
    + intros b b' Hm Hc. unfold Spec.selects_exact. now rewrite Hm, Hc.
    + intros b. now apply out_of_reach_exact.
  - apply select_budget_fallback_same_rows, upsert_budget_filter_other.
    + intros b b' Hm Hc. unfold Spec.selects_fallback. now rewrite Hm, Hc.
    + intros b. now apply out_of_reach_fallback.
Qed.

Lemma delete_budget_out_of_reach (M c M' c' : string) (d : Database) :
  Spec.out_of_reach M c M' c' ->
  select_budget_exact c' M' (delete_budget M c d) = select_budget_exact c' M' d /\
  select_budget_fallback c' M' (delete_budget M c d) = select_budget_fallback c' M' d.
Proof.
  intros Hout. split.
  - apply select_budget_exact_same_rows, delete_budget_filter_other.
    intros b. now apply out_of_reach_exact.
  - apply select_budget_fallback_same_rows, delete_budget_filter_other.
    intros b. now apply out_of_reach_fallback.
Qed.

Lemma upsert_budget_key_origin (M c : string) (x : Q) (d : Database) (b : BudgetRow) :
  In b (budgets (upsert_budget M c x d)) ->
  (bg_month b = M /\ bg_category b = c) \/
  exists b0, In b0 (budgets d) /\ bg_month b0 = bg_month b /\ bg_category b0 = bg_category b.
Proof.
  intros Hin. apply (List.in_map budget_key) in Hin. rewrite upsert_budget_keys in Hin.
  assert (Hold : In (budget_key b) (List.map budget_key (budgets d)) ->
                 exists b0, In b0 (budgets d) /\ bg_month b0 = bg_month b /\
                            bg_category b0 = bg_category b).
  { intros H. apply List.in_map_iff in H as (b0 & Hk & Hb0). exists b0.
    unfold budget_key in Hk. inversion Hk. auto. }
  destruct (existsb (at_key M c) (budgets d)); [right; auto|].
  apply List.in_app_iff in Hin as [Hin|[Hk|[]]]; [right; auto|left].
  unfold budget_key in Hk. inversion Hk. auto.
Qed.

(** X10.  A budget set for month [M] carries forward, and only forward, and
    only for its category.  In a healthy world whose Budget table has at
    most one row per (month, category), compare resolution for a month
    [M'] before and after [upsertBudget M c x]:
    - a requested category other than [c] resolves as before, and so does
      [c] itself when [M'] is earlier than [M];
    - when [M <= M'] and no row of [c] is dated after [M] and at or before
      [M'], category [c], if it is not [__proto__], now resolves to amount
      [x], exact just when [M' = M]. *)
Theorem upsertBudget_carries_forward_only (M c : string) (x : Q) (M' : string)
    (categories : list string) (w : World) :
  healthy w -> budgets_unique (budgets (db w)) ->
  exists r0 r1 d1,
    fulfils (getMonthlyBudgetsWithFallbackStatus M' categories) w r0 (db w) /\
    fulfils (_ ← upsertBudget M c x; getMonthlyBudgetsWithFallbackStatus M' categories)
      w r1 d1 /\
    (forall c', In c' categories -> Spec.out_of_reach M c M' c' ->
       Spec.resolution_of r1 c' = Spec.resolution_of r0 c') /\
    (In c categories -> c <> "__proto__" -> String.leb M M' = true ->
     (forall b, In b (budgets (db w)) -> bg_category b = c ->
        String.leb (bg_month b) M' = true -> String.leb (bg_month b) M = true) ->
     Spec.resolution_of r1 c
     = Some {| Spec.r_amount := x; Spec.r_exact := (M' =? M) |}).
Proof.
  intros Hw Hu. set (d1 := upsert_budget M c x (db w)).
  exists (fold_left (resolve_step M' (db w)) categories {| amounts := ∅; exact := ∅ |}),
    (fold_left (resolve_step M' d1) categories {| amounts := ∅; exact := ∅ |}), d1.
  split; [now apply status_fulfils|]. split.
  { eapply bind_fulfils; [apply upsertBudget_fulfils, Hw|].
    intros w1 Hw1 Hd1. fold d1 in Hd1. rewrite <- Hd1. now apply status_fulfils. }
  split.
  - intros c' Hc' Hout. rewrite !resolve_fold_resolution by assumption.
    destruct (c' =? "__proto__"); [reflexivity|].
    destruct (upsert_budget_out_of_reach M c x M' c' (db w) Hout) as [He Hf].
    fold d1 in He, Hf. now rewrite He, Hf.
  - intros Hc Hproto HMM' Hnone. apply list_elem_of_In in Hc.
    rewrite resolve_fold_lookup, bool_decide_eq_true_2, resolve_step_resolution
      by assumption.
    assert (Hu1 : budgets_unique (budgets d1)) by now apply upsert_budget_unique.
    pose proof (upsert_budget_has_row M c x (db w)) as Hrow. fold d1 in Hrow.
    apply List.existsb_exists in Hrow as (b1 & Hb1 & Hk1).
    pose proof (upsert_budget_rows_at_key M c x (db w) b1 Hb1 Hk1) as Hx.
    apply at_key_true in Hk1 as [Hm1 Hc1].
    assert (Hmax : forall b', In b' (budgets d1) -> bg_category b' = c ->
                     String.leb (bg_month b') M' = true ->
                     String.leb (bg_month b') M = true).
    { intros b' Hb' Hc' Hle'.
      destruct (upsert_budget_key_origin M c x (db w) b' Hb')
        as [[-> _]|(b0 & Hb0 & Hm0 & Hc0)]; [apply string_leb_refl|].
      rewrite <- Hm0. apply Hnone; congruence. }
    assert (Hlatest : Spec.latest_at_or_before M' c (budgets d1) b1).
    { split; [assumption|]. split; [assumption|]. rewrite Hm1. split; [assumption|].
      exact Hmax. }
    rewrite (select_budget_fallback_latest M' c d1 b1 Hu1 Hlatest), Hx.
    destruct (String.eqb_spec M' M) as [->|Hne].
    + rewrite (select_budget_exact_found M c d1 x Hu1); [reflexivity|].
      exists b1. auto.
    + assert (Hno : select_budget_exact c M' d1 = None).
      { apply select_budget_exact_None. intros b Hb Hbc Hbm. apply Hne.
        apply String.leb_antisym; [|assumption].
        rewrite <- Hbm. apply Hmax; auto. rewrite Hbm. apply string_leb_refl. }
      now rewrite Hno.
Qed.

Lemma upsertBudget_carries_forward_only_witness :
  exists r1 d1,
    fulfils (_ ← upsertBudget "2024-08" "groceries" 250;
             getMonthlyBudgetsWithFallbackStatus "2024-11" Screens.categories)
      Fixture.world r1 d1 /\
    Spec.resolution_of r1 "groceries"
    = Some {| Spec.r_amount := 250; Spec.r_exact := false |}.
Proof.
  destruct (upsertBudget_carries_forward_only "2024-08" "groceries" 250 "2024-11"
              Screens.categories Fixture.world fixture_world_healthy fixture_budgets_unique)
    as (r0 & r1 & d1 & _ & Hf & _ & Hfwd).
  exists r1, d1. split; [exact Hf|]. apply Hfwd; [simpl; auto|discriminate|reflexivity|].
  intros b Hb Hc _. simpl in Hb.
  destruct Hb as [<-|[<-|[<-|[]]]]; simpl in *; try discriminate; reflexivity.
Defined.

Lemma delete_budget_twice (M c : string) (d : Database) :
  delete_budget M c (delete_budget M c d) = delete_budget M c d.
Proof.
  apply delete_budget_absent. rewrite delete_budget_budgets.
  apply no_exact_row_after_delete.
Qed.

(** X11.  [deleteBudgetForMonth] is idempotent and local.  In a healthy
    world, deleting the budget of [(M, c)] twice leaves the database exactly
    as deleting it once does, and the transactions untouched; and after the
    deletion a requested category other than [c] resolves for any month as
    it did before, as does [c] itself for a month earlier than [M]. *)
Theorem deleteBudgetForMonth_idempotent_and_local (M c M' : string)
    (categories : list string) (w : World) :
  healthy w ->
  exists r0 r1 d1,
    fulfils (deleteBudgetForMonth M c) w tt d1 /\
    fulfils (_ ← deleteBudgetForMonth M c; deleteBudgetForMonth M c) w tt d1 /\
    transactions d1 = transactions (db w) /\
    fulfils (getMonthlyBudgetsWithFallbackStatus M' categories) w r0 (db w) /\
    fulfils (_ ← deleteBudgetForMonth M c;
             getMonthlyBudgetsWithFallbackStatus M' categories) w r1 d1 /\
    (forall c', In c' categories -> Spec.out_of_reach M c M' c' ->
       Spec.resolution_of r1 c' = Spec.resolution_of r0 c').
Proof.
  intros Hw. set (d1 := delete_budget M c (db w)).
  exists (fold_left (resolve_step M' (db w)) categories {| amounts := ∅; exact := ∅ |}),
    (fold_left (resolve_step M' d1) categories {| amounts := ∅; exact := ∅ |}), d1.
  split; [now apply deleteBudgetForMonth_fulfils|]. split.
  { eapply bind_fulfils; [apply deleteBudgetForMonth_fulfils, Hw|].
    intros w1 Hw1 Hd1. fold d1 in Hd1.
    pose proof (deleteBudgetForMonth_fulfils M c w1 Hw1) as H.
    rewrite Hd1 in H. unfold d1 in H. now rewrite delete_budget_twice in H. }
  split; [reflexivity|]. split; [now apply status_fulfils|]. split.
  { eapply bind_fulfils; [apply deleteBudgetForMonth_fulfils, Hw|].
    intros w1 Hw1 Hd1. fold d1 in Hd1. rewrite <- Hd1. now apply status_fulfils. }
  intros c' Hc' Hout. rewrite !resolve_fold_resolution by assumption.
  destruct (c' =? "__proto__"); [reflexivity|].
  destruct (delete_budget_out_of_reach M c M' c' (db w) Hout) as [He Hf].
  fold d1 in He, Hf. now rewrite He, Hf.
Qed.

Lemma deleteBudgetForMonth_idempotent_and_local_witness :
  exists d1,
    fulfils (deleteBudgetForMonth "2024-06" "fun") Fixture.world tt d1 /\
    fulfils (_ ← deleteBudgetForMonth "2024-06" "fun"; deleteBudgetForMonth "2024-06" "fun")
      Fixture.world tt d1.
Proof.
  destruct (deleteBudgetForMonth_idempotent_and_local "2024-06" "fun" "2024-06"
              Screens.categories Fixture.world fixture_world_healthy)
    as (_ & _ & d1 & H1 & H2 & _).
  exists d1. auto.
Defined.

Lemma getMonthlyBudgets_fulfils (M : string) (w : World) :
  healthy w -> fulfils (getMonthlyBudgets M) w (select_budgets_of_month M (db w)) (db w).
Proof.
  intros Hw. unfold getMonthlyBudgets.
  eapply bind_fulfils; [apply getDb_fulfils, Hw|].
  intros w1 Hw1 Hd1. pose proof (call_fulfils
    "SELECT category, amount FROM budgets WHERE month = ?"
    (select_budgets_of_month M) (fun d => d) w1 Hw1) as H.
  now rewrite Hd1 in H.
Qed.

Lemma select_budgets_of_month_In (M : string) (d : Database) (row : CategoryAmountRow) :
  In row (select_budgets_of_month M d)
  <-> Spec.exact_row M (ca_category row) (budgets d) (ca_amount row).
Proof.
  unfold select_budgets_of_month, Spec.exact_row. rewrite List.in_map_iff. split.
  - intros (b & <- & Hb). apply List.filter_In in Hb as [Hb Hm].
    apply String.eqb_eq in Hm. exists b. simpl. auto.
  - intros (b & Hb & Hm & Hc & Hv). exists b. split.
    + destruct row. simpl in *. now rewrite Hc, Hv.
    + apply List.filter_In. split; [assumption|]. now apply String.eqb_eq.
Qed.

Lemma select_budgets_of_month_NoDup (M : string) (d : Database) :
  budgets_unique (budgets d) ->
  List.NoDup (List.map ca_category (select_budgets_of_month M d)).
Proof.
  unfold select_budgets_of_month, budgets_unique. rewrite List.map_map. simpl.
  induction (budgets d) as [|b bs IH]; simpl; [constructor|].
  intros Hu. inversion Hu as [|? ? Hnot Hrest]; subst.
  destruct (String.eqb_spec (bg_month b) M) as [Hm|]; [|auto].
  simpl. constructor; [|auto].
  intros Hin. apply Hnot. apply List.in_map_iff in Hin as (b' & Hc & Hb').
  apply List.filter_In in Hb' as [Hb' Hm']. apply String.eqb_eq in Hm'.
  apply List.in_map_iff. exists b'. split; [|assumption].
  unfold budget_key. congruence.
Qed.

Lemma resolution_of_Some (r : FallbackStatus) (c : string) (a : Q) (e : bool) :
  Spec.resolution_of r c = Some {| Spec.r_amount := a; Spec.r_exact := e |} ->
  amounts r !! c = Some a /\ exact r !! c = Some e.
Proof.
  unfold Spec.resolution_of.
  destruct (amounts r !! c), (exact r !! c); try discriminate. now intros [= -> ->].
Qed.

Lemma resolve_fold_proto (M : string) (d : Database) (cats : list string)
    (acc : FallbackStatus) :
  amounts (fold_left (resolve_step M d) cats acc) !! "__proto__" = amounts acc !! "__proto__" /\
  exact (fold_left (resolve_step M d) cats acc) !! "__proto__" = exact acc !! "__proto__".
Proof.
  revert acc. induction cats as [|x cats IH]; intros acc; simpl; [auto|].
  destruct (IH (resolve_step M d acc x)) as [-> ->]. unfold resolve_step.
  destruct (decide (x = "__proto__")) as [->|Hne].
  - destruct (select_budget_exact "__proto__" M d); auto.
  - destruct (select_budget_exact x M d); simpl;
      rewrite !Object_set_lookup_ne by assumption; auto.
Qed.

(** X12.  A category is resolved as exact just when [getMonthlyBudgets]
    lists it for the month.  In a healthy world whose Budget table has at
    most one row per (month, category), [getMonthlyBudgets M] fulfils with
    at most one row per category, and for every requested category [c]
    other than [__proto__] the resolver for [M] reports [c] as exact if and
    only if that list has a row for [c]; the amount it reports is then the
    amount of that row.  (A row of category [__proto__] is listed by
    [getMonthlyBudgets], while the resolver's [exact] object holds nothing
    under that name.) *)
Theorem exact_iff_listed_for_month (M : string) (categories : list string) (w : World) :
  healthy w -> budgets_unique (budgets (db w)) ->
  exists rows status,
    fulfils (getMonthlyBudgets M) w rows (db w) /\
    fulfils (getMonthlyBudgetsWithFallbackStatus M categories) w status (db w) /\
    List.NoDup (List.map ca_category rows) /\
    (forall c, In c categories -> c <> "__proto__" ->
      (exact status !! c = Some true <-> exists row, In row rows /\ ca_category row = c) /\
      (forall row, In row rows -> ca_category row = c ->
         amounts status !! c = Some (ca_amount row))) /\
    exact status !! "__proto__" = None.
Proof.
  intros Hw Hu.
  exists (select_budgets_of_month M (db w)),
    (fold_left (resolve_step M (db w)) categories {| amounts := ∅; exact := ∅ |}).
  split; [now apply getMonthlyBudgets_fulfils|]. split; [now apply status_fulfils|].
  split; [now apply select_budgets_of_month_NoDup|]. split.
  2:{ rewrite (proj2 (resolve_fold_proto M (db w) categories _)). apply lookup_empty. }
  intros c Hc Hproto. apply list_elem_of_In in Hc.
  pose proof (resolve_fold_lookup M (db w) categories c {| amounts := ∅; exact := ∅ |})
    as Hres.
  rewrite bool_decide_eq_true_2, resolve_step_resolution in Hres by assumption.
  split; [split|].
  - intros Hex. destruct (select_budget_exact c M (db w)) as [r|] eqn:E.
    + apply select_budget_exact_Some in E.
      exists {| ca_category := c; ca_amount := ar_amount r |}. split; [|reflexivity].
      now apply select_budgets_of_month_In.
    + apply resolution_of_Some in Hres as [_ Hres]. congruence.
  - intros (row & Hrow & <-). apply select_budgets_of_month_In in Hrow.
    rewrite (select_budget_exact_found M _ (db w) _ Hu Hrow) in Hres.
    now apply resolution_of_Some in Hres as [_ Hres].
  - intros row Hrow <-. apply select_budgets_of_month_In in Hrow.
    rewrite (select_budget_exact_found M _ (db w) _ Hu Hrow) in Hres.
    now apply resolution_of_Some in Hres as [Hres _].
Qed.

Lemma exact_iff_listed_for_month_witness :
  exists rows status,
    fulfils (getMonthlyBudgets "2024-06") Fixture.world rows (db Fixture.world) /\
    fulfils (getMonthlyBudgetsWithFallbackStatus "2024-06" Screens.categories)
      Fixture.world status (db Fixture.world) /\
    (exact status !! "fun" = Some true <-> exists row, In row rows /\ ca_category row = "fun").
Proof.
  destruct (exact_iff_listed_for_month "2024-06" Screens.categories Fixture.world
              fixture_world_healthy fixture_budgets_unique)
    as (rows & status & Hr & Hs & _ & Hc & _).
  exists rows, status. split; [exact Hr|]. split; [exact Hs|].
  apply (Hc "fun"); [simpl; auto|discriminate].
Defined.

(** * Further properties of the notification bus *)

Lemma members_Set_delete_filter (l : Listener) (entries : list (option Listener)) :
  members (Set_delete l entries) = List.filter (fun l' => negb (Nat.eqb l' l)) (members entries).
Proof.
  unfold Set_delete. induction entries as [|[l'|] entries IH]; simpl; [reflexivity| |exact IH].
  destruct (Nat.eqb l' l); simpl; now rewrite IH.
Qed.

Lemma filter_absent (l : Listener) (ls : list Listener) :
  ~ In l ls -> List.filter (fun l' => negb (Nat.eqb l' l)) ls = ls.
Proof.
  intros H. apply List.forallb_filter_id, List.forallb_forall. intros l' Hl'.
  apply negb_true_iff, Nat.eqb_neq. intros ->. auto.
Qed.

(** X13.  The subscriptions form a set.  On a bus whose subscribed
    listeners are pairwise distinct:
    - subscribing a listener that is already subscribed changes nothing, so
      subscribing twice is subscribing once; subscribing a new one adds it
      after the others;
    - the function returned by [subscribeTransactionsChanged] removes that
      listener and no other, keeps the order of the others, and changes
      nothing when the listener is not subscribed;
    - subscribing a listener that was not subscribed and then calling the
      returned function gives back the listeners there were;
    - the listeners stay pairwise distinct, and neither operation calls a
      listener. *)
Theorem subscriptions_form_a_set (l : Listener) (b : Bus) :
  List.NoDup (members (listeners b)) ->
  (In l (members (listeners b)) -> subscribeTransactionsChanged l b = b) /\
  (~ In l (members (listeners b)) ->
   members (listeners (subscribeTransactionsChanged l b))
   = (members (listeners b) ++ [l])%list) /\
  subscribeTransactionsChanged l (subscribeTransactionsChanged l b)
  = subscribeTransactionsChanged l b /\
  members (listeners (unsubscribe l b))
  = List.filter (fun l' => negb (Nat.eqb l' l)) (members (listeners b)) /\
  (~ In l (members (listeners b)) -> unsubscribe l b = b) /\
  (~ In l (members (listeners b)) ->
   members (listeners (unsubscribe l (subscribeTransactionsChanged l b)))
   = members (listeners b)) /\
  List.NoDup (members (listeners (subscribeTransactionsChanged l b))) /\
  List.NoDup (members (listeners (unsubscribe l b))) /\
  calls (subscribeTransactionsChanged l b) = calls b /\
  calls (unsubscribe l b) = calls b.
Proof.
  destruct b as [s log]. cbn [listeners calls]. intros Hnd.
  assert (Hadd_in : In l (members s) -> Set_add l s = s) by apply Set_add_present.
  assert (Hadd_out : ~ In l (members s) ->
                     members (Set_add l s) = (members s ++ [l])%list).
  { intros H. rewrite (Set_add_absent l s H), members_app. reflexivity. }
  unfold subscribeTransactionsChanged, unsubscribe. cbn [listeners calls].
  split; [intros H; now rewrite Hadd_in|]. split; [exact Hadd_out|]. split.
  { destruct (List.in_dec Nat.eq_dec l (members s)) as [Hin|Hout].
    - now rewrite !Hadd_in.
    - f_equal. apply Set_add_present. rewrite (Hadd_out Hout).
      apply List.in_app_iff. simpl. auto. }
  split; [apply members_Set_delete_filter|].
  split; [intros H; now rewrite (Set_delete_absent l s H)|]. split.
  { intros H. rewrite members_Set_delete_filter, (Hadd_out H), List.filter_app. simpl.
    rewrite Nat.eqb_refl. simpl. rewrite List.app_nil_r. now apply filter_absent. }
  split.
  { destruct (List.in_dec Nat.eq_dec l (members s)) as [Hin|Hout].
    - now rewrite Hadd_in.
    - rewrite (Hadd_out Hout). apply List.NoDup_app; [exact Hnd|repeat constructor; intros []|].
      intros x Hx [<-|[]]. auto. }
  split; [|split; reflexivity].
  rewrite members_Set_delete_filter. now apply List.NoDup_filter.
Qed.

Lemma subscriptions_form_a_set_witness :
  subscribeTransactionsChanged 2 Fixture.bus = Fixture.bus /\
  members (listeners (unsubscribe 0 Fixture.bus)) = [2%nat].
Proof.
  destruct (subscriptions_form_a_set 2 Fixture.bus fixture_bus_NoDup) as (Hin & _).
  destruct (subscriptions_form_a_set 0 Fixture.bus fixture_bus_NoDup)
    as (_ & _ & _ & Hdel & _).
  split; [apply Hin; simpl; auto|]. rewrite Hdel. reflexivity.
Defined.

(** X14.  An unsubscribed listener is no longer notified, the others still
    are.  On a bus whose subscribed listeners are pairwise distinct and do
    nothing but possibly unsubscribe themselves (so that none of them
    throws), a publish that follows [unsubscribe l] returns and has
    invoked, once each and in subscription order, exactly the listeners
    other than [l]. *)
Theorem unsubscribed_listener_is_not_notified (callback : Listener -> list Action)
    (l : Listener) (b : Bus) (extra : nat) :
  List.NoDup (members (listeners b)) ->
  (forall l', In l' (members (listeners b)) -> Spec.quiet callback l') ->
  exists b',
    emitTransactionsChanged callback (List.length (listeners b) + S extra) (unsubscribe l b)
    = Returned b' /\
    calls b'
    = (calls b ++ List.filter (fun l' => negb (Nat.eqb l' l)) (members (listeners b)))%list /\
    ~ In l (skipn (List.length (calls b)) (calls b')).
Proof.
  destruct b as [s log]. cbn [listeners calls]. intros Hnd Hq.
  unfold emitTransactionsChanged, unsubscribe. cbn [listeners calls].
  pose proof (members_Set_delete_filter l s) as Hm.
  replace (List.length s) with (List.length (Set_delete l s))
    by (unfold Set_delete; apply List.length_map).
  destruct (forEach_quiet_segment callback (Set_delete l s)) with
    (done := @nil (option Listener)) (log := log) (extra := extra) as [Hret Hcalls].
  { intros l' Hl'. apply Hq. rewrite Hm in Hl'. now apply List.filter_In in Hl' as [? _]. }
  { rewrite Hm. now apply List.NoDup_filter. }
  cbn [List.app List.length] in Hret, Hcalls.
  eexists. split; [exact Hret|]. rewrite Hcalls, Hm. split; [reflexivity|].
  rewrite List.skipn_app, Nat.sub_diag, List.skipn_all. simpl.
  intros H. apply List.filter_In in H as [_ H]. now rewrite Nat.eqb_refl in H.
Qed.

Lemma unsubscribed_listener_is_not_notified_witness :
  exists b',
    emitTransactionsChanged (fun _ => []) 3 (unsubscribe 0 Fixture.bus) = Returned b' /\
    calls b' = [2%nat].
Proof.
  destruct (unsubscribed_listener_is_not_notified (fun _ => []) 0 Fixture.bus 0
              fixture_bus_NoDup) as (b' & He & Hc & _).
  { intros l' _ a []. }
  exists b'. split; [exact He|]. rewrite Hc. reflexivity.
Defined.

(** * Further properties of the donut chart *)

Lemma number_ge_spec (a b : Q) : JS.le (Fin a) (Fin b) = true <-> (a <= b)%Q.
Proof. simpl. apply Qle_bool_iff. Qed.

Lemma number_ge_false (a b : Q) : JS.le (Fin a) (Fin b) = false <-> (b < a)%Q.
Proof.
  rewrite <- not_true_iff_false, number_ge_spec. split.
  - apply Qnot_le_lt.
  - intros H1 H2. apply (Qlt_not_le _ _ H1 H2).
Qed.

Lemma getProgressColor_finite (p : Q) :
  let c := DonutChart.getProgressColor (Fin p) in
  (c = "#ef4444" <-> (100 <= p)%Q) /\
  (c = "#fb923c" <-> (80 <= p < 100)%Q) /\
  (c = "#facc15" <-> (50 <= p < 80)%Q) /\
  (c = "#22c55e" <-> (p < 50)%Q).
Proof.
  unfold DonutChart.getProgressColor.
  destruct (JS.le (Fin 100) (Fin p)) eqn:E100;
    [apply number_ge_spec in E100|apply number_ge_false in E100];
  [|destruct (JS.le (Fin 80) (Fin p)) eqn:E80;
    [apply number_ge_spec in E80|apply number_ge_false in E80];
   [|destruct (JS.le (Fin 50) (Fin p)) eqn:E50;
     [apply number_ge_spec in E50|apply number_ge_false in E50]]];
  cbv zeta; repeat split; intros; try discriminate; try lra; try reflexivity;
    try (exfalso; lra).
Qed.

Lemma clamped_of_finite (props : DonutChart.DonutChartProps) (q : Q) :
  DonutChart.progress props = Fin q ->
  exists k, DonutChart.clamped props = Fin k /\ (k == Qmax 0 (Qmin 1 q))%Q /\ (0 <= k <= 1)%Q.
Proof.
  destruct props as [sz sw pr]. simpl. intros ->. apply clamped_finite.
Qed.

Lemma clamp_at_least_one (q k : Q) :
  (k == Qmax 0 (Qmin 1 q))%Q -> ((1 <= k)%Q <-> (1 <= q)%Q).
Proof.
  intros ->.
  destruct (Q.min_spec 1 q) as [[H1 ->]|[H1 ->]];
    destruct (Q.max_spec 0 1) as [[H2 E2]|[H2 E2]];
    destruct (Q.max_spec 0 q) as [[H3 E3]|[H3 E3]];
    rewrite ?E2, ?E3; lra.
Qed.

Lemma clamp_below_half (q k : Q) :
  (k == Qmax 0 (Qmin 1 q))%Q -> ((k * 100 < 50)%Q <-> (q < 1 # 2)%Q).
Proof.
  intros ->.
  destruct (Q.min_spec 1 q) as [[H1 ->]|[H1 ->]];
    destruct (Q.max_spec 0 1) as [[H2 E2]|[H2 E2]];
    destruct (Q.max_spec 0 q) as [[H3 E3]|[H3 E3]];
    rewrite ?E2, ?E3; lra.
Qed.

(** X15.  The colour of the arc.  An explicit [progressColor] is used as
    it is.  Without one, a finite [percent] picks the colour by bands: red
    from 100, orange from 80, yellow from 50, green below; and when
    [percent] is missing or not finite the bands apply to the clamped
    progress times 100, so that for a finite progress the arc is red just
    when the progress is at least 1 and green just when it is below one
    half, and for a NaN progress it is green. *)
Theorem stroke_color_bands (percent : option number) (props : DonutChart.DonutChartProps) :
  (forall color, DonutChart.strokeColor (Some color) percent props = color) /\
  (forall p : Q,
     let c := DonutChart.strokeColor None (Some (Fin p)) props in
     (c = "#ef4444" <-> (100 <= p)%Q) /\
     (c = "#fb923c" <-> (80 <= p < 100)%Q) /\
     (c = "#facc15" <-> (50 <= p < 80)%Q) /\
     (c = "#22c55e" <-> (p < 50)%Q)) /\
  (match percent with Some (Fin _) => False | _ => True end ->
   (forall q : Q, DonutChart.progress props = Fin q ->
      (DonutChart.strokeColor None percent props = "#ef4444" <-> (1 <= q)%Q) /\
      (DonutChart.strokeColor None percent props = "#22c55e" <-> (q < 1 # 2)%Q)) /\
   (DonutChart.progress props = NaN ->
      DonutChart.strokeColor None percent props = "#22c55e")).
Proof.
  split; [reflexivity|]. split; [intros p; apply getProgressColor_finite|].
  intros Hp.
  assert (Hpv : DonutChart.percentValue percent props
                = mul (DonutChart.clamped props) (Fin 100)).
  { unfold DonutChart.percentValue. destruct percent as [[| | |x]|]; try reflexivity.
    destruct Hp. }
  unfold DonutChart.strokeColor. rewrite Hpv. split.
  - intros q Hq. destruct (clamped_of_finite props q Hq) as (k & -> & Hk & Hk0 & Hk1).
    simpl mul. destruct (getProgressColor_finite (k * 100)) as (Hred & _ & _ & Hgreen).
    cbv zeta in Hred, Hgreen. rewrite Hred, Hgreen.
    rewrite <- (clamp_at_least_one q k Hk), (clamp_below_half q k Hk). split; [|reflexivity].
    split; intros; lra.
  - intros Hnan. unfold DonutChart.clamped. rewrite Hnan. reflexivity.
Qed.

Lemma number_lt_spec (a b : Q) : JS.lt (Fin a) (Fin b) = true <-> (a < b)%Q.
Proof.
  simpl. rewrite negb_true_iff, <- not_true_iff_false, Qle_bool_iff. split.
  - apply Qnot_le_lt.
  - intros H1 H2. apply (Qlt_not_le _ _ H1 H2).
Qed.

Lemma ratio_times_budget (spent expected : Q) :
  (0 < expected)%Q -> (spent / expected * expected == spent)%Q.
Proof. intros H. field. lra. Qed.

Lemma rounding_above (round : Q -> number) (c q : Q) :
  Spec.rounding round -> In c [0; 1 # 2; 1; 50; 100]%Q -> (c <= q)%Q ->
  round q = PosInfinity \/ exists k, round q = Fin k /\ (c <= k)%Q.
Proof.
  intros [Hmono Hfix] Hc Hle. pose proof (Hmono c q Hle) as H.
  rewrite (Hfix c Hc) in H. destruct (round q) as [| | |k]; try discriminate.
  - now left.
  - right. exists k. split; [reflexivity|]. now apply number_ge_spec.
Qed.

Lemma rounding_below (round : Q -> number) (c q : Q) :
  Spec.rounding round -> In c [0; 1 # 2; 1; 50; 100]%Q -> (0 <= q <= c)%Q ->
  exists k, round q = Fin k /\ (0 <= k <= c)%Q.
Proof.
  intros Hr Hc [H0 Hle].
  assert (Hin0 : In 0%Q [0; 1 # 2; 1; 50; 100]%Q) by (left; reflexivity).
  destruct Hr as [Hmono Hfix]. pose proof (Hmono q c Hle) as H.
  pose proof (Hmono 0%Q q H0) as H'.
  rewrite (Hfix c Hc) in H. rewrite (Hfix 0%Q Hin0) in H'.
  destruct (round q) as [| | |k]; try discriminate.
  exists k. split; [reflexivity|]. split; now apply number_ge_spec.
Qed.

Lemma progress_of_ratio (r : number) :
  r = PosInfinity \/ (exists k, r = Fin k /\ (0 <= k)%Q) ->
  exists p, Math_min r (Fin 1) = Fin p /\ (0 <= p <= 1)%Q /\
            (forall c : Q, (c <= 1)%Q ->
               (r = PosInfinity \/ exists k, r = Fin k /\ (c <= k)%Q) -> (c <= p)%Q).
Proof.
  intros [-> | (k & -> & Hk)].
  - exists 1%Q. split; [reflexivity|]. split; [lra|]. intros c Hc _. exact Hc.
  - unfold Math_min. destruct (JS.le (Fin k) (Fin 1)) eqn:E.
    + apply number_ge_spec in E. exists k. split; [reflexivity|]. split; [lra|].
      intros c _ [H | (k' & H & Hc)]; [discriminate|]. now injection H as ->.
    + exists 1%Q. split; [reflexivity|]. split; [lra|]. intros c Hc _. exact Hc.
Qed.

Lemma clamped_in_range (props : DonutChart.DonutChartProps) (p : Q) :
  DonutChart.progress props = Fin p -> (0 <= p <= 1)%Q ->
  exists k', DonutChart.clamped props = Fin k' /\ (k' == p)%Q.
Proof.
  intros Hp H01. destruct (clamped_of_finite props p Hp) as (k' & Hk' & Heq & _).
  exists k'. split; [assumption|].
  rewrite Heq, (Q.min_r 1 p) by lra. apply Q.max_r. lra.
Qed.

Lemma fixture_round_rounding : Spec.rounding Fixture.round.
Proof.
  split.
  - intros a b Hab. unfold Fixture.round. apply number_ge_spec.
    rewrite !Qred_correct. unfold Qle. cbn [Qnum Qden].
    apply Z.mul_le_mono_nonneg_r; [lia|].
    apply Qfloor_resp_le. lra.
  - intros q Hq. cbn [In] in Hq.
    destruct Hq as [<- | [<- | [<- | [<- | [<- | []]]]]]; reflexivity.
Qed.

(** X16.  The donut of a category on the budget screen, whatever the
    rounding of the division and of the product by 100.  With no budget
    ([expected <= 0]) the progress is 0 and the arc is green, whatever was
    spent.  With a budget and nothing negative spent, the progress passed to
    the chart is already between 0 and 1, so the chart's clamp leaves its
    value as it is; the arc is red, and the progress 1, once the spending
    has reached the budget; a green arc means that less than half of the
    budget is spent, and below half of the budget the arc is green or
    yellow.  (Between these marks the color depends on the rounding.) *)
Theorem budget_donut (round : Q -> number) (spent expected : Q) :
  Spec.rounding round ->
  ((expected <= 0)%Q ->
   BudgetScreen.progress round spent expected = Fin 0 /\
   BudgetScreen.donut_color round spent expected = "#22c55e") /\
  ((0 < expected)%Q -> (0 <= spent)%Q ->
   (exists k k',
      BudgetScreen.progress round spent expected = Fin k /\ (0 <= k <= 1)%Q /\
      DonutChart.clamped (BudgetScreen.donut round spent expected) = Fin k' /\
      (k' == k)%Q) /\
   ((expected <= spent)%Q ->
    BudgetScreen.donut_color round spent expected = "#ef4444" /\
    exists k, BudgetScreen.progress round spent expected = Fin k /\ (k == 1)%Q) /\
   (BudgetScreen.donut_color round spent expected = "#22c55e" ->
    (spent < (1 # 2) * expected)%Q) /\
   ((spent < (1 # 2) * expected)%Q ->
    BudgetScreen.donut_color round spent expected = "#22c55e" \/
    BudgetScreen.donut_color round spent expected = "#facc15")).
Proof.
  intros Hround. split.
  - intros He.
    assert (E : JS.lt (Fin 0) (Fin expected) = false).
    { apply not_true_iff_false. rewrite number_lt_spec. lra. }
    unfold BudgetScreen.donut_color, BudgetScreen.pct, BudgetScreen.progress.
    rewrite E. split; reflexivity.
  - intros He Hs.
    assert (E : JS.lt (Fin 0) (Fin expected) = true) by now apply number_lt_spec.
    pose proof (ratio_times_budget spent expected He) as Hr.
    set (q := (spent / expected)%Q) in *.
    assert (Hq0 : (0 <= q)%Q) by nra.
    assert (Hin0 : In 0%Q [0; 1 # 2; 1; 50; 100]%Q) by (left; reflexivity).
    assert (Hinh : In (1 # 2)%Q [0; 1 # 2; 1; 50; 100]%Q) by (right; left; reflexivity).
    assert (Hin1 : In 1%Q [0; 1 # 2; 1; 50; 100]%Q) by (right; right; left; reflexivity).
    assert (Hin50 : In 50%Q [0; 1 # 2; 1; 50; 100]%Q)
      by (right; right; right; left; reflexivity).
    assert (Hin100 : In 100%Q [0; 1 # 2; 1; 50; 100]%Q)
      by (right; right; right; right; left; reflexivity).
    pose proof (rounding_above round 0 q Hround Hin0 Hq0) as Hr0.
    destruct (progress_of_ratio (round q) Hr0) as (p & Hp & Hp01 & Hpge).
    assert (Hprog : BudgetScreen.progress round spent expected = Fin p).
    { unfold BudgetScreen.progress. rewrite E. fold q. exact Hp. }
    destruct (clamped_in_range (BudgetScreen.donut round spent expected) p Hprog Hp01)
      as (k' & Hk' & Hk'p).
    (* the percentage drawn when [pct] is not finite *)
    assert (Hcolor : forall c : Q, In c [1 # 2; 1]%Q -> (c <= q)%Q ->
              exists v, DonutChart.percentValue
                          (Some (BudgetScreen.pct round spent expected))
                          (BudgetScreen.donut round spent expected) = Fin v /\
                        (c * 100 <= v)%Q).
    { intros c Hc Hcq.
      assert (Hc1 : (c <= 1)%Q) by (destruct Hc as [<- | [<- | []]]; lra).
      assert (Hcin : In c [0; 1 # 2; 1; 50; 100]%Q)
        by (destruct Hc as [<- | [<- | []]]; assumption).
      pose proof (rounding_above round c q Hround Hcin Hcq) as Hrc.
      pose proof (Hpge c Hc1 Hrc) as Hcp.
      assert (Hfallback : mul (DonutChart.clamped (BudgetScreen.donut round spent expected))
                            (Fin 100) = Fin (k' * 100)) by (rewrite Hk'; reflexivity).
      unfold DonutChart.percentValue, BudgetScreen.pct. rewrite E. fold q.
      destruct Hrc as [Hinf | (k & Hk & Hck)].
      - rewrite Hinf. cbn [BudgetScreen.times Number_isFinite]. rewrite Hfallback.
        eexists. split; [reflexivity|]. rewrite Hk'p. lra.
      - rewrite Hk. cbn [BudgetScreen.times].
        assert (Hle : exists m : Q, (c * 100 == m)%Q /\
                                    JS.le (Fin m) (round (k * 100)%Q) = true).
        { destruct Hround as [Hmono Hfix].
          destruct Hc as [<- | [<- | []]].
          - exists 50%Q. split; [lra|].
            rewrite <- (Hfix 50%Q Hin50). apply Hmono. lra.
          - exists 100%Q. split; [lra|].
            rewrite <- (Hfix 100%Q Hin100). apply Hmono. lra. }
        destruct Hle as (m & Hm & Hle).
        destruct (round (k * 100)%Q) as [| | |v]; try discriminate.
        + cbn [Number_isFinite]. rewrite Hfallback.
          eexists. split; [reflexivity|]. rewrite Hk'p. lra.
        + cbn [Number_isFinite]. exists v. split; [reflexivity|].
          apply number_ge_spec in Hle. lra. }
    split; [|split; [|split]].
    + exists p, k'. repeat split; try assumption; lra.
    + intros Hge. assert (Hq1 : (1 <= q)%Q) by nra.
      split.
      * destruct (Hcolor 1%Q (or_intror (or_introl eq_refl)) Hq1) as (v & Hv & Hv100).
        unfold BudgetScreen.donut_color, DonutChart.strokeColor. rewrite Hv.
        apply (getProgressColor_finite v). lra.
      * exists p. split; [assumption|].
        pose proof (Hpge 1%Q (Qle_refl 1) (rounding_above round 1 q Hround Hin1 Hq1)).
        lra.
    + intros Hgreen. apply Qnot_le_lt. intros Hhalf.
      assert (Hqh : ((1 # 2) <= q)%Q) by nra.
      destruct (Hcolor (1 # 2)%Q (or_introl eq_refl) Hqh) as (v & Hv & Hv50).
      unfold BudgetScreen.donut_color, DonutChart.strokeColor in Hgreen.
      rewrite Hv in Hgreen. apply (getProgressColor_finite v) in Hgreen. lra.
    + intros Hlow. assert (Hqh : (0 <= q <= 1 # 2)%Q) by (split; nra).
      destruct (rounding_below round (1 # 2) q Hround Hinh Hqh) as (k & Hk & Hk0h).
      assert (Hk50 : (0 <= k * 100 <= 50)%Q) by lra.
      destruct (rounding_below round 50 (k * 100) Hround Hin50 Hk50) as (v & Hv & Hv050).
      unfold BudgetScreen.donut_color, DonutChart.strokeColor, DonutChart.percentValue,
        BudgetScreen.pct.
      rewrite E. fold q. rewrite Hk. cbn [BudgetScreen.times]. rewrite Hv. cbn [Number_isFinite].
      destruct (Qlt_le_dec v 50) as [Hlt | Hge].
      * left. apply (getProgressColor_finite v). exact Hlt.
      * right. apply (getProgressColor_finite v). lra.
Qed.

(** * Further properties of dates and months *)

Lemma string_ltb_compare (a b : string) : String.ltb a b = true <-> String.compare a b = Lt.
Proof. unfold String.ltb. destruct (String.compare a b); split; congruence. Qed.

Lemma string_compare_app (a b x y : string) :
  String.length a = String.length b ->
  String.compare (a ++ x) (b ++ y)
  = match String.compare a b with
    | Eq => String.compare x y
    | r => r
    end.
Proof.
  revert b. induction a as [|c a IH]; intros [|c' b]; simpl; try discriminate.
  - reflexivity.
  - intros [= Hlen]. destruct (Ascii.compare c c'); auto.
Qed.

Lemma string_compare_dash (x y : string) :
  String.compare ("-" ++ x) ("-" ++ y) = String.compare x y.
Proof. reflexivity. Qed.

(** Years written with four digits: the decimal numeral has four
    characters and the next year's numeral comes after it. *)
Lemma four_digit_years_step :
  forallb (fun n => let y := (1000 + Z.of_nat n)%Z in
                    (String.length (String_of_int y) =? 4)%nat
                    && (String.length (String_of_int (y + 1)) =? 4)%nat
                    && String.ltb (String_of_int y) (String_of_int (y + 1)))
          (seq 0 (Z.to_nat 8999)) = true.
Proof. vm_compute. reflexivity. Qed.

Lemma year_step (y : Z) :
  (1000 <= y <= 9998)%Z ->
  String.length (String_of_int y) = 4%nat /\
  String.length (String_of_int (y + 1)) = 4%nat /\
  String.ltb (String_of_int y) (String_of_int (y + 1)) = true.
Proof.
  intros Hy. pose proof four_digit_years_step as H.
  rewrite List.forallb_forall in H. specialize (H (Z.to_nat (y - 1000))).
  cbv zeta in H. replace (1000 + Z.of_nat (Z.to_nat (y - 1000)))%Z with y in H by lia.
  rewrite !andb_true_iff, !Nat.eqb_eq in H. apply and_assoc. apply H.
  apply List.in_seq. lia.
Qed.

Lemma year_length (y : Z) :
  (1000 <= y <= 9999)%Z -> String.length (String_of_int y) = 4%nat.
Proof.
  intros Hy. destruct (Z.eq_dec y 9999%Z) as [->|]; [reflexivity|].
  apply year_step. lia.
Qed.

Lemma year_lt (a b : Z) :
  (1000 <= a)%Z -> (a < b)%Z -> (b <= 9999)%Z ->
  String.ltb (String_of_int a) (String_of_int b) = true.
Proof.
  intros Ha Hab Hb.
  remember (Z.to_nat (b - a - 1)) as n eqn:Hn. revert b Hab Hb Hn.
  induction n as [|n IH]; intros b Hab Hb Hn.
  - assert (b = a + 1)%Z as -> by lia. apply year_step. lia.
  - apply (string_ltb_trans _ (String_of_int (b - 1))).
    + apply IH; lia.
    + replace b with (b - 1 + 1)%Z at 2 by lia. apply year_step. lia.
Qed.

Lemma year_compare (a b : Z) :
  (1000 <= a <= 9999)%Z -> (1000 <= b <= 9999)%Z ->
  String.compare (String_of_int a) (String_of_int b) = (a ?= b)%Z.
Proof.
  intros Ha Hb. destruct (Z.compare_spec a b) as [->|Hlt|Hgt].
  - apply string_compare_refl.
  - apply string_ltb_compare, year_lt; lia.
  - rewrite String.compare_antisym.
    assert (H : String.compare (String_of_int b) (String_of_int a) = Lt)
      by (apply string_ltb_compare, year_lt; lia).
    now rewrite H.
Qed.


Lemma same_comparison_eq (c1 c2 : comparison) : Spec.same_comparison c1 c2 = true -> c1 = c2.
Proof. destruct c1, c2; simpl; congruence. Qed.

(** Months and days, padded to two digits, are two characters long and
    ordered like the numbers. *)
Lemma two_digit_fields :
  forallb (fun n1 =>
    forallb (fun n2 =>
      let s1 := padStart2 (String_of_int (Z.of_nat n1)) in
      let s2 := padStart2 (String_of_int (Z.of_nat n2)) in
      (String.length s1 =? 2)%nat
      && Spec.same_comparison (String.compare s1 s2) (Z.of_nat n1 ?= Z.of_nat n2)%Z)
      (seq 0 32))
    (seq 0 32) = true.
Proof. vm_compute. reflexivity. Qed.

Lemma pad2_compare (v1 v2 : Z) :
  (0 <= v1 <= 31)%Z -> (0 <= v2 <= 31)%Z ->
  String.length (padStart2 (String_of_int v1)) = 2%nat /\
  String.compare (padStart2 (String_of_int v1)) (padStart2 (String_of_int v2))
  = (v1 ?= v2)%Z.
Proof.
  intros H1 H2. pose proof two_digit_fields as H.
  rewrite List.forallb_forall in H.
  assert (In1 : In (Z.to_nat v1) (seq 0 32)) by (apply List.in_seq; lia).
  assert (In2 : In (Z.to_nat v2) (seq 0 32)) by (apply List.in_seq; lia).
  specialize (H (Z.to_nat v1) In1). rewrite List.forallb_forall in H.
  specialize (H (Z.to_nat v2) In2). rewrite !Z2Nat.id in H by lia. cbv zeta in H.
  rewrite andb_true_iff, Nat.eqb_eq in H. destruct H as [Hl Hc].
  split; [assumption|]. now apply same_comparison_eq.
Qed.

Lemma compare_next (a b : Z) : (a + 1 ?= b + 1)%Z = (a ?= b)%Z.
Proof. rewrite (Z.add_comm a 1), (Z.add_comm b 1). apply Z.add_compare_mono_l. Qed.

Lemma formatDate_compare (y1 m1 d1 y2 m2 d2 : Z) :
  Spec.four_digit_day y1 m1 d1 -> Spec.four_digit_day y2 m2 d2 ->
  String.compare (Screens.formatDate (LocalDate y1 m1 d1))
                 (Screens.formatDate (LocalDate y2 m2 d2))
  = Spec.compare_ymd y1 m1 d1 y2 m2 d2.
Proof.
  intros (Hy1 & Hm1 & Hd1) (Hy2 & Hm2 & Hd2). unfold Screens.formatDate, Spec.compare_ymd.
  rewrite string_compare_app, year_compare by (rewrite ?year_length; auto).
  destruct (y1 ?= y2)%Z; try reflexivity.
  rewrite string_compare_dash.
  destruct (pad2_compare (m1 + 1) (m2 + 1)) as [Hl Hc]; [lia|lia|].
  destruct (pad2_compare (m2 + 1) (m1 + 1)) as [Hl' _]; [lia|lia|].
  rewrite string_compare_app, Hc by congruence.
  rewrite compare_next.
  destruct (m1 ?= m2)%Z; try reflexivity.
  rewrite string_compare_dash. apply pad2_compare; lia.
Qed.

Lemma formatMonthKey_compare (y1 m1 d1 y2 m2 d2 : Z) :
  Spec.four_digit_day y1 m1 d1 -> Spec.four_digit_day y2 m2 d2 ->
  String.compare (BudgetScreen.formatMonthKey (LocalDate y1 m1 d1))
                 (BudgetScreen.formatMonthKey (LocalDate y2 m2 d2))
  = Spec.compare_ymd y1 m1 0 y2 m2 0.
Proof.
  intros (Hy1 & Hm1 & Hd1) (Hy2 & Hm2 & Hd2).
  unfold BudgetScreen.formatMonthKey, Spec.compare_ymd.
  rewrite string_compare_app, year_compare by (rewrite ?year_length; auto).
  destruct (y1 ?= y2)%Z; try reflexivity.
  rewrite string_compare_dash.
  destruct (pad2_compare (m1 + 1) (m2 + 1)) as [_ Hc]; [lia|lia|].
  rewrite Hc, compare_next. now destruct (m1 ?= m2)%Z.
Qed.

(** X17.  The formatted dates and month keys are ordered like the
    calendar, as long as the year has four digits.  For days and months of
    the years 1000 to 9999, comparing two strings produced by [formatDate]
    bytewise, as the range queries do, gives the calendar order of the two
    days, and comparing two strings produced by [formatMonthKey], as the
    budget fallback does, gives the calendar order of the two months.  With
    a fifth digit this is lost: the first day of the year 10000 is formatted
    to a string that comes before that of the last day of 9999. *)
Theorem formatted_dates_order_like_the_calendar (y1 m1 d1 y2 m2 d2 : Z) :
  Spec.four_digit_day y1 m1 d1 -> Spec.four_digit_day y2 m2 d2 ->
  String.compare (Screens.formatDate (LocalDate y1 m1 d1))
                 (Screens.formatDate (LocalDate y2 m2 d2))
  = Spec.compare_ymd y1 m1 d1 y2 m2 d2 /\
  String.compare (BudgetScreen.formatMonthKey (LocalDate y1 m1 d1))
                 (BudgetScreen.formatMonthKey (LocalDate y2 m2 d2))
  = Spec.compare_ymd y1 m1 0 y2 m2 0 /\
  String.ltb (Screens.formatDate (LocalDate 10000 0 1))
             (Screens.formatDate (LocalDate 9999 11 31)) = true.
Proof.
  intros H1 H2. split; [now apply formatDate_compare|].
  split; [now apply formatMonthKey_compare|reflexivity].
Qed.

Lemma formatted_dates_order_like_the_calendar_witness :
  String.compare (Screens.formatDate (LocalDate 2024 1 29))
                 (Screens.formatDate (LocalDate 2024 10 3)) = Lt.
Proof.
  assert (H1 : Spec.four_digit_day 2024 1 29) by (unfold Spec.four_digit_day; lia).
  assert (H2 : Spec.four_digit_day 2024 10 3) by (unfold Spec.four_digit_day; lia).
  rewrite (proj1 (formatted_dates_order_like_the_calendar 2024 1 29 2024 10 3 H1 H2)).
  reflexivity.
Defined.

Lemma string_leb_compare (a b : string) : String.leb a b = true <-> String.compare a b <> Gt.
Proof. unfold String.leb. destruct (String.compare a b); split; congruence. Qed.

Lemma compare_ymd_index (y1 m1 d1 y2 m2 d2 : Z) :
  (0 <= m1 <= 11)%Z -> (0 <= d1 <= 31)%Z -> (0 <= m2 <= 11)%Z -> (0 <= d2 <= 31)%Z ->
  Spec.compare_ymd y1 m1 d1 y2 m2 d2
  = ((y1 * 12 + m1) * 32 + d1 ?= (y2 * 12 + m2) * 32 + d2)%Z.
Proof.
  intros Hm1 Hd1 Hm2 Hd2. unfold Spec.compare_ymd. symmetry.
  destruct (Z.compare_spec y1 y2), (Z.compare_spec m1 m2), (Z.compare_spec d1 d2);
    first [apply Z.compare_eq_iff; lia | apply Z.compare_lt_iff; lia
          | apply Z.compare_gt_iff; lia].
Qed.

Lemma formatMonthStart_as_date (y m d0 : Z) :
  BudgetScreen.formatMonthStart (LocalDate y m d0) = Screens.formatDate (LocalDate y m 1).
Proof. reflexivity. Qed.

Lemma formatMonthEnd_as_date (y m d0 : Z) :
  (100 <= y)%Z ->
  BudgetScreen.formatMonthEnd (LocalDate y m d0)
  = Screens.formatDate (LocalDate (y + (m + 1) / 12) ((m + 1) mod 12) 1).
Proof.
  intros Hy. unfold BudgetScreen.formatMonthEnd, BudgetScreen.Date_first_of_month.
  replace (y <=? 99)%Z with false by (symmetry; apply Z.leb_gt; lia).
  rewrite andb_false_r. reflexivity.
Qed.

(** X18.  The range queried for a month holds exactly the days of that
    month.  Let the selected month be month [m] of a year [y] from 1000 to
    9998, and let a transaction be dated by [formatDate] on a day of a
    four-digit year.  Then the transaction is selected by the range
    [[formatMonthStart, formatMonthEnd)] of the selected month if and only if
    its day lies in that month of that year, December included. *)
Theorem month_range_selects_the_month (y m d0 y2 m2 d2 : Z) (t : TransactionRow) :
  (1000 <= y <= 9998)%Z -> (0 <= m <= 11)%Z -> Spec.four_digit_day y2 m2 d2 ->
  date t = Screens.formatDate (LocalDate y2 m2 d2) ->
  in_range (BudgetScreen.formatMonthStart (LocalDate y m d0))
           (BudgetScreen.formatMonthEnd (LocalDate y m d0)) t = true
  <-> y2 = y /\ m2 = m.
Proof.
  intros Hy Hm H2 Hdate. pose proof H2 as (Hy2 & Hm2 & Hd2).
  unfold in_range. rewrite Hdate, formatMonthStart_as_date, formatMonthEnd_as_date by lia.
  pose proof (Z.div_mod (m + 1) 12 ltac:(lia)) as Hdiv.
  pose proof (Z.mod_pos_bound (m + 1) 12 ltac:(lia)) as Hmod.
  set (q := ((m + 1) / 12)%Z) in *. set (r := ((m + 1) mod 12)%Z) in *.
  assert (Hq : (0 <= q <= 1)%Z) by lia.
  rewrite andb_true_iff, string_leb_compare, string_ltb_compare.
  rewrite !formatDate_compare by (unfold Spec.four_digit_day; lia).
  rewrite !compare_ymd_index by lia.
  rewrite Z.compare_gt_iff, Z.compare_lt_iff. lia.
Qed.

Lemma month_range_selects_the_month_witness :
  in_range (BudgetScreen.formatMonthStart (LocalDate 2024 11 1))
           (BudgetScreen.formatMonthEnd (LocalDate 2024 11 1))
           {| id := 1; amount := 3; category := "fun"; label := None;
              date := Screens.formatDate (LocalDate 2024 11 31) |} = true.
Proof.
  apply (month_range_selects_the_month 2024 11 1 2024 11 31); try lia.
  - unfold Spec.four_digit_day. lia.
  - reflexivity.
Defined.

Lemma getMonthsFromCurrent_loop_nth (y m d i0 : Z) (left k : nat) :
  nth_error (BudgetScreen.getMonthsFromCurrent_loop (LocalDate y m d) i0 left) k
  = if (k <? left)%nat
    then Some (BudgetScreen.Date_first_of_month y (m - (i0 + Z.of_nat k)))
    else None.
Proof.
  revert i0 k. induction left as [|left IH]; intros i0 k; simpl.
  - now destruct k.
  - destruct k as [|k]; simpl.
    + now rewrite Z.add_0_r.
    + rewrite IH. change (S k <? S left)%nat with (k <? left)%nat.
      destruct (k <? left)%nat; [|reflexivity].
      do 3 f_equal. lia.
Qed.

Lemma getMonthsFromCurrent_loop_length (base : Date) (i0 : Z) (left : nat) :
  List.length (BudgetScreen.getMonthsFromCurrent_loop base i0 left) = left.
Proof. revert i0. induction left as [|left IH]; intros i0; simpl; [reflexivity|]. now rewrite IH. Qed.

(** X19.  The month picker goes back month by month.  For a base date in
    month [m] of year [y], [getMonthsFromCurrent base count] has
    [count + 1] entries, each the first day of a month; the entry at
    position [i] lies exactly [i] months before the base month, so the list
    starts with the base month and every entry is the month before the
    previous one, the year changing after January.  The base year counts as
    it is, except that a year from 0 to 99 counts as 1900 more. *)
Theorem month_picker_goes_back_month_by_month (y m d : Z) (count : nat) :
  (0 <= m <= 11)%Z ->
  let months := BudgetScreen.getMonthsFromCurrent (LocalDate y m d) count in
  let base_year := if (0 <=? y)%Z && (y <=? 99)%Z then (1900 + y)%Z else y in
  List.length months = S count /\
  nth_error months 0 = Some (LocalDate base_year m 1) /\
  forall i, (i <= count)%nat ->
    exists y' m',
      nth_error months i = Some (LocalDate y' m' 1) /\
      (0 <= m' <= 11)%Z /\
      (y' * 12 + m' = base_year * 12 + m - Z.of_nat i)%Z.
Proof.
  intros Hm months base_year. unfold months, BudgetScreen.getMonthsFromCurrent.
  split; [apply getMonthsFromCurrent_loop_length|]. split.
  - rewrite getMonthsFromCurrent_loop_nth. simpl.
    unfold BudgetScreen.Date_first_of_month. fold base_year.
    rewrite Z.sub_0_r, Z.div_small, Z.mod_small by lia. now rewrite Z.add_0_r.
  - intros i Hi. rewrite getMonthsFromCurrent_loop_nth.
    replace (i <? S count)%nat with true by (symmetry; apply Nat.ltb_lt; lia).
    unfold BudgetScreen.Date_first_of_month. fold base_year.
    eexists. eexists. split; [reflexivity|].
    pose proof (Z.div_mod (m - (0 + Z.of_nat i)) 12 ltac:(lia)) as Hdiv.
    pose proof (Z.mod_pos_bound (m - (0 + Z.of_nat i)) 12 ltac:(lia)) as Hmod.
    lia.
Qed.

Lemma month_picker_goes_back_month_by_month_witness :
  exists y' m',
    nth_error (BudgetScreen.getMonthsFromCurrent (LocalDate 2024 1 17) 3) 2
    = Some (LocalDate y' m' 1) /\
    (0 <= m' <= 11)%Z /\ (y' * 12 + m' = 2024 * 12 + 1 - 2)%Z.
Proof.
  destruct (month_picker_goes_back_month_by_month 2024 1 17 3) as (_ & _ & H); [lia|].
  apply (H 2%nat). lia.
Defined.

(** * Further properties of the screens *)

Lemma nextTotals_step_lookup (acc : gmap string Q) (row : TotalRow) (c : string) :
  c <> "__proto__" -> is_Some (acc !! c) ->
  (if Object_in (tr_category row) acc
   then Object_set (tr_category row) (total row) acc
   else acc) !! c
  = if bool_decide (tr_category row = c) then Some (total row) else acc !! c.
Proof.
  intros Hc Hs. destruct (decide (tr_category row = c)) as [->|Hne].
  - rewrite (bool_decide_eq_true_2 (c = c)) by reflexivity.
    unfold Object_in. rewrite (bool_decide_eq_true_2 (is_Some (acc !! c))) by assumption.
    cbn [orb]. now apply Object_set_lookup_eq.
  - rewrite (bool_decide_eq_false_2 (tr_category row = c)) by assumption.
    destruct (Object_in (tr_category row) acc); [|reflexivity].
    now apply Object_set_lookup_ne.
Qed.

Lemma nextTotals_fold_lookup (rows : list TotalRow) (acc : gmap string Q) (c : string) :
  c <> "__proto__" ->
  List.NoDup (List.map tr_category rows) -> is_Some (acc !! c) ->
  fold_left
    (fun acc row =>
       if Object_in (tr_category row) acc
       then Object_set (tr_category row) (total row) acc
       else acc) rows acc !! c
  = match List.find (fun row => tr_category row =? c) rows with
    | Some row => Some (total row)
    | None => acc !! c
    end.
Proof.
  intros Hproto. revert acc.
  induction rows as [|row rows IH]; intros acc Hnd Hc; simpl; [reflexivity|].
  simpl in Hnd. inversion Hnd as [|? ? Hnot Hrest]; subst.
  assert (Hstep := nextTotals_step_lookup acc row c Hproto Hc).
  destruct (String.eqb_spec (tr_category row) c) as [E|E].
  - rewrite (bool_decide_eq_true_2 (tr_category row = c)) in Hstep by exact E.
    rewrite IH; [|assumption|rewrite Hstep; eauto].
    destruct (List.find (fun row0 => tr_category row0 =? c) rows) as [r|] eqn:F;
      [|exact Hstep].
    apply List.find_some in F as [Hin Hr]. apply String.eqb_eq in Hr.
    exfalso. apply Hnot. rewrite E, <- Hr. now apply List.in_map.
  - rewrite (bool_decide_eq_false_2 (tr_category row = c)) in Hstep by exact E.
    rewrite IH; [|assumption|now rewrite Hstep]. now rewrite Hstep.
Qed.

(** X20.  The totals shown default to zero.  In a healthy world, feeding
    the rows of [getMonthlyCategoryTotals] to the callback of [loadTotals]
    gives, for each of the three categories, the sum of the amounts of the
    month's transactions of that category, which is 0 when it has none; a
    row of any other category changes none of the three. *)
Theorem totals_default_to_zero (monthStart monthEnd : string) (w : World) :
  healthy w ->
  exists rows,
    fulfils (getMonthlyCategoryTotals monthStart monthEnd) w rows (db w) /\
    forall c, In c Screens.categories ->
      BudgetScreen.nextTotals rows !! c
      = Some (Spec.sum_amounts (Spec.in_month monthStart monthEnd c (transactions (db w)))) /\
      (Spec.in_month monthStart monthEnd c (transactions (db w)) = [] ->
       BudgetScreen.nextTotals rows !! c = Some 0%Q).
Proof.
  intros Hw. exists (select_category_totals monthStart monthEnd (db w)).
  split; [now apply getMonthlyCategoryTotals_fulfils|].
  intros c Hc.
  assert (Hinit : (<["boucherie" := 0%Q]> (<["groceries" := 0%Q]> (<["fun" := 0%Q]> ∅))
                   : gmap string Q) !! c = Some 0%Q).
  { simpl in Hc. destruct Hc as [<-|[<-|[<-|[]]]]; reflexivity. }
  assert (Hmain : BudgetScreen.nextTotals (select_category_totals monthStart monthEnd (db w))
                  !! c
                  = Some (Spec.sum_amounts
                            (Spec.in_month monthStart monthEnd c (transactions (db w))))).
  { unfold BudgetScreen.nextTotals.
    rewrite nextTotals_fold_lookup;
      [|simpl in Hc; destruct Hc as [<-|[<-|[<-|[]]]]; discriminate
       |apply select_category_totals_NoDup|rewrite Hinit; eauto].
    destruct (List.find _ _) as [row|] eqn:F.
    - apply List.find_some in F as [Hin Hr]. apply String.eqb_eq in Hr.
      apply select_category_totals_rows in Hin as [_ Ht]. now rewrite Ht, Hr.
    - rewrite Hinit.
      destruct (Spec.in_month monthStart monthEnd c (transactions (db w))) as [|t l] eqn:E;
        [reflexivity|].
      exfalso.
      assert (Hrow : In {| tr_category := c;
                           total := Spec.sum_amounts
                                      (Spec.in_month monthStart monthEnd c
                                         (transactions (db w))) |}
                        (select_category_totals monthStart monthEnd (db w))).
      { apply select_category_totals_rows. simpl. rewrite E. split; [discriminate|reflexivity]. }
      apply (List.find_none _ _ F) in Hrow. simpl in Hrow.
      now rewrite String.eqb_refl in Hrow. }
  split; [exact Hmain|]. intros E. now rewrite Hmain, E.
Qed.

Lemma totals_default_to_zero_witness :
  exists rows,
    fulfils (getMonthlyCategoryTotals "2024-06-01" "2024-07-01") Fixture.world rows
      (db Fixture.world) /\
    BudgetScreen.nextTotals rows !! "boucherie" = Some 0%Q /\
    BudgetScreen.nextTotals rows !! "fun" = Some 12%Q.
Proof.
  destruct (totals_default_to_zero "2024-06-01" "2024-07-01" Fixture.world
              fixture_world_healthy) as (rows & Hf & Hc).
  exists rows. split; [exact Hf|]. split.
  - apply (Hc "boucherie"); [simpl; auto|reflexivity].
  - destruct (Hc "fun") as [H _]; [simpl; auto|]. rewrite H. reflexivity.
Defined.

(** ** The handlers of the budget screen *)

Lemma try_catch_fulfils {A} (body : Async.T A) (handler : Error -> Async.T A) (w : World)
    (a : A) (d : Database) :
  fulfils body w a d -> fulfils (try_catch body handler) w a d.
Proof.
  intros (w' & H & Hh & Hd). exists w'. unfold try_catch. rewrite H. auto.
Qed.

Lemma not_negative (x : Q) : (0 <= x)%Q -> JS.lt (Fin x) (Fin 0) = false.
Proof.
  intros H. apply not_true_iff_false. rewrite number_lt_spec. now apply Qle_not_lt.
Qed.

Lemma resolution_after_upsert (M c : string) (x : Q) (d : Database) (cats : list string) :
  In c cats ->
  Spec.resolution_of (fold_left (resolve_step M (upsert_budget M c x d)) cats
                        {| amounts := ∅; exact := ∅ |}) c
  = if c =? "__proto__" then None
    else Some {| Spec.r_amount := x; Spec.r_exact := true |}.
Proof.
  intros Hc. rewrite resolve_fold_resolution by assumption.
  destruct (c =? "__proto__"); [reflexivity|].
  destruct (select_budget_exact c M (upsert_budget M c x d)) as [r|] eqn:E.
  - apply select_budget_exact_Some in E as (b & Hb & Hm & Hbc & Hv).
    rewrite <- Hv. f_equal. f_equal.
    apply (upsert_budget_rows_at_key M c x d); [assumption|]. now apply at_key_true.
  - exfalso. pose proof (upsert_budget_has_row M c x d) as H.
    apply List.existsb_exists in H as (b & Hb & Hk). apply at_key_true in Hk as [Hm Hbc].
    apply select_budget_exact_None in E. exact (E b Hb Hbc Hm).
Qed.

Lemma resolution_after_delete (M c : string) (d : Database) (cats : list string) :
  In c cats ->
  Spec.resolution_of (fold_left (resolve_step M (delete_budget M c d)) cats
                        {| amounts := ∅; exact := ∅ |}) c
  = if c =? "__proto__" then None
    else Some {| Spec.r_amount :=
                   amount_or_zero (select_budget_fallback c M (delete_budget M c d));
                 Spec.r_exact := false |}.
Proof.
  intros Hc. rewrite resolve_fold_resolution by assumption.
  destruct (c =? "__proto__"); [reflexivity|].
  assert (Hno : select_budget_exact c M (delete_budget M c d) = None).
  { apply select_budget_exact_None. rewrite delete_budget_budgets.
    apply no_exact_row_after_delete. }
  now rewrite Hno.
Qed.

(** X21.  Saving in the budget editor makes the amount the exact budget of
    the selected month.  In a healthy world, with a category being edited
    and an amount that [Number] reads as a finite number [x >= 0],
    [handleBudgetSave] fulfils and a resolution for the selected month that
    follows reports amount [x], exact, for that category (and nothing for
    the category [__proto__], a name under which the resolver's objects
    store nothing); the transactions
    are untouched; the editor is closed with no error left, one reload of
    the totals has been started and one alert shown. *)
Theorem budget_save_sets_the_exact_budget (Number : string -> number)
    (s : BudgetScreen.State) (c : string) (x : Q) (categories : list string) (w : World) :
  healthy w -> In c categories ->
  BudgetScreen.editingCategory s = Some c -> c <> "" ->
  Number (replace_comma_by_dot (BudgetScreen.editingAmount s)) = Fin x -> (0 <= x)%Q ->
  exists s' r d',
    fulfils (s' ← BudgetScreen.handleBudgetSave Number s;
             r ← getMonthlyBudgetsWithFallbackStatus
                   (BudgetScreen.formatMonthKey (BudgetScreen.selectedMonth s')) categories;
             mret (s', r)) w (s', r) d' /\
    Spec.resolution_of r c
    = (if c =? "__proto__" then None
       else Some {| Spec.r_amount := x; Spec.r_exact := true |}) /\
    transactions d' = transactions (db w) /\
    BudgetScreen.selectedMonth s' = BudgetScreen.selectedMonth s /\
    BudgetScreen.editingCategory s' = None /\
    BudgetScreen.budgetError s' = None /\
    BudgetScreen.error s' = None /\
    BudgetScreen.loads s' = S (BudgetScreen.loads s) /\
    BudgetScreen.notices s'
    = (BudgetScreen.notices s ++ [Screens.Alert "Budget updated" "Budget updated."])%list.
Proof.
  intros Hw Hc Hed Hne Hnum Hx.
  set (M := BudgetScreen.formatMonthKey (BudgetScreen.selectedMonth s)).
  set (d1 := upsert_budget M c x (db w)).
  set (s1 := BudgetScreen.alert "Budget updated" "Budget updated."
               (BudgetScreen.closeBudgetEditor (BudgetScreen.startLoadTotals s))).
  exists s1, (fold_left (resolve_step M d1) categories {| amounts := ∅; exact := ∅ |}), d1.
  split; [|split; [now apply resolution_after_upsert|split;
                   [apply upsert_budget_transactions|repeat split]]].
  eapply bind_fulfils with (a := s1) (d := d1).
  - unfold BudgetScreen.handleBudgetSave, BudgetScreen.no_editingCategory.
    rewrite Hed, Hnum. apply String.eqb_neq in Hne. rewrite Hne.
    change (default "" (Some c)) with c.
    cbn [Number_isFinite negb orb Screens.REAL_of_number].
    rewrite (not_negative x Hx).
    apply try_catch_fulfils.
    eapply bind_fulfils; [apply upsertBudget_fulfils, Hw|].
    intros w1 Hw1 Hd1. fold M d1 in Hd1. fold s1. rewrite <- Hd1. now apply ret_fulfils.
  - intros w1 Hw1 Hd1. change (BudgetScreen.selectedMonth s1) with (BudgetScreen.selectedMonth s).
    fold M. rewrite <- Hd1. eapply bind_fulfils; [apply status_fulfils, Hw1|].
    intros w2 Hw2 Hd2. rewrite <- Hd2. now apply ret_fulfils.
Qed.

Lemma budget_save_sets_the_exact_budget_witness :
  exists s' r d',
    fulfils (s' ← BudgetScreen.handleBudgetSave Fixture.Number (Fixture.budget_editor "12,5");
             r ← getMonthlyBudgetsWithFallbackStatus
                   (BudgetScreen.formatMonthKey (BudgetScreen.selectedMonth s'))
                   Screens.categories;
             mret (s', r)) Fixture.world (s', r) d' /\
    Spec.resolution_of r "groceries"
    = Some {| Spec.r_amount := 25 # 2; Spec.r_exact := true |} /\
    BudgetScreen.editingCategory s' = None.
Proof.
  destruct (budget_save_sets_the_exact_budget Fixture.Number (Fixture.budget_editor "12,5")
              "groceries" (25 # 2) Screens.categories Fixture.world fixture_world_healthy)
    as (s' & r & d' & Hf & Hr & _ & _ & Hed & _);
    [simpl; auto|reflexivity|discriminate|reflexivity|discriminate|].
  exists s', r, d'. auto.
Defined.

(** X22.  Resetting a budget returns the category to fallback for the
    selected month and touches nothing else.  In a healthy world
    [handleBudgetReset c] fulfils; a resolution for the selected month that
    follows reports category [c] as not exact (and nothing for the
    category [__proto__], a name under which the resolver's objects store
    nothing), and every other requested category as a resolution before
    the reset reports it; the Budget table
    has lost the rows of [c] for the selected month and no other, the
    transactions are untouched; one reload of the totals has been started,
    one alert shown, and the editor is as it was. *)
Theorem budget_reset_returns_to_fallback (s : BudgetScreen.State) (c : string)
    (categories : list string) (w : World) :
  healthy w -> In c categories ->
  let M := BudgetScreen.formatMonthKey (BudgetScreen.selectedMonth s) in
  exists r0 s' r d',
    fulfils (getMonthlyBudgetsWithFallbackStatus M categories) w r0 (db w) /\
    fulfils (s' ← BudgetScreen.handleBudgetReset c s;
             r ← getMonthlyBudgetsWithFallbackStatus
                   (BudgetScreen.formatMonthKey (BudgetScreen.selectedMonth s')) categories;
             mret (s', r)) w (s', r) d' /\
    (exists a, Spec.resolution_of r c
               = if c =? "__proto__" then None
                 else Some {| Spec.r_amount := a; Spec.r_exact := false |}) /\
    (forall c', In c' categories -> c' <> c ->
       Spec.resolution_of r c' = Spec.resolution_of r0 c') /\
    budgets d' = List.filter (fun b => negb (at_key M c b)) (budgets (db w)) /\
    transactions d' = transactions (db w) /\
    BudgetScreen.editingCategory s' = BudgetScreen.editingCategory s /\
    BudgetScreen.editingAmount s' = BudgetScreen.editingAmount s /\
    BudgetScreen.budgetError s' = BudgetScreen.budgetError s /\
    BudgetScreen.error s' = None /\
    BudgetScreen.loads s' = S (BudgetScreen.loads s) /\
    BudgetScreen.notices s'
    = (BudgetScreen.notices s
       ++ [Screens.Alert "Budget reset" "Budget reset for this month."])%list.
Proof.
  intros Hw Hc M. set (d1 := delete_budget M c (db w)).
  set (s1 := BudgetScreen.alert "Budget reset" "Budget reset for this month."
               (BudgetScreen.startLoadTotals s)).
  exists (fold_left (resolve_step M (db w)) categories {| amounts := ∅; exact := ∅ |}),
    s1, (fold_left (resolve_step M d1) categories {| amounts := ∅; exact := ∅ |}), d1.
  split; [now apply status_fulfils|]. split.
  { eapply bind_fulfils with (a := s1) (d := d1).
    - unfold BudgetScreen.handleBudgetReset. apply try_catch_fulfils.
      eapply bind_fulfils; [apply deleteBudgetForMonth_fulfils, Hw|].
      intros w1 Hw1 Hd1. fold M d1 in Hd1. fold s1. rewrite <- Hd1. now apply ret_fulfils.
    - intros w1 Hw1 Hd1.
      change (BudgetScreen.selectedMonth s1) with (BudgetScreen.selectedMonth s). fold M.
      rewrite <- Hd1. eapply bind_fulfils; [apply status_fulfils, Hw1|].
      intros w2 Hw2 Hd2. rewrite <- Hd2. now apply ret_fulfils. }
  split; [unfold d1; rewrite resolution_after_delete by assumption; eauto|].
  split; [|repeat split].
  intros c' Hc' Hne. rewrite !resolve_fold_resolution by assumption.
  destruct (c' =? "__proto__"); [reflexivity|].
  destruct (delete_budget_out_of_reach M c M c' (db w)) as [He Hf]; [now left|].
  fold d1 in He, Hf. now rewrite He, Hf.
Qed.

Lemma budget_reset_returns_to_fallback_witness :
  exists s' r d',
    fulfils (s' ← BudgetScreen.handleBudgetReset "fun" (Fixture.budget_editor "0");
             r ← getMonthlyBudgetsWithFallbackStatus
                   (BudgetScreen.formatMonthKey (BudgetScreen.selectedMonth s'))
                   Screens.categories;
             mret (s', r)) Fixture.world (s', r) d' /\
    (exists a, Spec.resolution_of r "fun"
               = Some {| Spec.r_amount := a; Spec.r_exact := false |}) /\
    List.map bg_id (budgets d') = [1; 2]%Z.
Proof.
  destruct (budget_reset_returns_to_fallback (Fixture.budget_editor "0") "fun"
              Screens.categories Fixture.world fixture_world_healthy)
    as (r0 & s' & r & d' & _ & Hf & Hr & _ & Hb & _); [simpl; auto|].
  exists s', r, d'. split; [exact Hf|]. split; [exact Hr|]. now rewrite Hb.
Defined.

(** X23.  The Save button of the budget editor is enabled only for input
    that [handleBudgetSave] accepts.  Whatever [Number] computes:
    - when [isSaveDisabled] is false, the amount read is a finite number
      that is not negative;
    - when a category is being edited and the amount read is not finite or
      is negative, [isSaveDisabled] is true, and [handleBudgetSave], in any
      world, leaves the world exactly as it is (no driver call, no row
      written) and changes nothing of the screen but the editor's error;
    - when no category is being edited, [handleBudgetSave] does nothing at
      all. *)
Theorem save_button_guards_validation (Number : string -> number) (s : BudgetScreen.State)
    (w : World) :
  let parsedAmount := Number (replace_comma_by_dot (BudgetScreen.editingAmount s)) in
  (BudgetScreen.isSaveDisabled Number s = false ->
   exists x, parsedAmount = Fin x /\ (0 <= x)%Q) /\
  (BudgetScreen.no_editingCategory s = false ->
   Number_isFinite parsedAmount = false \/ JS.lt parsedAmount (Fin 0) = true ->
   BudgetScreen.isSaveDisabled Number s = true /\
   BudgetScreen.handleBudgetSave Number s w
   = (Fulfilled (BudgetScreen.setBudgetError (Some "Enter a valid amount (0 or more).") s),
      w)) /\
  (BudgetScreen.no_editingCategory s = true ->
   BudgetScreen.handleBudgetSave Number s w = (Fulfilled s, w)).
Proof.
  intros parsedAmount. split; [|split].
  - unfold BudgetScreen.isSaveDisabled. fold parsedAmount. intros H.
    apply orb_false_iff in H as [H Hlt]. apply orb_false_iff in H as [_ Hfin].
    destruct parsedAmount as [| | |x]; try discriminate. exists x. split; [reflexivity|].
    apply Qnot_lt_le. intros Hx. apply number_lt_spec in Hx. congruence.
  - intros Hcat Hbad.
    assert (Hb : negb (Number_isFinite parsedAmount) || JS.lt parsedAmount (Fin 0) = true).
    { destruct Hbad as [-> | ->]; [reflexivity|apply orb_true_r]. }
    split.
    + unfold BudgetScreen.isSaveDisabled. fold parsedAmount.
      rewrite <- orb_assoc, Hb. apply orb_true_r.
    + unfold BudgetScreen.handleBudgetSave. fold parsedAmount. now rewrite Hcat, Hb.
  - intros Hcat. unfold BudgetScreen.handleBudgetSave. now rewrite Hcat.
Qed.

Lemma save_button_guards_validation_witness :
  BudgetScreen.isSaveDisabled Fixture.Number (Fixture.budget_editor "-3") = true /\
  BudgetScreen.handleBudgetSave Fixture.Number (Fixture.budget_editor "-3")
    Fixture.faulty_world
  = (Fulfilled (BudgetScreen.setBudgetError (Some "Enter a valid amount (0 or more).")
                  (Fixture.budget_editor "-3")), Fixture.faulty_world).
Proof.
  apply (save_button_guards_validation Fixture.Number (Fixture.budget_editor "-3")
           Fixture.faulty_world); [reflexivity|right; reflexivity].
Defined.

(** ** The handlers of the expenses screen and of the form *)

Lemma call_outcome {A} (sql : string) (read : Database -> A) (write : Database -> Database)
    (w w' : World) (r : Settled A) :
  call sql read write w = (r, w') ->
  match r with
  | Fulfilled a => a = read (db w) /\ db w' = write (db w)
  | Rejected _ => db w' = db w
  end.
Proof.
  unfold call, pop_fault. destruct (faults w) as [|[e|] fs]; intros [= <- <-]; simpl; auto.
Qed.

Lemma guarded_call_outcome {A} (sql : string) (read : Database -> A)
    (write : Database -> Database) (w w' : World) (r : Settled A) :
  (_ ← getDb; call sql read write) w = (r, w') ->
  match r with
  | Fulfilled a => a = read (db w) /\ db w' = write (db w)
  | Rejected _ => db w' = db w
  end.
Proof.
  rewrite bind_run. destruct (getDb w) as [[[]|e] w1] eqn:E.
  - intros H. apply call_outcome in H. now rewrite (getDb_read_only w _ w1 E) in H.
  - intros [= <- <-]. exact (getDb_read_only w _ w1 E).
Qed.


Lemma initDb_fulfils (w : World) : healthy w -> fulfils initDb w tt (db w).
Proof.
  intros Hw. unfold initDb, execAsync.
  eapply bind_fulfils; [apply getDb_fulfils, Hw|]. intros w1 Hw1 Hd1.
  eapply bind_fulfils; [apply (call_fulfils _ (fun _ => tt) (fun d => d)), Hw1|].
  intros w2 Hw2 Hd2. cbv beta in Hd2.
  eapply bind_fulfils; [apply (call_fulfils _ (fun _ => tt) (fun d => d)), Hw2|].
  intros w3 Hw3 Hd3. cbv beta in Hd3.
  eapply bind_fulfils; [apply (call_fulfils _ (fun _ => tt) (fun d => d)), Hw3|].
  intros w4 Hw4 Hd4. cbv beta in Hd4.
  replace (db w) with (db w4) by congruence. now apply ret_fulfils.
Qed.

Lemma reloadTransactions_fulfils (s : Screens.ExpensesState) (w : World) :
  healthy w ->
  fulfils (Screens.reloadTransactions s) w
    (Screens.e_setRows (select_transactions (db w)) (Screens.e_setError None s)) (db w).
Proof.
  intros Hw. unfold Screens.reloadTransactions. apply try_catch_fulfils.
  eapply bind_fulfils; [apply initDb_fulfils, Hw|]. intros w1 Hw1 Hd1.
  eapply bind_fulfils; [apply getTransactions_fulfils, Hw1|]. intros w2 Hw2 Hd2.
  rewrite Hd1 in Hd2 |- *. rewrite <- Hd2. now apply ret_fulfils.
Qed.

Lemma select_transactions_sorted (d : Database) :
  StronglySorted (fun x y => (id y <= id x)%Z) (select_transactions d).
Proof.
  unfold select_transactions.
  eapply StronglySorted_ind with (P := StronglySorted (fun x y => (id y <= id x)%Z));
    [constructor| |apply order_by_sorted].
  - intros a l _ IH Hall. constructor; [exact IH|].
    eapply List.Forall_impl; [|exact Hall]. intros b Hb. now apply Z.leb_le in Hb.
  - intros a b. destruct (Z.leb_spec (id b) (id a)); [now left|right].
    apply Z.leb_le. lia.
  - intros a b c Hab Hbc. apply Z.leb_le in Hab, Hbc. apply Z.leb_le. lia.
Qed.



Lemma deleteTransactions_all_or_nothing (ids : list Z) :
  Spec.all_or_nothing (deleteTransactions ids).
Proof.
  unfold deleteTransactions. destruct (List.length ids =? 0)%nat.
  - intros w e w' H. discriminate.
  - apply getDb_then_all_or_nothing, call_all_or_nothing.
Qed.

(** X25.  Deleting the selection removes exactly the selected rows and
    shows what is left.  With a selection that is not empty:
    - in a healthy world [handleDelete] fulfils; the table keeps exactly
      the rows whose id is not selected, the Budget table is untouched; the
      rows shown are those of the table after the deletion, most recent id
      first, none of them selected; the selection is empty, no error is
      shown, and one alert tells the number of ids that were selected;
    - in any world, when [deleteTransactions] rejects, the handler still
      fulfils, both tables are as before, and the screen keeps its rows
      and its selection and shows 'Could not delete transactions.'.
    With an empty selection the handler does nothing, in any world. *)
Theorem handleDelete_removes_the_selection (s : Screens.ExpensesState) (w : World) :
  let ids := Screens.e_selectedIds s in
  (ids <> [] -> healthy w ->
   exists s' d',
     fulfils (Screens.handleDelete s) w s' d' /\
     (forall t, In t (transactions d') <-> In t (transactions (db w)) /\ ~ In (id t) ids) /\
     budgets d' = budgets (db w) /\
     Permutation (Screens.e_rows s') (transactions d') /\
     StronglySorted (fun x y => (id y <= id x)%Z) (Screens.e_rows s') /\
     (forall t, In t (Screens.e_rows s') -> ~ In (id t) ids) /\
     Screens.e_selectedIds s' = [] /\
     Screens.e_error s' = None /\
     Screens.e_notices s'
     = (Screens.e_notices s
        ++ [Screens.Alert "Deleted"
              ("Deleted " ++ String_of_int (Z.of_nat (List.length ids))
                 ++ " transaction(s).")])%list) /\
  (forall e w', deleteTransactions ids w = (Rejected e, w') ->
     Screens.handleDelete s w
     = (Fulfilled (Screens.e_setError (Some "Could not delete transactions.") s), w') /\
     db w' = db w) /\
  (ids = [] -> Screens.handleDelete s w = (Fulfilled s, w)).
Proof.
  intros ids. split; [|split].
  - intros Hids Hw. set (d1 := delete_transactions_in ids (db w)).
    assert (Hin : forall t, In t (transactions d1)
                            <-> In t (transactions (db w)) /\ ~ In (id t) ids).
    { intros t. simpl. rewrite List.filter_In, negb_true_iff, <- not_true_iff_false.
      now rewrite existsb_id_In. }
    exists (Screens.e_deleted (List.length ids)
              (Screens.e_setRows (select_transactions d1) (Screens.e_setError None s))), d1.
    split; [|split; [exact Hin|split; [reflexivity|split; [apply order_by_perm|
             split; [apply select_transactions_sorted|split; [|repeat split]]]]]].
    + unfold Screens.handleDelete. fold ids.
      destruct ids as [|i ids'] eqn:E; [congruence|]. cbn [List.length Nat.eqb].
      apply try_catch_fulfils.
      eapply bind_fulfils; [apply deleteTransactions_fulfils, Hw|]. intros w1 Hw1 Hd1.
      fold d1 in Hd1.
      eapply bind_fulfils; [apply reloadTransactions_fulfils, Hw1|]. intros w2 Hw2 Hd2.
      rewrite Hd1 in Hd2 |- *. rewrite <- Hd2. now apply ret_fulfils.
    + intros t Ht. cbn [Screens.e_rows Screens.e_deleted Screens.e_setRows] in Ht.
      apply (Permutation_in _ (order_by_perm _ _)) in Ht. now apply Hin in Ht.
  - intros e w' H. split; [|exact (deleteTransactions_all_or_nothing ids w e w' H)].
    unfold Screens.handleDelete. fold ids.
    destruct ids as [|i ids'] eqn:E; [discriminate|]. cbn [List.length Nat.eqb].
    unfold try_catch. now rewrite bind_run, H.
  - intros E. unfold Screens.handleDelete. fold ids. now rewrite E.
Qed.

Lemma handleDelete_removes_the_selection_witness :
  exists s' d',
    fulfils (Screens.handleDelete (Fixture.expenses [2; 3]%Z "" InvalidDate)) Fixture.world
      s' d' /\
    (forall t, In t (Screens.e_rows s') -> id t <> 2%Z /\ id t <> 3%Z) /\
    Screens.e_selectedIds s' = [].
Proof.
  destruct (handleDelete_removes_the_selection (Fixture.expenses [2; 3]%Z "" InvalidDate)
              Fixture.world) as (H & _ & _).
  destruct H as (s' & d' & Hf & _ & _ & _ & _ & Hout & Hsel & _);
    [discriminate|exact fixture_world_healthy|].
  exists s', d'. split; [exact Hf|]. split; [|exact Hsel].
  intros t Ht. apply Hout in Ht. cbn [Fixture.expenses Screens.e_selectedIds In] in Ht.
  split; intros E; apply Ht; auto.
Defined.

Lemma includes_In (arr : list string) (x : string) : In x arr -> includes arr x = true.
Proof.
  intros H. unfold includes. apply List.existsb_exists. exists x.
  split; [assumption|apply String.eqb_refl].
Qed.

Lemma greater_than_zero (x : Q) : (0 < x)%Q -> JS.le (Fin x) (Fin 0) = false.
Proof. intros H. now apply number_ge_false. Qed.

(** X26.  Saving an edit rewrites the selected row and shows the table as
    it then is.  In a healthy world, with exactly one id [i] selected, an
    amount that [Number] reads as a finite number [x > 0], a category of
    the list and a valid date, [handleEditSave] fulfils; every row of id
    [i] now carries [x], the category, the trimmed label (null when blank)
    and the formatted date, every other row is unchanged and in its place,
    the Budget table is untouched; the rows shown are those of the table
    after the update, most recent id first; the selection is empty, the
    modal closed, no error shown and one alert raised. *)
Theorem handleEditSave_updates_the_selected_row (Number : string -> number)
    (s : Screens.ExpensesState) (i : Z) (x : Q) (y m d : Z) (w : World) :
  healthy w ->
  Screens.e_selectedIds s = [i] ->
  Number (replace_comma_by_dot (Screens.e_editAmount s)) = Fin x -> (0 < x)%Q ->
  In (Screens.e_editCategory s) Screens.categories ->
  Screens.e_editDate s = LocalDate y m d ->
  let row := {| id := i; amount := x; category := Screens.e_editCategory s;
                label := Screens.label_or_null (trim (Screens.e_editLabel s));
                date := Screens.formatDate (LocalDate y m d) |} in
  exists s' d',
    fulfils (Screens.handleEditSave Number s) w s' d' /\
    List.length (transactions d') = List.length (transactions (db w)) /\
    (forall n t0, nth_error (transactions (db w)) n = Some t0 ->
       nth_error (transactions d') n = Some (if (id t0 =? i)%Z then row else t0)) /\
    budgets d' = budgets (db w) /\
    Permutation (Screens.e_rows s') (transactions d') /\
    StronglySorted (fun a b => (id b <= id a)%Z) (Screens.e_rows s') /\
    ((exists t0, In t0 (transactions (db w)) /\ id t0 = i) -> In row (Screens.e_rows s')) /\
    Screens.e_selectedIds s' = [] /\
    Screens.e_editing s' = false /\
    Screens.e_error s' = None /\
    Screens.e_notices s'
    = (Screens.e_notices s ++ [Screens.Alert "Updated" "Transaction updated."])%list.
Proof.
  intros Hw Hsel Hnum Hx Hcat Hdate row.
  set (d1 := update_transaction i x (Screens.e_editCategory s)
               (Screens.label_or_null (trim (Screens.e_editLabel s)))
               (Screens.formatDate (LocalDate y m d)) (db w)).
  assert (Hnth : forall n t0, nth_error (transactions (db w)) n = Some t0 ->
            nth_error (transactions d1) n = Some (if (id t0 =? i)%Z then row else t0)).
  { intros n t0 Hn. simpl. rewrite List.nth_error_map, Hn. simpl.
    destruct (Z.eqb_spec (id t0) i) as [->|]; reflexivity. }
  exists (Screens.e_updated
            (Screens.e_setRows (select_transactions d1)
               (Screens.e_setError None (Screens.e_setError None s)))), d1.
  split; [|split; [apply List.length_map|split; [exact Hnth|split; [reflexivity|
           split; [apply order_by_perm|split; [apply select_transactions_sorted|
           split; [|repeat split]]]]]]].
  - unfold Screens.handleEditSave.
    cbn [Screens.e_editAmount Screens.e_editCategory Screens.e_editDate
         Screens.e_editLabel Screens.e_selectedIds Screens.e_setError].
    rewrite Hsel, Hnum, Hdate, (includes_In _ _ Hcat).
    cbn [List.length Nat.eqb negb orb Number_isFinite Date_time_isNaN hd
         Screens.REAL_of_number].
    rewrite (greater_than_zero x Hx).
    apply try_catch_fulfils.
    eapply bind_fulfils; [apply updateTransaction_fulfils, Hw|]. intros w1 Hw1 Hd1.
    fold d1 in Hd1.
    eapply bind_fulfils; [apply reloadTransactions_fulfils, Hw1|]. intros w2 Hw2 Hd2.
    rewrite Hd1 in Hd2 |- *. rewrite <- Hd2. now apply ret_fulfils.
  - intros (t0 & Ht0 & Hid).
    cbn [Screens.e_rows Screens.e_updated Screens.e_setRows].
    apply (Permutation_in _ (Permutation_sym (order_by_perm _ _))).
    apply List.In_nth_error in Ht0 as (n & Hn). apply Hnth in Hn.
    apply Z.eqb_eq in Hid. rewrite Hid in Hn. eapply List.nth_error_In. exact Hn.
Qed.

Lemma handleEditSave_updates_the_selected_row_witness :
  exists s' d',
    fulfils (Screens.handleEditSave Fixture.Number
               (Fixture.expenses [3]%Z "12,5" (LocalDate 2024 5 9))) Fixture.world s' d' /\
    In {| id := 3; amount := 25 # 2; category := "groceries"; label := Some "market";
          date := "2024-06-09" |} (Screens.e_rows s') /\
    Screens.e_editing s' = false.
Proof.
  destruct (handleEditSave_updates_the_selected_row Fixture.Number
              (Fixture.expenses [3]%Z "12,5" (LocalDate 2024 5 9)) 3 (25 # 2) 2024 5 9
              Fixture.world fixture_world_healthy)
    as (s' & d' & Hf & _ & _ & _ & _ & _ & Hrow & _ & Hed & _);
    [reflexivity|reflexivity|reflexivity|simpl; auto|reflexivity|].
  exists s', d'. split; [exact Hf|]. split; [|exact Hed].
  apply Hrow. eexists. split; [right; right; left; reflexivity|reflexivity].
Defined.

(** X27.  The form notifies its listeners exactly when a row was written,
    and a listener that throws does not undo the save.  Whatever [Number]
    computes and in any world, with or without faults, for input that passes
    validation (a finite amount [x > 0], a category of the list, a valid
    date) [handleSubmit] fulfils, and one of two things has happened.
    - The form was ready and one row was appended to the table with the
      next id, amount [x], the category, the trimmed label (null when
      blank) and the formatted date, the Budget table being untouched; the
      fields are reset and the success message is 'Saved.';
      [emitTransactionsChanged] was called, once.  When that call returned,
      [onSaved] was called after it if the property was passed, and the
      error is empty unless [onSaved] threw.  When either call threw, the
      row stays written, nothing more is called, and the error is 'Could
      not save the transaction.' beside the success message.
    - Or both tables are exactly as before, nobody was notified, the
      fields keep their input, and the error is 'Database is not ready.'
      when the form was not ready and 'Could not save the transaction.'
      otherwise.
    A form that is not ready does not reach the storage at all, and in a
    healthy world a form that is ready saves. *)
Theorem submit_notifies_iff_saved (Number : string -> number) (now : Date) (onSaved : bool)
    (s : Screens.FormState) (x : Q) (w : World) :
  Number (replace_comma_by_dot (Screens.f_amount s)) = Fin x -> (0 < x)%Q ->
  In (Screens.f_category s) Screens.categories ->
  Date_time_isNaN (Screens.f_transactionDate s) = false ->
  let row := {| id := transactions_seq (db w) + 1; amount := x;
                category := Screens.f_category s;
                label := Screens.label_or_null (trim (Screens.f_label s));
                date := Screens.formatDate (Screens.f_transactionDate s) |} in
  let failed := Some "Could not save the transaction." in
  exists s' w',
    Screens.handleSubmit Number now onSaved s w = (Fulfilled s', w') /\
    ((Screens.f_dbReady s = true /\
      transactions (db w') = (transactions (db w) ++ [row])%list /\
      budgets (db w') = budgets (db w) /\
      Screens.f_success s' = Some "Saved." /\
      Screens.f_amount s' = "" /\ Screens.f_label s' = "" /\
      Screens.f_category s' = "fun" /\ Screens.f_transactionDate s' = now /\
      match Screens.f_throws s Screens.EmitTransactionsChanged with
      | Some _ =>
          Screens.f_notices s'
          = (Screens.f_notices s ++ [Screens.EmitTransactionsChanged])%list /\
          Screens.f_error s' = failed
      | None =>
          Screens.f_notices s'
          = (Screens.f_notices s ++ [Screens.EmitTransactionsChanged]
               ++ (if onSaved then [Screens.OnSaved] else []))%list /\
          Screens.f_error s'
          = (if onSaved
             then match Screens.f_throws s Screens.OnSaved with
                  | Some _ => failed
                  | None => None
                  end
             else None)
      end) \/
     (db w' = db w /\
      Screens.f_success s' = None /\
      Screens.f_notices s' = Screens.f_notices s /\
      Screens.f_error s'
      = Some (if Screens.f_dbReady s then "Could not save the transaction."
              else "Database is not ready.") /\
      Screens.f_amount s' = Screens.f_amount s /\
      Screens.f_label s' = Screens.f_label s /\
      Screens.f_category s' = Screens.f_category s /\
      Screens.f_transactionDate s' = Screens.f_transactionDate s)) /\
    (Screens.f_dbReady s = false -> w' = w) /\
    (healthy w -> Screens.f_dbReady s = true -> Screens.f_success s' = Some "Saved.").
Proof.
  intros Hnum Hx Hcat Hdate row failed. unfold Screens.handleSubmit.
  cbn [Screens.f_amount Screens.f_category Screens.f_transactionDate Screens.f_label
       Screens.f_dbReady Screens.f_setError Screens.f_setSuccess].
  rewrite Hnum, Hdate, (includes_In _ _ Hcat).
  cbn [negb orb Number_isFinite Screens.REAL_of_number].
  rewrite (greater_than_zero x Hx).
  destruct (Screens.f_dbReady s) eqn:Er; cbn [negb].
  - unfold try_catch. rewrite bind_run.
    destruct (insertTransaction x (Screens.f_category s)
                (Screens.label_or_null (trim (Screens.f_label s)))
                (Screens.formatDate (Screens.f_transactionDate s)) w)
      as [[[]|e] w1] eqn:E.
    + pose proof E as E'. unfold insertTransaction, runAsync in E'.
      apply guarded_call_outcome in E' as [_ Hd1].
      eexists. exists w1. split; [reflexivity|].
      split; [left|split; [discriminate|]].
      * rewrite Hd1. unfold Screens.f_saved, Screens.f_call.
        cbn [Screens.f_throws Screens.f_reset Screens.f_setError Screens.f_setSuccess].
        destruct (Screens.f_throws s Screens.EmitTransactionsChanged) as [e1|].
        { repeat split. }
        destruct onSaved; [|repeat split].
        cbn [Screens.f_throws].
        destruct (Screens.f_throws s Screens.OnSaved) as [e2|]; repeat split;
          cbn [Screens.f_notices Screens.f_setError]; now rewrite <- List.app_assoc.
      * intros _ _. unfold Screens.f_saved, Screens.f_call.
        cbn [Screens.f_throws Screens.f_reset Screens.f_setError Screens.f_setSuccess].
        destruct (Screens.f_throws s Screens.EmitTransactionsChanged); [reflexivity|].
        destruct onSaved; [|reflexivity]. cbn [Screens.f_throws].
        destruct (Screens.f_throws s Screens.OnSaved); reflexivity.
    + pose proof E as E'. unfold insertTransaction, runAsync in E'.
      apply guarded_call_outcome in E'.
      eexists. exists w1. split; [reflexivity|]. split; [right; repeat split; exact E'|].
      split; [discriminate|]. intros Hw _. exfalso.
      destruct (insertTransaction_fulfils x (Screens.f_category s)
                  (Screens.label_or_null (trim (Screens.f_label s)))
                  (Screens.formatDate (Screens.f_transactionDate s)) w Hw) as (w2 & H2 & _).
      rewrite E in H2. discriminate.
  - eexists. exists w. split; [reflexivity|]. split; [right; repeat split|].
    split; [reflexivity|discriminate].
Qed.

(** With a listener that throws, the row is written, the form says
    'Saved.' and shows the error as well. *)
Lemma submit_notifies_iff_saved_witness :
  exists s' w',
    Screens.handleSubmit Fixture.Number Fixture.now true
      (Fixture.form_with_throwing_listener "12,5") Fixture.world = (Fulfilled s', w') /\
    List.length (transactions (db w')) = 6%nat /\
    Screens.f_success s' = Some "Saved." /\
    Screens.f_error s' = Some "Could not save the transaction." /\
    Screens.f_notices s' = [Screens.EmitTransactionsChanged].
Proof.
  destruct (submit_notifies_iff_saved Fixture.Number Fixture.now true
              (Fixture.form_with_throwing_listener "12,5") (25 # 2) Fixture.world)
    as (s' & w' & Hrun & [(_ & Hrows & _ & Hok & _ & _ & _ & _ & Hn & He)
                         |(_ & Hnone & _)] & _ & Hsaved);
    [reflexivity|reflexivity|simpl; auto|reflexivity| |].
  - exists s', w'. split; [exact Hrun|]. split; [now rewrite Hrows|]. auto.
  - exfalso. rewrite Hsaved in Hnone; [discriminate|exact fixture_world_healthy|reflexivity].
Defined.

(** ** Selecting rows *)

Lemma toggle_filter_length (id : Z) (prev : list Z) :
  List.NoDup prev -> In id prev ->
  S (List.length (List.filter (fun i => negb (i =? id)%Z) prev)) = List.length prev.
Proof.
  induction prev as [|j prev IH]; intros Hnd Hin; [destruct Hin|].
  inversion Hnd as [|? ? Hnot Hrest]; subst. simpl.
  destruct (Z.eqb_spec j id) as [->|Hne]; simpl.
  - f_equal. f_equal. apply List.forallb_filter_id, List.forallb_forall.
    intros k Hk. apply negb_true_iff, Z.eqb_neq. intros ->. contradiction.
  - f_equal. apply IH; [assumption|]. destruct Hin; [contradiction|assumption].
Qed.

(** X28.  Tapping a row flips its selection and no other.  On a selection
    without repetition, [toggleSelection id] gives a selection without
    repetition in which [id] is selected just when it was not before and
    every other id is selected just when it was; the number of selected
    ids goes up or down by one; the ids that stay keep their order and a
    new id comes last; tapping the same row again gives the selection of
    before, as a set. *)
Theorem toggleSelection_flips_one (id : Z) (prev : list Z) :
  List.NoDup prev ->
  let next := Screens.toggleSelection id prev in
  List.NoDup next /\
  (In id next <-> ~ In id prev) /\
  (forall j, j <> id -> (In j next <-> In j prev)) /\
  (In id prev -> S (List.length next) = List.length prev) /\
  (~ In id prev -> next = (prev ++ [id])%list) /\
  List.filter (fun i => negb (i =? id)%Z) next = List.filter (fun i => negb (i =? id)%Z) prev /\
  (forall j, In j (Screens.toggleSelection id next) <-> In j prev).
Proof.
  intros Hnd next.
  assert (Hfilter : forall l j, In j (List.filter (fun i => negb (i =? id)%Z) l)
                                <-> In j l /\ j <> id).
  { intros l j. rewrite List.filter_In, negb_true_iff, Z.eqb_neq. reflexivity. }
  assert (Hkeep : forall l, ~ In id l -> List.filter (fun i => negb (i =? id)%Z) l = l).
  { intros l Hl. apply List.forallb_filter_id, List.forallb_forall.
    intros k Hk. apply negb_true_iff, Z.eqb_neq. intros ->. contradiction. }
  unfold next, Screens.toggleSelection.
  destruct (existsb (Z.eqb id) prev) eqn:E.
  - assert (Hin : In id prev) by now apply existsb_id_In.
    assert (Hout : ~ In id (List.filter (fun i => negb (i =? id)%Z) prev)).
    { rewrite Hfilter. tauto. }
    split; [now apply List.NoDup_filter|]. split; [tauto|].
    split; [intros j Hj; rewrite Hfilter; tauto|].
    split; [intros _; now apply toggle_filter_length|]. split; [tauto|].
    split; [now rewrite Hkeep by assumption|].
    assert (E' : existsb (Z.eqb id) (List.filter (fun i => negb (i =? id)%Z) prev) = false).
    { apply not_true_iff_false. now rewrite existsb_id_In. }
    rewrite E'. intros j. rewrite List.in_app_iff, Hfilter. simpl.
    destruct (Z.eq_dec j id) as [->|Hne]; [tauto|]. intuition congruence.
  - assert (Hin : ~ In id prev).
    { rewrite <- existsb_id_In. congruence. }
    split.
    { apply List.NoDup_app; [assumption|repeat constructor; intros []|].
      intros k Hk [<-|[]]. contradiction. }
    split; [rewrite List.in_app_iff; simpl; tauto|].
    split; [intros j Hj; rewrite List.in_app_iff; simpl; intuition congruence|].
    split; [tauto|]. split; [reflexivity|].
    split.
    { rewrite List.filter_app. simpl. rewrite Z.eqb_refl. simpl. now rewrite List.app_nil_r. }
    assert (E' : existsb (Z.eqb id) (prev ++ [id]) = true).
    { apply existsb_id_In, List.in_app_iff. simpl. auto. }
    rewrite E'. intros j. rewrite Hfilter, List.in_app_iff. simpl.
    destruct (Z.eq_dec j id) as [->|Hne]; [tauto|]. intuition congruence.
Qed.

Lemma toggleSelection_flips_one_witness :
  Screens.toggleSelection 4 [2; 4; 7]%Z = [2; 7]%Z /\
  S (List.length (Screens.toggleSelection 4 [2; 4; 7]%Z)) = 3%nat.
Proof.
  split; [reflexivity|].
  destruct (toggleSelection_flips_one 4 [2; 4; 7]%Z) as (_ & _ & _ & Hlen & _).
  - repeat constructor; simpl; intuition discriminate.
  - apply Hlen. simpl. auto.
Defined.

(** ** The statements above on the fixture *)

Lemma readers_never_write_witness :
  db (snd (getMonthlyBudgetsWithFallbackStatus "2024-06" Screens.categories
             Fixture.faulty_world))
  = db Fixture.faulty_world.
Proof.
  destruct (readers_never_write "" "" "2024-06" Screens.categories)
    as (_ & _ & _ & _ & _ & _ & H).
  apply (H Fixture.faulty_world
           (fst (getMonthlyBudgetsWithFallbackStatus "2024-06" Screens.categories
                   Fixture.faulty_world))).
  apply surjective_pairing.
Defined.

Lemma writers_all_or_nothing_witness :
  exists e w',
    upsertBudget "2024-06" "fun" 1 Fixture.unopened_world = (Rejected e, w') /\
    db w' = db Fixture.unopened_world.
Proof.
  destruct (writers_all_or_nothing 1 "fun" None "" "2024-06" 0 []) as (_ & _ & _ & H & _).
  eexists. eexists. split; [reflexivity|]. eapply H. reflexivity.
Defined.

Lemma stroke_color_bands_witness :
  DonutChart.strokeColor None None
    {| DonutChart.size := None; DonutChart.strokeWidth := None;
       DonutChart.progress := Fin (3 # 2) |} = "#ef4444".
Proof.
  destruct (stroke_color_bands None
              {| DonutChart.size := None; DonutChart.strokeWidth := None;
                 DonutChart.progress := Fin (3 # 2) |}) as (_ & _ & H).
  destruct (H I) as [Hfin _]. destruct (Hfin (3 # 2) eq_refl) as [Hred _].
  apply Hred. unfold Qle. simpl. lia.
Defined.

Lemma budget_donut_witness :
  BudgetScreen.donut_color Fixture.round 75 60 = "#ef4444".
Proof.
  destruct (budget_donut Fixture.round 75 60 fixture_round_rounding) as [_ H].
  destruct H as (_ & Hred & _); [reflexivity|discriminate|].
  apply Hred. discriminate.
Defined.

